(** * PhillyScraper: a shallow embedding of [scraper.py]

    The development follows the source file top-down: Python strings and the
    few [str] methods the scraper calls, insertion-ordered dictionaries, the
    parsed-document tree with the queries the scraper issues against it, the
    effects of a run (log, network, pacing, output file) as a small
    state-and-exit monad, then the methods of [PhillyScraper] one by one. *)

From Stdlib Require Import String Ascii ZArith DecimalString.
From stdpp Require Import base tactics option list numbers strings sets.

Set Warnings "-register-all,-clear-no-such-hyp".
Local Open Scope list_scope.

(** ** Python strings

    A [str] is a sequence of Unicode code points. *)

Definition pystr := list N.

(** A literal of the source, given by its ASCII text. *)
Definition lit (s : string) : pystr :=
  map N_of_ascii (list_ascii_of_string s).

(** U+2019 RIGHT SINGLE QUOTATION MARK and U+2013 EN DASH. *)
Definition rsquo : N := 8217%N.
Definition ndash : N := 8211%N.
Definition apostrophe : N := 39%N.
Definition hyphen : N := 45%N.
Definition space : N := 32%N.
Definition comma : N := 44%N.
Definition slash : N := 47%N.

(** [str.isspace] on one code point: the whitespace set [str.split()] and
    [str.strip()] work with. *)
Definition is_space (c : N) : bool :=
  ((9 <=? c) && (c <=? 13) || (28 <=? c) && (c <=? 32)
   || (c =? 133) || (c =? 160) || (c =? 5760)
   || (8192 <=? c) && (c <=? 8202)
   || (c =? 8232) || (c =? 8233) || (c =? 8239) || (c =? 8287)
   || (c =? 12288))%N.

Definition pystr_eqb (a b : pystr) : bool := bool_decide (a = b).
Arguments pystr_eqb : simpl never.
Arguments lit : simpl never.

(** [s.split()]: the maximal runs of non-whitespace; [cur] is the run being
    read. *)
Fixpoint split_from (cur : pystr) (s : pystr) : list pystr :=
  match s with
  | [] => match cur with [] => [] | _ => [cur] end
  | c :: s' =>
      if is_space c
      then match cur with
           | [] => split_from [] s'
           | _ => cur :: split_from [] s'
           end
      else split_from (cur ++ [c]) s'
  end.

Definition split (s : pystr) : list pystr := split_from [] s.

(** [sep.join(parts)]. *)
Fixpoint join (sep : pystr) (parts : list pystr) : pystr :=
  match parts with
  | [] => []
  | [p] => p
  | p :: rest => p ++ sep ++ join sep rest
  end.

(** [s.lstrip()], [s.rstrip()], [s.strip()]. *)
Fixpoint lstrip (s : pystr) : pystr :=
  match s with
  | [] => []
  | c :: s' => if is_space c then lstrip s' else s
  end.

Definition rstrip (s : pystr) : pystr := rev (lstrip (rev s)).

Definition strip (s : pystr) : pystr := rstrip (lstrip s).

(** [s.startswith(p)]. *)
Fixpoint startswith (p s : pystr) : bool :=
  match p, s with
  | [], _ => true
  | a :: p', b :: s' => (a =? b)%N && startswith p' s'
  | _ :: _, [] => false
  end.

(** [s.replace(old, new)]: leftmost non-overlapping occurrences. [skip] counts
    the code points of a match still to be passed over. *)
Fixpoint replace_from (old new : pystr) (skip : nat) (s : pystr) : pystr :=
  match s with
  | [] => []
  | c :: s' =>
      match skip with
      | S k => replace_from old new k s'
      | O =>
          if startswith old s
          then new ++ replace_from old new (length old - 1) s'
          else c :: replace_from old new 0 s'
      end
  end.

Definition replace (old new : pystr) (s : pystr) : pystr :=
  match old with
  | [] => new ++ concat (map (fun c => c :: new) s)
  | _ => replace_from old new 0 s
  end.

(** [s.split(sep)] for a one-character separator: every field between two
    separators, empty ones included. *)
Fixpoint split_sep_from (sep : N) (cur : pystr) (s : pystr) : list pystr :=
  match s with
  | [] => [cur]
  | c :: s' =>
      if (c =? sep)%N
      then cur :: split_sep_from sep [] s'
      else split_sep_from sep (cur ++ [c]) s'
  end.

Definition split_sep (sep : N) (s : pystr) : list pystr :=
  split_sep_from sep [] s.

(** ** Insertion-ordered dictionaries

    A Python [dict] keeps its keys in insertion order and [d[k] = v] on a key
    already present overwrites in place. *)

Section Dict.
Context {K V : Type} `{EqDecision K}.

Definition dict := list (K * V).

Fixpoint dict_get (k : K) (d : list (K * V)) : option V :=
  match d with
  | [] => None
  | (k', v) :: d' => if decide (k = k') then Some v else dict_get k d'
  end.

Fixpoint dict_set (k : K) (v : V) (d : list (K * V)) : list (K * V) :=
  match d with
  | [] => [(k, v)]
  | (k', v') :: d' =>
      if decide (k = k') then (k, v) :: d' else (k', v') :: dict_set k v d'
  end.

Definition dict_has (k : K) (d : list (K * V)) : bool :=
  match dict_get k d with Some _ => true | None => false end.

Definition dict_keys (d : list (K * V)) : list K := map fst d.
End Dict.

Arguments dict : clear implicits.

(** ** Parsed documents

    What [BeautifulSoup(r.content, 'lxml')] hands to the scraper: text leaves
    ([NavigableString]) and elements ([Tag]) with a name, attributes and
    [contents]. The document itself is an element whose contents are the
    top-level nodes. *)

Inductive node :=
| Text (s : pystr)
| Elem (name : string) (attrs : list (string * pystr)) (contents : list node).

Definition soup_of (top : list node) : node := Elem "[document]" [] top.

(** [x.name == nm]; the name of a text leaf is [None]. *)
Definition named (nm : string) (n : node) : bool :=
  match n with Text _ => false | Elem nm' _ _ => String.eqb nm nm' end.

(** [tag.contents]. *)
Definition contents_of (n : node) : list node :=
  match n with Text _ => [] | Elem _ _ cs => cs end.

(** [tag.text]: all text leaves below the node, concatenated. *)
Fixpoint text (n : node) : pystr :=
  match n with
  | Text s => s
  | Elem _ _ cs => concat (map text cs)
  end.

(** [tag[k]]: [None] stands for the [KeyError]. *)
Definition attr (k : string) (n : node) : option pystr :=
  match n with Text _ => None | Elem _ as_ _ => dict_get k as_ end.

(** The [class] attribute is a whitespace-separated list of class names. *)
Definition has_class (c : pystr) (n : node) : bool :=
  match attr "class" n with
  | Some v => existsb (pystr_eqb c) (split v)
  | None => false
  end.

(** The selectors the scraper uses: a tag name, possibly with one attribute
    test, a class or an id; and two of those joined by the descendant or the
    child combinator. *)
Inductive cond :=
| Always
| AttrIs (k : string) (v : pystr)
| Class (c : pystr)
| Id (i : pystr).

Inductive simple := Sel (nm : string) (c : cond).

Inductive selector :=
| Simple (s : simple)
| Descendant (a b : simple)
| Child (a b : simple).

Definition holds (c : cond) (n : node) : bool :=
  match c with
  | Always => true
  | AttrIs k v => match attr k n with Some w => pystr_eqb v w | None => false end
  | Class cl => has_class cl n
  | Id i => match attr "id" n with Some w => pystr_eqb i w | None => false end
  end.

Definition matches (s : simple) (n : node) : bool :=
  match s with Sel nm c => named nm n && holds c n end.

(** The node and everything below it, in document order. *)
Fixpoint subtree (n : node) : list node :=
  n :: match n with
       | Text _ => []
       | Elem _ _ cs => concat (map subtree cs)
       end.

Definition descendants (n : node) : list node :=
  concat (map subtree (contents_of n)).

(** Document-order walk for [a b] and [a > b]: [inside] says whether the node
    has an ancestor (a parent, when [direct]) matching [a]. *)
Fixpoint select_within (a b : simple) (direct inside : bool) (n : node)
  : list node :=
  (if inside && matches b n then [n] else [])
  ++ match n with
     | Text _ => []
     | Elem _ _ cs =>
         let inside' := if direct then matches a n
                        else inside || matches a n in
         concat (map (select_within a b direct inside') cs)
     end.

(** [tag.select(sel)]. *)
Definition select (sel : selector) (n : node) : list node :=
  match sel with
  | Simple s => filter (fun x => matches s x = true) (descendants n)
  | Descendant a b =>
      concat (map (select_within a b false false) (contents_of n))
  | Child a b =>
      concat (map (select_within a b true false) (contents_of n))
  end.

(** [tag.select_one(sel)] and [tag.find(name)]. *)
Definition select_one (sel : selector) (n : node) : option node :=
  head (select sel n).

Definition find (nm : string) (n : node) : option node :=
  head (select (Simple (Sel nm Always)) n).

(** ** Output values

    What ends up in [self.__data] and in the JSON file: strings, lists and
    dictionaries keyed by the field names of the source. *)

Inductive pyval :=
| VStr (s : pystr)
| VList (l : list pyval)
| VDict (d : list (string * pyval)).

(** ** Effects of a run *)

Inductive level := DEBUG | INFO | WARNING | ERROR.

(** The six [self.__sess.get(...)] calls of the source. *)
Inductive request :=
| ReqSeasons
| ReqSeason (season_id : pystr)
| ReqConcert (concert_id : pystr)
| ReqFilms
| ReqFilm (film_id : pystr)
| ReqStreams (content_id : pystr).

Definition site : pystr := lit "https://www.digitalconcerthall.com".

Definition url_of (r : request) : pystr :=
  match r with
  | ReqSeasons => site ++ lit "/json_cacheable_services/get_seasons?language=en"
  | ReqSeason i => site ++ lit "/en/concerts/season_" ++ i
  | ReqConcert i => site ++ lit "/en/concert/" ++ i
  | ReqFilms => site ++ lit "/en/films"
  | ReqFilm i => site ++ lit "/en/film/" ++ i
  | ReqStreams i =>
      site ++ lit "/json_services/get_stream_urls?id=" ++ i ++ lit "&language=en"
  end.

(** What [get] followed by [raise_for_status] comes back with: one of the
    four exception classes the source catches, in the order of its [except]
    clauses, or the response. [e] is the text of the exception. *)
Inductive response (A : Type) :=
| HTTPError (e : pystr)
| ConnectionError (e : pystr)
| Timeout
| RequestException (e : pystr)
| Received (a : A).
Arguments HTTPError {A} e.
Arguments ConnectionError {A} e.
Arguments Timeout {A}.
Arguments RequestException {A} e.
Arguments Received {A} a.

(** A response read with [r.json()]: [body_json] is [None] when the body is
    not JSON ([ValueError]); [body_text] is [r.text]. *)
Record json_body (T : Type) := JsonBody {
  body_text : pystr;
  body_json : option T
}.
Arguments JsonBody {T} _ _.
Arguments body_text {T} _.
Arguments body_json {T} _.

(** [{count: int, items: [{id, label}, ...]}] *)
Record season := Season { season_id : pystr; season_label : pystr }.
Record seasons_dict := SeasonsDict { count : Z; items : list season }.

(** [{success: bool, message?: str, urls: {subId: [{url, ...}, ...]}}]: an
    envelope need not carry a [message]. *)
Record descriptor := Descriptor { url : pystr }.
Record urls_dict := UrlsDict {
  success : bool;
  message : option pystr;
  urls : dict pystr (list descriptor)
}.

(** The provider, as seen through the session. *)
Record network := Network {
  seasons_endpoint : response (json_body seasons_dict);
  season_page : pystr -> response node;
  concert_page : pystr -> response node;
  films_page : response node;
  film_page : pystr -> response node;
  stream_urls : pystr -> response (json_body urls_dict)
}.

Inductive event :=
| Log (lvl : level) (msg : pystr)
| Fetch (r : request)
| Sleep (lo hi : Z)
| Dump (out_name : pystr) (batch : list pyval).

(** The exceptions nothing in the source catches. *)
Inductive exn := KeyError | TypeError | AttributeError | IndexError.

Inductive outcome (A : Type) :=
| Ret (a : A)
| Exit (code : Z)
| Uncaught (e : exn).
Arguments Ret {A} a.
Arguments Exit {A} code.
Arguments Uncaught {A} e.

(** [data] is [self.__data]; [trace] is everything the process did so far,
    oldest first. *)
Record state := State { data : list pyval; trace : list event }.

Definition M (A : Type) := state -> outcome A * state.

Definition ret {A} (a : A) : M A := fun s => (Ret a, s).

Definition bind {A B} (m : M A) (k : A -> M B) : M B :=
  fun s =>
    match m s with
    | (Ret a, s') => k a s'
    | (Exit c, s') => (Exit c, s')
    | (Uncaught e, s') => (Uncaught e, s')
    end.

Declare Scope run_scope.
Delimit Scope run_scope with run.
Notation "x <- m ;; k" := (bind m (fun x => k))
  (at level 100, m at next level, right associativity) : run_scope.
Notation "m ;; k" := (bind m (fun _ => k))
  (at level 100, right associativity) : run_scope.
Local Open Scope run_scope.

Definition emit (e : event) : M unit :=
  fun s => (Ret tt, State (data s) (trace s ++ [e])).

Definition log (lvl : level) (msg : pystr) : M unit := emit (Log lvl msg).
Definition sleep (lo hi : Z) : M unit := emit (Sleep lo hi).
Definition sys_exit {A} (code : Z) : M A := fun s => (Exit code, s).
Definition raise {A} (e : exn) : M A := fun s => (Uncaught e, s).
Definition get_data : M (list pyval) := fun s => (Ret (data s), s).
Definition set_data (d : list pyval) : M unit :=
  fun s => (Ret tt, State d (trace s)).

(** [x] or the exception [e] when the source would have raised it. *)
Definition or_raise {A} (e : exn) (x : option A) : M A :=
  match x with Some a => ret a | None => raise e end.

Fixpoint for_each {A} (l : list A) (body : A -> M unit) : M unit :=
  match l with
  | [] => ret tt
  | x :: l' => body x ;; for_each l' body
  end.

Fixpoint map_m {A B} (f : A -> M B) (l : list A) : M (list B) :=
  match l with
  | [] => ret []
  | x :: l' => y <- f x ;; ys <- map_m f l' ;; ret (y :: ys)
  end.

(** The status the operating system sees: [sys.exit(c)] reports [c] modulo
    256, an uncaught exception reports 1. *)
Definition exit_status {A} (o : outcome A) : Z :=
  match o with
  | Ret _ => 0
  | Exit c => c mod 256
  | Uncaught _ => 1
  end.

Definition str_of_nat (n : nat) : pystr :=
  lit (NilZero.string_of_uint (Nat.to_uint n)).
Definition str_of_Z (z : Z) : pystr :=
  lit (NilZero.string_of_int (Z.to_int z)).

(** The [try: get; raise_for_status / except ...: log.error; sys.exit(-1)]
    block every fetch of the source repeats; [what] is the subject of the
    four messages. *)
Definition get_or_exit {A} (what : pystr) (req : request) (resp : response A)
  : M A :=
  emit (Fetch req) ;;
  match resp with
  | HTTPError e =>
      log ERROR (what ++ lit " failed with http error: " ++ e) ;; sys_exit (-1)
  | ConnectionError e =>
      log ERROR (what ++ lit " failed with network problems: " ++ e) ;;
      sys_exit (-1)
  | Timeout => log ERROR (what ++ lit " timed out!") ;; sys_exit (-1)
  | RequestException e =>
      log ERROR (what ++ lit " failed with request error: " ++ e) ;;
      sys_exit (-1)
  | Received a => ret a
  end.

(** ** The status check

    What the server sent for a request that got through, and
    [r.raise_for_status()] of the requests library on it: an [HTTPError] for
    a status from 400 to 499 (client error) or from 500 to 599 (server
    error), with the text the library gives it, and nothing for any other
    status. *)
Record reply (A : Type) := Reply {
  status_code : Z;
  reason : pystr;
  reply_url : pystr;
  content : A
}.
Arguments Reply {A} _ _ _ _.
Arguments status_code {A} _.
Arguments reason {A} _.
Arguments reply_url {A} _.
Arguments content {A} _.

Definition http_error_msg {A} (kind : pystr) (r : reply A) : pystr :=
  str_of_Z (status_code r) ++ lit " " ++ kind ++ lit " Error: " ++ reason r
  ++ lit " for url: " ++ reply_url r.

Definition raise_for_status {A} (r : reply A) : response A :=
  if bool_decide (400 <= status_code r < 500)%Z
  then HTTPError (http_error_msg (lit "Client") r)
  else if bool_decide (500 <= status_code r < 600)%Z
  then HTTPError (http_error_msg (lit "Server") r)
  else Received (content r).

(** ** [PhillyScraper] *)

Definition MIN_DELAY : Z := 2.
Definition MAX_DELAY : Z := 5.

(** [__extract_text]: [' '.join(page_element.text.split())]; on a text leaf
    the [AttributeError] branch does the same to the string itself, and
    [text] of a leaf is that string. *)
Definition extract_text (page_element : node) : pystr :=
  join [space] (split (text page_element)).

(** The two-key dictionary [__make_dict] returns. *)
Record artist := Artist { role : pystr; player : pystr }.

Definition KEINE_ROLLE : pystr := lit "KEINE ROLLE".
Definition KEINER : pystr := lit "KEINER".

(** [__make_dict]: every [strong] of the group overwrites the player, every
    [em] the role. *)
Definition make_dict (groups : list node) : artist :=
  fold_left
    (fun ret tag =>
       if named "strong" tag then Artist (role ret) (strip (text tag))
       else if named "em" tag then Artist (strip (text tag)) (player ret)
       else ret)
    groups (Artist KEINE_ROLLE KEINER).

(** [itertools.groupby(l, key)]: maximal runs of neighbours with equal key. *)
Fixpoint groupby {A} (key : A -> bool) (l : list A) : list (bool * list A) :=
  match l with
  | [] => []
  | x :: l' =>
      match groupby key l' with
      | (k, g) :: gs =>
          if Bool.eqb (key x) k then (k, x :: g) :: gs
          else (key x, [x]) :: (k, g) :: gs
      | [] => [(key x, [x])]
      end
  end.

(** [str(x).strip() != ','], the key the artist fragment is grouped by: the
    markup of an element opens with its tag, so only a text leaf can be a bare
    comma. *)
Definition not_comma (x : node) : bool :=
  match x with
  | Text s => negb (pystr_eqb (strip s) [comma])
  | Elem _ _ _ => true
  end.

(** [[self.__make_dict(g[1]) for g in groupby(...) if g[0]]] *)
Definition artist_list (contents : list node) : list artist :=
  map (fun g => make_dict (snd g))
      (filter (fun g => fst g = true) (groupby not_comma contents)).

(** The body of [for d in artistList]: fold one artist into [temp]. *)
Definition add_artist (temp : dict pystr (list pystr)) (d : artist)
  : dict pystr (list pystr) :=
  match dict_get (role d) temp with
  | Some names => dict_set (role d) (names ++ [player d]) temp
  | None => dict_set (role d) [player d] temp
  end.

Definition fold_roles (artistList : list artist) : dict pystr (list pystr) :=
  fold_left add_artist artistList [].

Definition artist_group (kv : pystr * list pystr) : pyval :=
  VDict [("role", VStr (fst kv)); ("names", VList (map VStr (snd kv)))].

(** The negation of the test on line 210: exactly one group, and it carries
    both sentinels. *)
Definition lone_sentinel (artistList : list artist) : bool :=
  match artistList with
  | [d] => pystr_eqb (role d) KEINE_ROLLE && pystr_eqb (player d) KEINER
  | _ => false
  end.

(** Lines 208-226: the artists of a piece, written into [pieceDict]. *)
Definition set_artists (artists : node) (pieceDict : dict string pyval)
  : dict string pyval :=
  let artistList := artist_list (contents_of artists) in
  if negb (lone_sentinel artistList)
  then
    let pieceArtists := map artist_group (fold_roles artistList) in
    match pieceArtists with
    | [] => pieceDict
    | _ => dict_set "artists" (VList pieceArtists) pieceDict
    end
  else pieceDict.

(** Lines 192-198: the loop over the header's nodes; [headers[idx + 1:]] is
    the rest of the list at the [br]. *)
Fixpoint scan_headers (headers : list node) (pieceDict : dict string pyval)
  : dict string pyval :=
  match headers with
  | [] => pieceDict
  | tag :: rest =>
      if named "strong" tag
      then scan_headers rest
             (dict_set "composer" (VStr (strip (text tag))) pieceDict)
      else if named "br" tag
      then dict_set "description"
             (VStr (strip (join [] (map extract_text rest)))) pieceDict
      else scan_headers rest pieceDict
  end.

(** Lines 191-201. *)
Definition set_header (headers : list node) (pieceDict : dict string pyval)
  : dict string pyval :=
  let pieceDict := scan_headers headers pieceDict in
  if negb (dict_has "composer" pieceDict)
     && negb (dict_has "description" pieceDict)
  then dict_set "description"
         (VStr (strip (join [] (map extract_text headers)))) pieceDict
  else pieceDict.

Definition not_found : pystr := lit "not-found".

(** Lines 185-189, shared in shape with lines 419-423. *)
Definition set_stream_url (kind : pystr) (id : pystr)
    (streams : dict pystr pystr) (d : dict string pyval)
  : M (dict string pyval) :=
  match dict_get id streams with
  | Some u => ret (dict_set "streamUrl" (VStr u) d)
  | None =>
      log WARNING (lit "No stream url found for " ++ kind ++ lit " with ID " ++ id) ;;
      ret (dict_set "streamUrl" (VStr not_found) d)
  end.

(** The body of [for piece in soup.select('ul.list-lines > li')]. *)
Definition extract_piece (streams : dict pystr pystr) (piece : node)
  : M (dict string pyval) :=
  work <- or_raise TypeError
            (select_one (Simple (Sel "div" (Class (lit "jsConcertWork")))) piece) ;;
  concert_piece_id <- or_raise KeyError (attr "id" work) ;;
  let pieceDict := [("pieceId", VStr concert_piece_id)] in
  pieceDict <- set_stream_url (lit "concert piece") concert_piece_id streams
                 pieceDict ;;
  h2 <- or_raise AttributeError (find "h2" piece) ;;
  let pieceDict := set_header (contents_of h2) pieceDict in
  match find "p" piece with
  | None => ret pieceDict
  | Some artists => ret (set_artists artists pieceDict)
  end.

(** [d[key] = f(tag)] when [select_one] found the tag. *)
Definition set_if_found (key : string) (tag : option node)
    (f : node -> pyval) (d : dict string pyval) : dict string pyval :=
  match tag with
  | Some t => dict_set key (f t) d
  | None => d
  end.

Definition unquote (s : pystr) : pystr := replace [rsquo] [apostrophe] s.

(** Lines 154-155. Calling [.split] on an element is a [TypeError]. *)
Definition set_concert_meta (metaElms : list node)
    (metaDict : dict string pyval) : M (dict string pyval) :=
  if bool_decide (length metaElms = 3%nat)
  then match metaElms !! 2%nat with
       | Some (Text s) =>
           ret (dict_set "concertMeta"
                  (VStr (unquote (join [space] (split s)))) metaDict)
       | _ => raise TypeError
       end
  else ret metaDict.

(** Lines 160-165: [.strip()] on a text leaf; on an element that is a
    [TypeError] and the handler strips its [text]; no first node is an
    [IndexError] and the field is left out. *)
Definition set_main_artist (mainElms : list node)
    (metaDict : dict string pyval) : dict string pyval :=
  match mainElms !! 0%nat with
  | Some (Text s) => dict_set "mainArtist" (VStr (strip s)) metaDict
  | Some t => dict_set "mainArtist" (VStr (strip (text t))) metaDict
  | None => metaDict
  end.

(** Lines 167-168. [.text] on a text leaf is an [AttributeError]. *)
Definition set_conductor (mainElms : list node)
    (metaDict : dict string pyval) : M (dict string pyval) :=
  if bool_decide (length mainElms = 3%nat)
  then match mainElms !! 2%nat with
       | Some (Elem _ _ _ as t) =>
           ret (dict_set "conductor" (VStr (extract_text t)) metaDict)
       | _ => raise AttributeError
       end
  else ret metaDict.

(** Lines 170-172. *)
Definition set_star_artists (starArtists : list node)
    (metaDict : dict string pyval) : dict string pyval :=
  match starArtists with
  | [] => metaDict
  | _ => dict_set "starArtists"
           (VList (map (fun spanTag => VStr (extract_text spanTag))
                     starArtists)) metaDict
  end.

(** Lines 429-431. *)
Definition set_actors (actorsTag : list node)
    (film_dict : dict string pyval) : dict string pyval :=
  match actorsTag with
  | [] => film_dict
  | _ => dict_set "actors"
           (VList (map (fun actor => VStr (strip (text actor))) actorsTag))
           film_dict
  end.

Section Scraper.
(** The provider and the two identifier lists [__init__] reads. *)
Variable net : network.
Variables concert_id_list film_id_list : list pystr.

(** [__write_output] *)
Definition write_output (out_name : pystr) : M unit :=
  d <- get_data ;; emit (Dump (out_name ++ lit ".json") d).

(** [__get_seasons] *)
Definition get_seasons : M (list season) :=
  log DEBUG (lit "Getting seasons...") ;;
  r <- get_or_exit (lit "Get seasons") ReqSeasons (seasons_endpoint net) ;;
  match body_json r with
  | None =>
      log ERROR (lit "Get seasons returned non-json data: " ++ body_text r) ;;
      sys_exit (-1)
  | Some seasons_dict =>
      (if bool_decide (Z.of_nat (length (items seasons_dict))
                       <> count seasons_dict)
       then log WARNING
              (lit "API returned a season count of "
               ++ str_of_Z (count seasons_dict) ++ lit ", but "
               ++ str_of_nat (length (items seasons_dict))
               ++ lit " were found!")
       else ret tt) ;;
      ret (items seasons_dict)
  end.

(** Line 265: [{ k:v[0]['url'] for k, v in urls_dict['urls'].items() }];
    an empty candidate list makes [v[0]] raise. *)
Fixpoint first_urls (its : list (pystr * list descriptor))
    (manifest_dict : dict pystr pystr) : M (dict pystr pystr) :=
  match its with
  | [] => ret manifest_dict
  | (k, v) :: rest =>
      match v with
      | [] => raise IndexError
      | d :: _ => first_urls rest (dict_set k (url d) manifest_dict)
      end
  end.

(** [__get_streams]. Line 262 reads [urls_dict["message"]] while it builds
    the log line, outside any [try]: an envelope that refuses without a
    message is a [KeyError] before anything is logged. *)
Definition get_streams (content_id : pystr) : M (dict pystr pystr) :=
  log DEBUG (lit "Getting streams for content with ID " ++ content_id
             ++ lit "...") ;;
  r <- get_or_exit (lit "Get streams for content with ID " ++ content_id)
         (ReqStreams content_id) (stream_urls net content_id) ;;
  match body_json r with
  | None =>
      log ERROR (lit "Get streams for content with ID " ++ content_id
                 ++ lit " returned non-json data: " ++ body_text r) ;;
      sys_exit (-1)
  | Some urls_dict =>
      if negb (success urls_dict)
      then
        message <- or_raise KeyError (message urls_dict) ;;
        log ERROR (lit "Get streams failed with message: " ++ message) ;;
        sys_exit (-1)
      else
        manifest_dict <- first_urls (urls urls_dict) [] ;;
        log DEBUG (lit "Extracted " ++ str_of_nat (length manifest_dict)
                   ++ lit " streams for content with ID " ++ content_id) ;;
        ret manifest_dict
  end.

(** [__extract_metadata]. A missing [p.concertMeta] or [p.mainArtist] is
    an [AttributeError] on [None], [.replace] on an element a
    [TypeError]. *)
Definition extract_metadata (concert_id : pystr) (soup : node)
  : M (dict string pyval) :=
  log DEBUG (lit "Extracting metadata for concert with ID " ++ concert_id
             ++ lit "...") ;;
  streams <- get_streams concert_id ;;
  let metaDict := [("concertId", VStr concert_id)] in
  let metaDict :=
    set_if_found "concertTitle"
      (select_one (Simple (Sel "h1" (AttrIs "itemprop" (lit "name")))) soup)
      (fun t => VStr (strip (unquote (text t)))) metaDict in
  let metaDict :=
    set_if_found "concertProgramme"
      (select_one (Simple (Sel "div" (AttrIs "itemprop" (lit "description"))))
         soup)
      (fun t => VStr (strip (unquote (text t)))) metaDict in
  let metaDict :=
    set_if_found "concertProgrammeGuide"
      (select_one (Simple (Sel "div" (Id (lit "tabs-1")))) soup)
      (fun t => VStr (strip (unquote (text t)))) metaDict in
  concertMetaTag <- or_raise AttributeError
      (select_one (Simple (Sel "p" (Class (lit "concertMeta")))) soup) ;;
  let metaElms := contents_of concertMetaTag in
  first <- or_raise IndexError (metaElms !! 0%nat) ;;
  date <- match first with
          | Text s => ret (strip (replace [ndash] [hyphen] s))
          | Elem _ _ _ => raise TypeError
          end ;;
  let metaDict := dict_set "concertDate" (VStr date) metaDict in
  metaDict <- set_concert_meta metaElms metaDict ;;
  mainArtistTag <- or_raise AttributeError
      (select_one (Simple (Sel "p" (Class (lit "mainArtist")))) soup) ;;
  let mainElms := contents_of mainArtistTag in
  let metaDict := set_main_artist mainElms metaDict in
  metaDict <- set_conductor mainElms metaDict ;;
  let starArtists :=
    select (Descendant (Sel "p" (Class (lit "starArtist")))
                       (Sel "span" (AttrIs "itemprop" (lit "name")))) soup in
  let metaDict := set_star_artists starArtists metaDict in
  let metaDict :=
    set_if_found "support"
      (select_one (Simple (Sel "div" (Id (lit "concert-support")))) soup)
      (fun t => VStr (strip (text t))) metaDict in
  pieces <- map_m (extract_piece streams)
              (select (Child (Sel "ul" (Class (lit "list-lines")))
                             (Sel "li" Always)) soup) ;;
  ret (dict_set "pieces" (VList (map VDict pieces)) metaDict).

(** [__handle_concert]: [None] when the concert is skipped. *)
Definition handle_concert (concert_id : pystr)
  : M (option (dict string pyval)) :=
  if bool_decide (concert_id ∉ concert_id_list)
  then
    log DEBUG (lit "Scraping concert with ID " ++ concert_id ++ lit "...") ;;
    soup <- get_or_exit (lit "Get concert with ID " ++ concert_id)
              (ReqConcert concert_id) (concert_page net concert_id) ;;
    d <- extract_metadata concert_id soup ;;
    ret (Some d)
  else
    log DEBUG (lit "Skipping concert with ID " ++ concert_id
               ++ lit " because it already exists") ;;
    ret None.

(** Lines 327-334: the loop over the season's [li.archive] entries;
    [concerts] is [season_dict['concerts']] so far. [if concert_dict:] is
    false on [None] and on an empty dictionary. *)
Fixpoint season_concerts (entries : list node) (concerts : list pyval)
  : M (list pyval) :=
  match entries with
  | [] => ret concerts
  | concert :: rest =>
      id <- or_raise KeyError (attr "id" concert) ;;
      concert_dict <- handle_concert (drop 8 id) ;;
      let concerts :=
        match concert_dict with
        | Some ((_ :: _) as d) => concerts ++ [VDict d]
        | _ => concerts
        end in
      sleep MIN_DELAY MAX_DELAY ;;
      season_concerts rest concerts
  end.

(** [__handle_season] *)
Definition handle_season (s : season) : M unit :=
  let season_id := season_id s in
  log DEBUG (lit "Scraping season " ++ season_label s ++ lit " with ID "
             ++ season_id ++ lit "...") ;;
  soup <- get_or_exit (lit "Get season with ID " ++ season_id)
            (ReqSeason season_id) (season_page net season_id) ;;
  let concerts := select (Simple (Sel "li" (Class (lit "archive")))) soup in
  concerts <- season_concerts concerts [] ;;
  let season_dict :=
    [("seasonId", VStr season_id);
     ("season", VStr (replace [ndash] [hyphen] (season_label s)));
     ("concerts", VList concerts)] in
  d <- get_data ;;
  set_data (d ++ [VDict season_dict]).

(** [scrape_seasons] *)
Definition scrape_seasons : M unit :=
  set_data [] ;;
  all_seasons <- get_seasons ;;
  for_each all_seasons
    (fun s => handle_season s ;; sleep MIN_DELAY MAX_DELAY) ;;
  log INFO (lit "Writing to file...") ;;
  write_output (lit "seasons") ;;
  log INFO (lit "Done").

(** [__extract_film_data] *)
Definition extract_film_data (tag : node) : M (dict string pyval) :=
  link <- or_raise TypeError (select_one (Simple (Sel "a" Always)) tag) ;;
  href <- or_raise KeyError (attr "href" link) ;;
  film_id <- or_raise IndexError (last (split_sep slash href)) ;;
  title <- or_raise KeyError (attr "title" link) ;;
  ret [("film_id", VStr film_id); ("title", VStr title)].

(** [__get_films]. The source returns the lazy
    [map(self.__extract_film_data, films)]; the entries are handed out here
    and [extract_film_data] runs on each as [scrape_films] reaches it. *)
Definition get_films : M (list node) :=
  log DEBUG (lit "Getting films...") ;;
  soup <- get_or_exit (lit "Get films") ReqFilms (films_page net) ;;
  let films := select (Simple (Sel "li" (Class (lit "item")))) soup in
  log DEBUG (lit "Found " ++ str_of_nat (length films) ++ lit " films") ;;
  ret films.

(** [__handle_film] *)
Definition handle_film (film_dict : dict string pyval) : M unit :=
  film_id <- match dict_get "film_id" film_dict with
             | Some (VStr i) => ret i
             | Some _ => raise TypeError
             | None => raise KeyError
             end ;;
  if bool_decide (film_id ∉ film_id_list)
  then
    log DEBUG (lit "Scraping film with ID " ++ film_id ++ lit "...") ;;
    soup <- get_or_exit (lit "Get film with ID " ++ film_id)
              (ReqFilm film_id) (film_page net film_id) ;;
    streams <- get_streams film_id ;;
    film_dict <- set_stream_url (lit "film") film_id streams film_dict ;;
    let film_dict :=
      set_if_found "subtitle"
        (select_one (Descendant (Sel "div" (Class (lit "margin-15")))
                                (Sel "p" Always)) soup)
        (fun t => VStr (strip (text t))) film_dict in
    let actorsTag :=
      select (Descendant (Sel "div" (Class (lit "box-50")))
                         (Sel "strong" Always)) soup in
    let film_dict := set_actors actorsTag film_dict in
    let film_dict :=
      set_if_found "description"
        (select_one (Simple (Sel "div" (Id (lit "tabs-0")))) soup)
        (fun t => VStr (strip (text t))) film_dict in
    let film_dict :=
      set_if_found "credits"
        (select_one (Simple (Sel "div" (Id (lit "tabs-2")))) soup)
        (fun t => VStr (strip (text t))) film_dict in
    d <- get_data ;;
    set_data (d ++ [VDict film_dict])
  else
    log DEBUG (lit "Skipping film with ID " ++ film_id
               ++ lit " because it already exists").

(** [scrape_films] *)
Definition scrape_films : M unit :=
  set_data [] ;;
  all_films <- get_films ;;
  for_each all_films
    (fun tag =>
       film <- extract_film_data tag ;;
       handle_film film ;;
       sleep MIN_DELAY MAX_DELAY) ;;
  log INFO (lit "Writing to file...") ;;
  write_output (lit "films") ;;
  log INFO (lit "Done").
End Scraper.

(** A fresh process: nothing collected, nothing done yet. *)
Definition start : state := State [] [].


(** The entry of the resolved stream map, or the sentinel. *)
Definition resolved (id : pystr) (streams : dict pystr pystr) : pystr :=
  match dict_get id streams with
  | Some u => u
  | None => not_found
  end.

(** The roles of a list in the order they are first met. *)
Fixpoint first_seen (l : list pystr) : list pystr :=
  match l with
  | [] => []
  | x :: l' => x :: filter (fun y => y <> x) (first_seen l')
  end.

(** The groups [artist_list] keeps: the runs between bare commas. *)
Definition artist_groups (contents : list node) : list (bool * list node) :=
  filter (fun g => fst g = true) (groupby not_comma contents).

(** ** A sample provider

    One season, labelled with an en dash and reported with a wrong [count];
    its listing has one concert, 51. The concert page has three pieces: 42
    with the composer-and-break header and two sopranos, 43 with an atypical
    header (no composer in [strong], no [br], the text running over a leaf
    and an element), 44 with one bare name as its artist fragment. The film
    index lists film 7 twice. *)

Definition br : node := Elem "br" [] [].

Definition work_marker (id : string) : node :=
  Elem "div" [("class", lit "jsConcertWork"); ("id", lit id)] [].

Definition typical_artists : node :=
  Elem "p" []
    [Elem "strong" [] [Text (lit "Anna")]; Text (lit " ");
     Elem "em" [] [Text (lit "soprano")]; Text (lit ", ");
     Elem "strong" [] [Text (lit "Berta")]; Text (lit " ");
     Elem "em" [] [Text (lit "soprano")]].

Definition typical_h2 : node :=
  Elem "h2" []
    [Elem "strong" [] [Text (lit "Johannes Brahms")]; br;
     Text (lit " Ein deutsches  Requiem ")].

Definition typical_piece : node :=
  Elem "li" [] [work_marker "42"; typical_h2; typical_artists].

Definition atypical_h2 : node :=
  Elem "h2" [] [Text (lit "Hello "); Elem "i" [] [Text (lit "World")]].

Definition atypical_piece : node :=
  Elem "li" [] [work_marker "43"; atypical_h2].

Definition bare_artists : node := Elem "p" [] [Text (lit "Some Name")].

Definition bare_piece : node :=
  Elem "li" []
    [work_marker "44"; Elem "h2" [] [Text (lit "Encore")]; bare_artists].

Definition sample_title : pystr :=
  lit " Ein  deutsches " ++ [ndash] ++ lit " Requiem ".

Definition sample_concert_page : node :=
  soup_of
    [Elem "h1" [("itemprop", lit "name")] [Text sample_title];
     Elem "p" [("class", lit "concertMeta")]
       [Text (lit " 1 Feb 2020 " ++ [ndash] ++ lit " 20:00 "); br;
        Text (lit "  Philharmonie   Berlin ")];
     Elem "p" [("class", lit "mainArtist")]
       [Text (lit " Berliner Philharmoniker "); br;
        Elem "span" [] [Text (lit "Kirill   Petrenko")]];
     Elem "ul" [("class", lit "list-lines")]
       [typical_piece; atypical_piece; bare_piece]].

Definition sample_season_page : node :=
  soup_of
    [Elem "ul" []
       [Elem "li" [("class", lit "item archive"); ("id", lit "concert-51")] []]].

Definition film_entry : node :=
  Elem "li" [("class", lit "item")]
    [Elem "a" [("href", lit "/en/film/7"); ("title", lit "A Film")] []].

Definition sample_films_page : node := soup_of [film_entry; film_entry].

Definition sample_film_page : node :=
  soup_of [Elem "div" [("id", lit "tabs-0")] [Text (lit " About the film ")]].

(** The envelope of the spec's round-trip example. *)
Definition mock_envelope : urls_dict :=
  UrlsDict true None
    [(lit "42", [Descriptor (lit "https://x/a"); Descriptor (lit "https://x/b")])].

Definition sample_season : season :=
  Season (lit "2020") (lit "2019" ++ [ndash] ++ lit "2020").

Definition sample_net : network :=
  Network
    (Received (JsonBody [] (Some (SeasonsDict 2 [sample_season]))))
    (fun _ => Received sample_season_page)
    (fun _ => Received sample_concert_page)
    (Received sample_films_page)
    (fun _ => Received sample_film_page)
    (fun _ => Received (JsonBody [] (Some mock_envelope))).

(** The same provider with a stream endpoint that answers [success: false]. *)
Definition refusing_net : network :=
  Network
    (seasons_endpoint sample_net) (season_page sample_net)
    (concert_page sample_net) (films_page sample_net) (film_page sample_net)
    (fun _ =>
       Received (JsonBody [] (Some (UrlsDict false (Some (lit "denied")) [])))).

(** The same provider with a stream endpoint that refuses and gives no
    message: [{"success": false, "urls": {}}]. *)
Definition mute_net : network :=
  Network
    (seasons_endpoint sample_net) (season_page sample_net)
    (concert_page sample_net) (films_page sample_net) (film_page sample_net)
    (fun _ => Received (JsonBody [] (Some (UrlsDict false None [])))).

(** The same provider with a stream endpoint that sends the mock envelope
    under status 300, which is neither a success status nor an error
    status. *)
Definition multiple_choices : reply (json_body urls_dict) :=
  Reply 300 (lit "Multiple Choices")
    (site ++ lit "/json_services/get_stream_urls")
    (JsonBody [] (Some mock_envelope)).

Definition redirected_net : network :=
  Network
    (seasons_endpoint sample_net) (season_page sample_net)
    (concert_page sample_net) (films_page sample_net) (film_page sample_net)
    (fun _ => raise_for_status multiple_choices).

(** ** Normal forms of text

    [collapsed]: every whitespace run is one space and there is none at
    either end ([' '.join(s.split()) == s]). [trimmed]: no whitespace at
    either end ([s.strip() == s]). [tidy] is the normal form the spec asks of
    every text field. *)
Definition collapsed (s : pystr) : Prop := join [space] (split s) = s.
Definition trimmed (s : pystr) : Prop := strip s = s.
Definition tidy (s : pystr) : Prop :=
  collapsed s /\ (rsquo ∉ s) /\ (ndash ∉ s).

(** A word of [s.split()]: not empty, no whitespace in it. *)
Definition word (w : pystr) : Prop :=
  w <> [] /\ Forall (fun c => is_space c = false) w.

(** What a computation returned, if it did. *)
Definition returned {A} (r : outcome A * state) : option A :=
  match r.1 with Ret a => Some a | _ => None end.

(** ** How a record is filled

    One optional assignment [d[key] = v], with [shape v] known of the value;
    and a record built by a row of them. *)
Definition may_set (key : string) (shape : pyval -> Prop)
    (d d' : dict string pyval) : Prop :=
  d' = d \/ exists v, shape v /\ d' = dict_set key v d.

Fixpoint built_by (steps : list (string * (pyval -> Prop)))
    (d d' : dict string pyval) : Prop :=
  match steps with
  | [] => d' = d
  | (key, shape) :: rest => exists d1, may_set key shape d d1 /\ built_by rest d1 d'
  end.

(** The shapes of the values [__extract_metadata] writes. *)
Definition unquoted_trimmed (v : pyval) : Prop :=
  exists t, v = VStr (strip (unquote t)).
Definition dashed_trimmed (v : pyval) : Prop :=
  exists t, v = VStr (strip (replace [ndash] [hyphen] t)).
Definition collapsed_unquoted (v : pyval) : Prop :=
  exists t, v = VStr (unquote (join [space] (split t))).
Definition just_trimmed (v : pyval) : Prop := exists t, v = VStr (strip t).
Definition extracted (v : pyval) : Prop :=
  exists t : node, v = VStr (extract_text t).
Definition extracted_list (v : pyval) : Prop :=
  exists ts : list node, v = VList (map (fun t => VStr (extract_text t)) ts).
Definition piece_list (v : pyval) : Prop :=
  exists pieces, v = VList (map VDict pieces).

(** Every string inside a value. *)
Fixpoint leaves (v : pyval) : list pystr :=
  match v with
  | VStr s => [s]
  | VList l => concat (map leaves l)
  | VDict d => concat (map (fun kv => let '(_, x) := kv in leaves x) d)
  end.

Definition trimmed_list (v : pyval) : Prop :=
  exists ts : list node, v = VList (map (fun t => VStr (strip (text t))) ts).

Definition film_fields : list (string * (pyval -> Prop)) :=
  [("subtitle", just_trimmed);
   ("actors", trimmed_list);
   ("description", just_trimmed);
   ("credits", just_trimmed)].

Definition concert_fields : list (string * (pyval -> Prop)) :=
  [("concertTitle", unquoted_trimmed);
   ("concertProgramme", unquoted_trimmed);
   ("concertProgrammeGuide", unquoted_trimmed);
   ("concertDate", dashed_trimmed);
   ("concertMeta", collapsed_unquoted);
   ("mainArtist", just_trimmed);
   ("conductor", extracted);
   ("starArtists", extracted_list);
   ("support", just_trimmed);
   ("pieces", piece_list)].

(** ** What a computation adds to the trace

    [obeys P T F m]: whatever state [m] starts in, it only appends events,
    each of them satisfies [P], and if one of them satisfies [T] then [m]
    has left through [sys.exit(-1)] and the appended events satisfy [F]. *)
Definition obeys (P T : event -> Prop) (F : list event -> Prop) {A} (m : M A)
  : Prop :=
  forall s, exists evs,
    trace (m s).2 = trace s ++ evs
    /\ Forall P evs
    /\ (Exists T evs -> (m s).1 = Exit (-1) /\ F evs).

(** The two runs up to the point where the batch is written. *)
Definition seasons_crawl (net : network) (concert_id_list : list pystr)
  : M unit :=
  (set_data [] ;;
   all_seasons <- get_seasons net ;;
   for_each all_seasons
     (fun s => handle_season net concert_id_list s ;;
               sleep MIN_DELAY MAX_DELAY))%run.

Definition films_crawl (net : network) (film_id_list : list pystr) : M unit :=
  (set_data [] ;;
   all_films <- get_films net ;;
   for_each all_films
     (fun tag =>
        film <- extract_film_data tag ;;
        handle_film net film_id_list film ;;
        sleep MIN_DELAY MAX_DELAY))%run.

(** ** Identifiers in a catalog and in a batch *)

(** The concert identifiers a season listing page shows, in page order:
    [concert['id'][8:]] of every [li.archive]. *)
Definition listed_concert_ids (soup : node) : option (list pystr) :=
  mapM (fun concert => drop 8 <$> attr "id" concert)
    (select (Simple (Sel "li" (Class (lit "archive")))) soup).

Definition season_listing (net : network) (s : season)
  : option (list pystr) :=
  match season_page net (season_id s) with
  | Received soup => listed_concert_ids soup
  | _ => None
  end.

(** The film identifier an entry of the film index shows. *)
Definition listed_film_id (tag : node) : option pystr :=
  link ← select_one (Simple (Sel "a" Always)) tag;
  href ← attr "href" link;
  last (split_sep slash href).

Definition listed_film_ids (soup : node) : option (list pystr) :=
  mapM listed_film_id (select (Simple (Sel "li" (Class (lit "item")))) soup).

(** The identifier of a record, and the identifiers of a batch in batch
    order, once per record. *)
Definition id_under (key : string) (v : pyval) : option pystr :=
  match v with
  | VDict d => match dict_get key d with Some (VStr i) => Some i | _ => None end
  | _ => None
  end.

Definition concerts_of (season_dict : pyval) : list pyval :=
  match season_dict with
  | VDict d => match dict_get "concerts" d with Some (VList cs) => cs | _ => [] end
  | _ => []
  end.

Definition batch_concert_ids (batch : list pyval) : list pystr :=
  omap (id_under "concertId") (concat (map concerts_of batch)).

Definition batch_film_ids (batch : list pyval) : list pystr :=
  omap (id_under "film_id") batch.

(** ** Failing stream lookups

    The failure conditions of a stream lookup that the source handles: the
    transport gives up ([ConnectionError], [Timeout], any other
    [RequestException]), the status check finds a status from 400 to 599,
    the body is not JSON, or the envelope says [success: false] and gives a
    message. *)
Inductive lookup_failure : response (json_body urls_dict) -> Prop :=
| fails_connection e : lookup_failure (ConnectionError e)
| fails_timeout : lookup_failure Timeout
| fails_request e : lookup_failure (RequestException e)
| fails_status rep :
    (400 <= status_code rep < 600)%Z -> lookup_failure (raise_for_status rep)
| fails_not_json b : body_json b = None -> lookup_failure (Received b)
| fails_refused b u m :
    body_json b = Some u -> success u = false -> message u = Some m ->
    lookup_failure (Received b).

(** What the provider or the library said went wrong. *)
Definition cause_of (r : response (json_body urls_dict)) : pystr :=
  match r with
  | HTTPError e | ConnectionError e | RequestException e => e
  | Timeout => lit "timed out"
  | Received b =>
      match body_json b with
      | None => body_text b
      | Some u => default [] (message u)
      end
  end.

Definition mentions (part whole : pystr) : Prop :=
  exists before after, whole = before ++ part ++ after.

(** The last things the process did: announce the lookup for [content_id] in
    the log, issue it, and log an error that carries the cause. *)
Definition ends_with_report (net : network) (content_id : pystr)
    (evs : list event) : Prop :=
  exists earlier announcement report,
    evs = earlier ++ [Log DEBUG announcement; Fetch (ReqStreams content_id);
                      Log ERROR report]
    /\ mentions content_id announcement
    /\ mentions (cause_of (stream_urls net content_id)) report.

(** ** Records of the sample provider *)

Definition sample_streams : dict pystr pystr := [(lit "42", lit "https://x/a")].

Definition sample_concert : dict string pyval :=
  default [] (returned (extract_metadata sample_net (lit "51")
                          sample_concert_page start)).

Definition piece_record (piece : node) : dict string pyval :=
  default [] (returned (extract_piece sample_streams piece start)).

Definition sample_film : dict string pyval :=
  [("film_id", VStr (lit "7")); ("title", VStr (lit "A Film"))].

(** The events a crawl is checked against when a lookup fails: nothing is
    written, and the lookup for [content_id] is the one watched for. *)
Definition not_dump (e : event) : Prop :=
  forall out_name batch, e <> Dump out_name batch.
Definition is_lookup (content_id : pystr) (e : event) : Prop :=
  e = Fetch (ReqStreams content_id).

(** A computation that leaves [self.__data] alone. *)
Definition quiet {A} (m : M A) : Prop := forall s, data (m s).2 = data s.

(** ** Fetches that fail, and what a run does about them

    A fetch fails when the try block raises and, for the two JSON endpoints,
    also when the body is not JSON or the envelope refuses with a message. *)
Definition no_response {A} (r : response A) : Prop :=
  match r with Received _ => False | _ => True end.

Definition request_failed (net : network) (r : request) : Prop :=
  match r with
  | ReqSeasons =>
      match seasons_endpoint net with
      | Received b => body_json b = None
      | _ => True
      end
  | ReqSeason i => no_response (season_page net i)
  | ReqConcert i => no_response (concert_page net i)
  | ReqFilms => no_response (films_page net)
  | ReqFilm i => no_response (film_page net i)
  | ReqStreams i =>
      match stream_urls net i with
      | Received b =>
          match body_json b with
          | None => True
          | Some u => success u = false /\ is_Some (message u)
          end
      | _ => True
      end
  end.

Definition is_error (e : event) : Prop := exists msg, e = Log ERROR msg.

(** The events after which a run may not go on. *)
Definition fatal (net : network) (e : event) : Prop :=
  is_error e \/ exists r, e = Fetch r /\ request_failed net r.

Definition ends_in_error (evs : list event) : Prop :=
  exists earlier msg, evs = earlier ++ [Log ERROR msg].

(** [fail_fast net m]: [m] writes nothing; a fatal event makes it leave
    through [sys.exit(-1)] with an error line as the last thing it did; and
    it does not leave through [sys.exit] without a fatal event. *)
Definition fail_fast (net : network) {A} (m : M A) : Prop :=
  forall s, exists evs,
    trace (m s).2 = trace s ++ evs
    /\ Forall not_dump evs
    /\ (Exists (fatal net) evs -> (m s).1 = Exit (-1) /\ ends_in_error evs)
    /\ (forall c, (m s).1 = Exit c -> Exists (fatal net) evs).

(** [dies m]: [m] always leaves through [sys.exit(-1)], an error line
    last, nothing written. *)
Definition dies {A} (m : M A) : Prop :=
  forall s, exists evs,
    trace (m s).2 = trace s ++ evs
    /\ Forall not_dump evs
    /\ (m s).1 = Exit (-1)
    /\ ends_in_error evs.

Definition is_dump (e : event) : bool :=
  match e with Dump _ _ => true | _ => false end.

(** ** What a run does besides logging *)

Definition is_log (e : event) : bool :=
  match e with Log _ _ => true | _ => false end.

(** The requests, pauses and writes of a trace, in order. *)
Definition footprint (evs : list event) : list event :=
  filter (fun e => is_log e = false) evs.

(** [leaves_footprint m fp]: when [m] returns, what it did besides logging
    is [fp]. *)
Definition leaves_footprint {A} (m : M A) (fp : list event) : Prop :=
  forall s a s', m s = (Ret a, s') ->
    exists evs, trace s' = trace s ++ evs /\ footprint evs = fp.

Definition only_logs {A} (m : M A) : Prop :=
  obeys (fun e => is_log e = true) (fun _ => False) (fun _ => True) m.

(** What one listed concert costs: its page and its stream lookup unless it
    is in the seen-set, and the pause in either case. *)
Definition concert_steps (concert_id_list : list pystr) (concert_id : pystr)
  : list event :=
  (if bool_decide (concert_id ∉ concert_id_list)
   then [Fetch (ReqConcert concert_id); Fetch (ReqStreams concert_id)]
   else [])
  ++ [Sleep MIN_DELAY MAX_DELAY].

(** What one season costs: its listing, its concerts, and one more pause. *)
Definition season_steps (concert_id_list : list pystr) (s : season)
    (listing : list pystr) : list event :=
  Fetch (ReqSeason (season_id s))
  :: concat (map (concert_steps concert_id_list) listing)
  ++ [Sleep MIN_DELAY MAX_DELAY].

Definition film_steps (film_id_list : list pystr) (film_id : pystr)
  : list event :=
  (if bool_decide (film_id ∉ film_id_list)
   then [Fetch (ReqFilm film_id); Fetch (ReqStreams film_id)]
   else [])
  ++ [Sleep MIN_DELAY MAX_DELAY].

(** ** Records of a batch *)

(** The record [__handle_season] appends for a season of the index: the
    three keys in the order line 325 writes them, and under [concerts] one
    record for every concert of the season's listing that is not in the
    seen-set, in listing order. *)
Definition season_record (net : network) (concert_id_list : list pystr)
    (s : season) (v : pyval) : Prop :=
  exists ids concerts,
    season_listing net s = Some ids
    /\ v = VDict [("seasonId", VStr (season_id s));
                  ("season", VStr (replace [ndash] [hyphen] (season_label s)));
                  ("concerts", VList concerts)]
    /\ Forall2 (fun i c => exists d, c = VDict d
                  /\ dict_get "concertId" d = Some (VStr i))
         (filter (fun i => i ∉ concert_id_list) ids) concerts.

(** The nodes of a header up to its first [br], which is where the loop of
    lines 192-198 stops. *)
Fixpoint before_break (headers : list node) : list node :=
  match headers with
  | [] => []
  | tag :: rest => if named "br" tag then [] else tag :: before_break rest
  end.

(** What the header loop leaves under [composer]: the text of the last
    [strong] before the first [br]. *)
Definition composer_of (headers : list node) : option pyval :=
  (fun tag => VStr (strip (text tag)))
    <$> last (filter (fun x => named "strong" x = true) (before_break headers)).

(** The identifier and the title [__extract_film_data] reads off an entry of
    the film index: the part of the link's [href] after its last slash, and
    the link's [title] attribute as it stands. *)
Definition listed_film (tag : node) : option (pystr * pystr) :=
  link ← select_one (Simple (Sel "a" Always)) tag;
  href ← attr "href" link;
  film_id ← last (split_sep slash href);
  title ← attr "title" link;
  Some (film_id, title).

(** The record [__handle_film] appends for an entry of the index. *)
Definition film_record (film : pystr * pystr) (v : pyval) : Prop :=
  exists d streamUrl,
    v = VDict d
    /\ dict_get "film_id" d = Some (VStr film.1)
    /\ dict_get "title" d = Some (VStr film.2)
    /\ dict_get "streamUrl" d = Some (VStr streamUrl).

(** ** [__init__]: the seen-sets

    [infile.read().splitlines()] on the text of an identifier file. The
    line boundaries of [str.splitlines] are the line feed, the carriage
    return (with a line feed right after it as one boundary), and the
    vertical tab, form feed, file, group and record separators, next line,
    line separator and paragraph separator. There is no empty last line
    after a final boundary. *)
Definition is_linebreak (c : N) : bool :=
  bool_decide (c ∈ [10; 11; 12; 13; 28; 29; 30; 133; 8232; 8233]%N).

Fixpoint splitlines_from (after_cr : bool) (cur s : pystr) : list pystr :=
  match s with
  | [] => match cur with [] => [] | _ => [cur] end
  | c :: s' =>
      if after_cr && (c =? 10)%N then splitlines_from false cur s'
      else if is_linebreak c
      then cur :: splitlines_from (c =? 13)%N [] s'
      else splitlines_from false (cur ++ [c]) s'
  end.

Definition splitlines (s : pystr) : list pystr := splitlines_from false [] s.

(** Lines 43-53: the list is empty when no path is given, and the lines of
    the file otherwise. *)
Definition id_list (file : option pystr) : list pystr :=
  match file with
  | Some text => splitlines text
  | None => []
  end.

(** An identifier file with one identifier to the line. *)
Definition id_file (ids : list pystr) : pystr :=
  concat (map (fun i => i ++ [10%N]) ids).

Definition one_line (i : pystr) : Prop :=
  Forall (fun c => is_linebreak c = false) i.

(** ** More sample providers and pages *)

(** The sample provider with concert pages that time out. *)
Definition timeout_net : network :=
  Network
    (seasons_endpoint sample_net) (season_page sample_net)
    (fun _ => Timeout) (films_page sample_net) (film_page sample_net)
    (stream_urls sample_net).

(** The sample provider with a stream that has no candidate. *)
Definition hollow_envelope : urls_dict := UrlsDict true None [(lit "42", [])].

Definition hollow_net : network :=
  Network
    (seasons_endpoint sample_net) (season_page sample_net)
    (concert_page sample_net) (films_page sample_net) (film_page sample_net)
    (fun _ => Received (JsonBody [] (Some hollow_envelope))).

(** A piece with two artists, neither marked up as player or role. *)
Definition plain_pair : node :=
  Elem "p" []
    [Elem "span" [] [Text (lit "Some Name")]; Text (lit ", ");
     Elem "span" [] [Text (lit "Other Name")]].

Definition plain_pair_piece : node :=
  Elem "li" []
    [work_marker "45"; Elem "h2" [] [Text (lit "Encore")]; plain_pair].

(** A header with a composer and no line break. *)
Definition unbroken_piece : node :=
  Elem "li" []
    [work_marker "46";
     Elem "h2" [] [Elem "strong" [] [Text (lit "Bach")]; Text (lit " Suite")]].

(** An identifier file: 51, 7 with a blank after it, and an empty line. *)
Definition sample_ids : list pystr := [lit "51"; lit "7 "; []].

(** ** Characters made plain

    [s.replace(u'’', "'")] and [s.replace(u'–', '-')], one code
    point at a time. *)
Definition ascii_quote (c : N) : N := if (rsquo =? c)%N then apostrophe else c.
Definition ascii_dash (c : N) : N := if (ndash =? c)%N then hyphen else c.

(** Lines 138-148: the three fields read with [.text.replace(...).strip()],
    and the selector each is found by. *)
Definition quoted_fields : list (string * selector) :=
  [("concertTitle", Simple (Sel "h1" (AttrIs "itemprop" (lit "name"))));
   ("concertProgramme",
    Simple (Sel "div" (AttrIs "itemprop" (lit "description"))));
   ("concertProgrammeGuide", Simple (Sel "div" (Id (lit "tabs-1"))))].

(** * Properties *)

(** ** Dictionaries *)

Section DictFacts.
Context {K V : Type} `{EqDecision K}.
Implicit Types (d : list (K * V)) (k : K) (v : V).

Lemma dict_get_set_eq k v d : dict_get k (dict_set k v d) = Some v.
Proof.
  induction d as [|[k' v'] d IH]; simpl.
  - by rewrite decide_True.
  - destruct (decide (k = k')) as [->|Hne]; simpl.
    + by rewrite decide_True.
    + by rewrite decide_False.
Qed.

Lemma dict_get_set_ne k k' v d :
  k <> k' -> dict_get k (dict_set k' v d) = dict_get k d.
Proof.
  intros Hne. induction d as [|[k2 v2] d IH]; simpl.
  - by rewrite decide_False.
  - destruct (decide (k' = k2)) as [->|Hne2]; simpl.
    + by rewrite !decide_False.
    + destruct (decide (k = k2)); done.
Qed.

Lemma dict_get_None k d : dict_get k d = None <-> k ∉ dict_keys d.
Proof.
  induction d as [|[k' v'] d IH]; simpl.
  - split; [intros _; apply not_elem_of_nil | done].
  - rewrite not_elem_of_cons. destruct (decide (k = k')); naive_solver.
Qed.

Lemma dict_set_fresh k v d :
  k ∉ dict_keys d -> dict_set k v d = d ++ [(k, v)].
Proof.
  induction d as [|[k' v'] d IH]; simpl; [done|].
  rewrite not_elem_of_cons. intros [Hne Hd].
  rewrite decide_False by done. by rewrite IH.
Qed.

Lemma dict_set_present k v d :
  k ∈ dict_keys d -> dict_keys (dict_set k v d) = dict_keys d.
Proof.
  induction d as [|[k' v'] d IH]; simpl.
  - by intros ?%elem_of_nil.
  - intros Hin. destruct (decide (k = k')) as [->|Hne]; simpl; [done|].
    f_equal. apply IH. apply elem_of_cons in Hin. naive_solver.
Qed.

End DictFacts.

(** ** Running a computation *)

Lemma bind_Ret {A B} (m : M A) (k : A -> M B) s b s' :
  bind m k s = (Ret b, s') ->
  exists a s1, m s = (Ret a, s1) /\ k a s1 = (Ret b, s').
Proof.
  unfold bind. destruct (m s) as [[a|c|e] s1]; [eauto|done|done].
Qed.

Lemma or_raise_Ret {A} e (x : option A) s a s' :
  or_raise e x s = (Ret a, s') -> x = Some a /\ s' = s.
Proof. destruct x; simpl; unfold ret, raise; naive_solver. Qed.

Lemma ret_Ret {A} (a b : A) s s' : ret a s = (Ret b, s') -> a = b /\ s' = s.
Proof. unfold ret. naive_solver. Qed.

(** Take a successful run apart, one [bind] after the other. *)
Ltac run_inv H :=
  repeat match type of H with
    | bind _ _ _ = (Ret _, _) =>
        let a := fresh "a" in
        let s := fresh "s" in
        let H1 := fresh "Hrun" in
        apply bind_Ret in H as (a & s & H1 & H)
    end.

Lemma map_m_Forall {A B} (f : A -> M B) (P : B -> Prop) l :
  (forall x s y s', x ∈ l -> f x s = (Ret y, s') -> P y) ->
  forall s ys s', map_m f l s = (Ret ys, s') -> Forall P ys.
Proof.
  induction l as [|x l IH]; intros Hf s ys s' Hrun; simpl in Hrun.
  - apply ret_Ret in Hrun as [<- _]. constructor.
  - run_inv Hrun. apply ret_Ret in Hrun as [<- _]. constructor.
    + eapply Hf; [left|done].
    + eapply IH; [|done]. intros. eapply Hf; [by right|done].
Qed.

(** ** The season index *)

(** C10. When the season index reports a [count] different from the number of
    [items], [__get_seasons] does not stop: it returns the whole [items] list
    as it came, leaves the collected data alone, and the only thing it adds
    to what a matching count would have done is one WARNING line in the
    log. *)
Theorem get_seasons_count_mismatch net body seasons_dict s :
  seasons_endpoint net = Received body ->
  body_json body = Some seasons_dict ->
  Z.of_nat (length (items seasons_dict)) <> count seasons_dict ->
  exists msg,
    get_seasons net s
    = (Ret (items seasons_dict),
       State (data s)
         (trace s ++ [Log DEBUG (lit "Getting seasons..."); Fetch ReqSeasons;
                      Log WARNING msg])).
Proof.
  intros Hnet Hjson Hne. eexists.
  unfold get_seasons, bind, log, emit, get_or_exit, ret. simpl.
  rewrite Hnet. simpl. rewrite Hjson.
  rewrite bool_decide_eq_true_2 by done. simpl.
  by rewrite <- !app_assoc.
Qed.

(** ** The stream resolver *)

Lemma first_urls_fresh its : forall acc s,
  Forall (fun kv => snd kv <> []) its ->
  NoDup (dict_keys acc ++ dict_keys its) ->
  exists firsts,
    first_urls its acc s = (Ret (acc ++ firsts), s)
    /\ Forall2 (fun kv ku => fst ku = fst kv
                             /\ url <$> head (snd kv) = Some (snd ku))
         its firsts.
Proof.
  induction its as [|[k v] its IH]; intros acc s Hne Hnd; simpl.
  - exists []. by rewrite app_nil_r.
  - apply Forall_cons in Hne as [Hv Hne]. simpl in Hv.
    destruct v as [|d v]; [done|].
    assert (k ∉ dict_keys acc) as Hfresh.
    { simpl in Hnd. apply NoDup_app in Hnd as (_ & Hdisj & _).
      intros Hin. apply (Hdisj k Hin). left. }
    rewrite dict_set_fresh by done.
    destruct (IH (acc ++ [(k, url d)]) s Hne) as (firsts & Hrun & Hall).
    { unfold dict_keys in *. rewrite map_app. simpl in *.
      by rewrite <- app_assoc. }
    exists ((k, url d) :: firsts). split.
    + by rewrite Hrun, <- app_assoc.
    + by constructor.
Qed.

(** C2. On a successful lookup whose [urls] dictionary gives every sub-item a
    non-empty candidate list, [__get_streams] returns a dictionary with the
    same keys in the same order, each sent to the [url] of the candidate at
    index 0 of its list. *)
Theorem get_streams_first_candidate net content_id body urls_dict s :
  stream_urls net content_id = Received body ->
  body_json body = Some urls_dict ->
  success urls_dict = true ->
  NoDup (dict_keys (urls urls_dict)) ->
  Forall (fun kv => snd kv <> []) (urls urls_dict) ->
  exists manifest_dict s',
    get_streams net content_id s = (Ret manifest_dict, s')
    /\ dict_keys manifest_dict = dict_keys (urls urls_dict)
    /\ forall k v, dict_get k (urls urls_dict) = Some v ->
         exists first rest,
           v = first :: rest /\ dict_get k manifest_dict = Some (url first).
Proof.
  intros Hnet Hjson Hok Hnd Hne.
  destruct (first_urls_fresh (urls urls_dict) [] 
              (State (data s)
                 ((trace s ++
                   [Log DEBUG (lit "Getting streams for content with ID "
                               ++ content_id ++ lit "...")])
                  ++ [Fetch (ReqStreams content_id)])) Hne Hnd)
    as (firsts & Hrun & Hall).
  simpl in Hrun. exists firsts. eexists. split; [|split].
  - unfold get_streams, bind, log, emit, get_or_exit, ret. simpl.
    rewrite Hnet. simpl. rewrite Hjson, Hok. simpl. rewrite Hrun. reflexivity.
  - clear Hrun. induction Hall as [|[k v] [k' u] its fs [Hk _] _ IH]; simpl.
    + done.
    + simpl in Hk. subst k'. f_equal. apply IH.
      * by apply NoDup_cons in Hnd as [_ ?].
      * by apply Forall_cons in Hne as [_ ?].
  - clear Hrun. intros k v Hget.
    induction Hall as [|[k1 v1] [k2 u] its fs [Hk Hu] Hall IH];
      simpl in *; [done|]. subst k2.
    destruct (decide (k = k1)) as [->|Hkne].
    + simplify_eq. destruct v as [|first rest]; simplify_eq/=. eauto.
    + apply IH; [| |done].
      * by apply NoDup_cons in Hnd as [_ ?].
      * by apply Forall_cons in Hne as [_ ?].
Qed.

(** ** Computations that leave [self.__data] alone *)

Lemma quiet_ret {A} (a : A) : quiet (ret a).
Proof. done. Qed.

Lemma quiet_bind {A B} (m : M A) (k : A -> M B) :
  quiet m -> (forall a, quiet (k a)) -> quiet (bind m k).
Proof.
  intros Hm Hk s. unfold bind. specialize (Hm s).
  destruct (m s) as [[a|c|e] s1]; simpl in *; [|done|done].
  by rewrite Hk.
Qed.

Lemma quiet_emit e : quiet (emit e).
Proof. done. Qed.

Lemma quiet_log lvl msg : quiet (log lvl msg).
Proof. done. Qed.

Lemma quiet_sleep lo hi : quiet (sleep lo hi).
Proof. done. Qed.

Lemma quiet_sys_exit {A} c : quiet (@sys_exit A c).
Proof. done. Qed.

Lemma quiet_raise {A} e : quiet (@raise A e).
Proof. done. Qed.

Lemma quiet_or_raise {A} e (x : option A) : quiet (or_raise e x).
Proof. by destruct x. Qed.

Create HintDb quiet discriminated.
#[local] Hint Resolve quiet_ret quiet_emit quiet_log quiet_sleep quiet_sys_exit
  quiet_raise quiet_or_raise : quiet.

(** Walk through a definition: every [bind] splits, every [match] and [if]
    is taken both ways. *)
Ltac quiet_walk :=
  repeat first
    [ progress eauto with quiet
    | apply quiet_bind; [|intros]
    | case_match
    | case_bool_decide ].

Lemma quiet_get_or_exit {A} what req (resp : response A) :
  quiet (get_or_exit what req resp).
Proof. unfold get_or_exit. quiet_walk. Qed.
#[local] Hint Resolve quiet_get_or_exit : quiet.

Lemma quiet_get_seasons net : quiet (get_seasons net).
Proof. unfold get_seasons. quiet_walk. Qed.
#[local] Hint Resolve quiet_get_seasons : quiet.

Lemma quiet_first_urls its : forall acc, quiet (first_urls its acc).
Proof. induction its as [|[k v] its IH]; intros acc; simpl; quiet_walk. Qed.
#[local] Hint Resolve quiet_first_urls : quiet.

Lemma quiet_get_streams net content_id : quiet (get_streams net content_id).
Proof. unfold get_streams. quiet_walk. Qed.
#[local] Hint Resolve quiet_get_streams : quiet.

Lemma quiet_set_stream_url kind id streams d :
  quiet (set_stream_url kind id streams d).
Proof. unfold set_stream_url. quiet_walk. Qed.
#[local] Hint Resolve quiet_set_stream_url : quiet.

Lemma quiet_map_m {A B} (f : A -> M B) l :
  (forall x, quiet (f x)) -> quiet (map_m f l).
Proof. intros Hf. induction l; simpl; quiet_walk. Qed.

Lemma quiet_extract_piece streams piece : quiet (extract_piece streams piece).
Proof. unfold extract_piece. quiet_walk. Qed.
#[local] Hint Resolve quiet_extract_piece : quiet.

Lemma quiet_set_concert_meta metaElms d : quiet (set_concert_meta metaElms d).
Proof. unfold set_concert_meta. quiet_walk. Qed.

Lemma quiet_set_conductor mainElms d : quiet (set_conductor mainElms d).
Proof. unfold set_conductor. quiet_walk. Qed.
#[local] Hint Resolve quiet_set_concert_meta quiet_set_conductor : quiet.

Lemma quiet_extract_metadata net concert_id soup :
  quiet (extract_metadata net concert_id soup).
Proof.
  unfold extract_metadata.
  repeat first
    [ progress eauto with quiet
    | apply quiet_map_m; intros
    | apply quiet_bind; [|intros]
    | case_bool_decide
    | match goal with
      | |- quiet (match ?x with _ => _ end) => destruct x
      end ].
Qed.
#[local] Hint Resolve quiet_extract_metadata : quiet.

Lemma quiet_handle_concert net cl concert_id :
  quiet (handle_concert net cl concert_id).
Proof. unfold handle_concert. quiet_walk. Qed.
#[local] Hint Resolve quiet_handle_concert : quiet.

Lemma quiet_season_concerts net cl entries :
  forall acc, quiet (season_concerts net cl entries acc).
Proof.
  induction entries as [|e entries IH]; intros acc; simpl; [quiet_walk|].
  apply quiet_bind; [quiet_walk|intros].
  apply quiet_bind; [quiet_walk|intros].
  apply quiet_bind; [quiet_walk|intros]. apply IH.
Qed.
#[local] Hint Resolve quiet_season_concerts : quiet.

Lemma quiet_extract_film_data tag : quiet (extract_film_data tag).
Proof. unfold extract_film_data. quiet_walk. Qed.
#[local] Hint Resolve quiet_extract_film_data : quiet.

Lemma quiet_Ret {A} (m : M A) s a s' :
  quiet m -> m s = (Ret a, s') -> data s' = data s.
Proof. intros Hq Hrun. specialize (Hq s). by rewrite Hrun in Hq. Qed.

(** ** Pieces *)

Lemma set_stream_url_Ret kind id streams d s d' s' :
  set_stream_url kind id streams d s = (Ret d', s') ->
  d' = dict_set "streamUrl" (VStr (resolved id streams)) d.
Proof.
  unfold set_stream_url, resolved. destruct (dict_get id streams).
  - by intros [<- _]%ret_Ret.
  - intros Hrun. run_inv Hrun. by apply ret_Ret in Hrun as [<- _].
Qed.

Lemma scan_headers_other k headers : forall d,
  k <> "composer" -> k <> "description" ->
  dict_get k (scan_headers headers d) = dict_get k d.
Proof.
  induction headers as [|tag rest IH]; intros d Hc Hd; simpl; [done|].
  destruct (named "strong" tag).
  - by rewrite IH, dict_get_set_ne.
  - destruct (named "br" tag); [by rewrite dict_get_set_ne | by apply IH].
Qed.

Lemma set_header_other k headers d :
  k <> "composer" -> k <> "description" ->
  dict_get k (set_header headers d) = dict_get k d.
Proof.
  intros Hc Hd. unfold set_header.
  destruct (_ && _); [rewrite dict_get_set_ne by done|];
    by apply scan_headers_other.
Qed.

Lemma set_artists_other k artists d :
  k <> "artists" -> dict_get k (set_artists artists d) = dict_get k d.
Proof.
  intros Hk. unfold set_artists.
  destruct (negb _); [|done].
  destruct (map _ _); [done|]. by rewrite dict_get_set_ne.
Qed.

(** What a piece that came out of the loop body went through. *)
Lemma extract_piece_Ret streams piece s pieceDict s' :
  extract_piece streams piece s = (Ret pieceDict, s') ->
  exists work concert_piece_id h2,
    select_one (Simple (Sel "div" (Class (lit "jsConcertWork")))) piece
    = Some work
    /\ attr "id" work = Some concert_piece_id
    /\ find "h2" piece = Some h2
    /\ let headed :=
         set_header (contents_of h2)
           (dict_set "streamUrl" (VStr (resolved concert_piece_id streams))
              [("pieceId", VStr concert_piece_id)]) in
       pieceDict = match find "p" piece with
                   | None => headed
                   | Some artists => set_artists artists headed
                   end.
Proof.
  unfold extract_piece. intros Hrun. run_inv Hrun.
  apply or_raise_Ret in Hrun0 as [Hwork ->].
  apply or_raise_Ret in Hrun1 as [Hid ->].
  apply set_stream_url_Ret in Hrun2 as ->.
  apply or_raise_Ret in Hrun3 as [Hh2 ->].
  exists a, a0, a2. repeat split; try done.
  destruct (find "p" piece); by apply ret_Ret in Hrun as [<- _].
Qed.

Lemma extract_piece_stream_url streams piece s pieceDict s' :
  extract_piece streams piece s = (Ret pieceDict, s') ->
  exists id,
    dict_get "pieceId" pieceDict = Some (VStr id)
    /\ dict_get "streamUrl" pieceDict = Some (VStr (resolved id streams)).
Proof.
  intros (work & id & h2 & _ & _ & _ & ->)%extract_piece_Ret.
  exists id. destruct (find "p" piece);
    rewrite ?set_artists_other, !set_header_other by done; done.
Qed.

Lemma set_if_found_other k key tag f d :
  k <> key -> dict_get k (set_if_found key tag f d) = dict_get k d.
Proof. intros Hk. destruct tag; simpl; [by rewrite dict_get_set_ne|done]. Qed.

Lemma set_actors_other k actorsTag d :
  k <> "actors" -> dict_get k (set_actors actorsTag d) = dict_get k d.
Proof.
  intros Hk. destruct actorsTag; simpl; [done|]. by rewrite dict_get_set_ne.
Qed.

(** C1. Every piece [__extract_metadata] puts under [pieces], and every film
    record [__handle_film] appends to the batch, carries a [streamUrl] key
    whose value is a string: the entry of the stream map [__get_streams]
    returned for the concert (the film) under the piece's (film's)
    identifier, or ["not-found"] when that map has no such entry. *)
Theorem stream_url_always_present net :
  (forall concert_id soup s metaDict s',
      extract_metadata net concert_id soup s = (Ret metaDict, s') ->
      exists streams s1 s2 pieces,
        get_streams net concert_id s1 = (Ret streams, s2)
        /\ dict_get "pieces" metaDict = Some (VList (map VDict pieces))
        /\ Forall (fun pieceDict =>
                     exists id,
                       dict_get "pieceId" pieceDict = Some (VStr id)
                       /\ dict_get "streamUrl" pieceDict
                          = Some (VStr (resolved id streams))) pieces)
  /\ (forall film_id_list film_dict film_id s s',
      dict_get "film_id" film_dict = Some (VStr film_id) ->
      film_id ∉ film_id_list ->
      handle_film net film_id_list film_dict s = (Ret tt, s') ->
      exists streams s1 s2 film,
        get_streams net film_id s1 = (Ret streams, s2)
        /\ data s' = data s ++ [VDict film]
        /\ dict_get "streamUrl" film = Some (VStr (resolved film_id streams))).
Proof.
  split.
  - intros concert_id soup s metaDict s' Hrun.
    unfold extract_metadata in Hrun. run_inv Hrun.
    apply ret_Ret in Hrun as [<- _].
    eexists _, _, _, _. split; [eassumption|]. split.
    + apply dict_get_set_eq.
    + eapply map_m_Forall; [|done].
      intros x sx y sy _ Hx. by eapply extract_piece_stream_url.
  - intros fl film_dict film_id s s' Hid Hnew Hrun.
    unfold handle_film in Hrun. rewrite Hid in Hrun.
    apply bind_Ret in Hrun as (i & s0 & [<- ->]%ret_Ret & Hrun).
    rewrite bool_decide_eq_true_2 in Hrun by done. run_inv Hrun.
    pose proof (quiet_Ret _ _ _ _ (quiet_log _ _) Hrun0) as D0.
    pose proof (quiet_Ret _ _ _ _ (quiet_get_or_exit _ _ _) Hrun1) as D1.
    pose proof (quiet_Ret _ _ _ _ (quiet_get_streams _ _) Hrun2) as D2.
    pose proof (quiet_Ret _ _ _ _ (quiet_set_stream_url _ _ _ _) Hrun3) as D3.
    apply set_stream_url_Ret in Hrun3 as ->.
    unfold get_data in Hrun4. simplify_eq. unfold set_data in Hrun.
    simplify_eq. simpl. eexists _, _, _, _. split; [eassumption|]. split.
    + rewrite D3, D2, D1, D0. reflexivity.
    + rewrite !set_if_found_other, set_actors_other, set_if_found_other
        by done.
      apply dict_get_set_eq.
Qed.

(** ** Artists *)

Lemma pystr_eqb_refl a : pystr_eqb a a = true.
Proof. by apply bool_decide_eq_true_2. Qed.

Lemma make_dict_plain group :
  Forall (fun x => named "strong" x = false /\ named "em" x = false) group ->
  make_dict group = Artist KEINE_ROLLE KEINER.
Proof.
  unfold make_dict. generalize (Artist KEINE_ROLLE KEINER).
  induction group as [|x group IH]; intros ret Hall; simpl; [done|].
  apply Forall_cons in Hall as [[-> ->] Hall]. by apply IH.
Qed.

Lemma headed_no_artists headers d :
  dict_get "artists" d = None ->
  dict_get "artists" (set_header headers d) = None.
Proof. intros Hd. by rewrite set_header_other. Qed.

(** C4. When the artist fragment of a piece is a single group (one run of
    nodes between bare commas) holding neither a [strong] nor an [em] node,
    the piece dictionary has no [artists] key. *)
Theorem bare_name_no_artists streams piece s pieceDict s' artists group :
  extract_piece streams piece s = (Ret pieceDict, s') ->
  find "p" piece = Some artists ->
  artist_groups (contents_of artists) = [(true, group)] ->
  Forall (fun x => named "strong" x = false /\ named "em" x = false) group ->
  dict_get "artists" pieceDict = None.
Proof.
  intros (work & id & h2 & _ & _ & _ & ->)%extract_piece_Ret Hp Hgroups Hplain.
  rewrite Hp. unfold set_artists, artist_list.
  fold (artist_groups (contents_of artists)). rewrite Hgroups. simpl.
  rewrite make_dict_plain by done. simpl. by apply headed_no_artists.
Qed.

Lemma first_seen_NoDup l : NoDup (first_seen l).
Proof.
  induction l as [|x l IH]; simpl; constructor.
  - rewrite list_elem_of_filter. naive_solver.
  - by apply NoDup_filter.
Qed.

Lemma add_artist_keys temp d :
  dict_keys (add_artist temp d)
  = dict_keys temp ++ (if decide (role d ∈ dict_keys temp) then [] else [role d]).
Proof.
  unfold add_artist. destruct (decide (role d ∈ dict_keys temp)) as [Hin|Hout].
  - rewrite app_nil_r. destruct (dict_get (role d) temp) eqn:Hget.
    + by apply dict_set_present.
    + by apply dict_get_None in Hget.
  - pose proof Hout as Hget. apply dict_get_None in Hget. rewrite Hget.
    rewrite dict_set_fresh by done. unfold dict_keys. by rewrite map_app.
Qed.

Lemma fold_roles_keys al : forall temp,
  dict_keys (fold_left add_artist al temp)
  = dict_keys temp
    ++ filter (fun r => r ∉ dict_keys temp) (first_seen (map role al)).
Proof.
  induction al as [|d al IH]; intros temp; simpl.
  - by rewrite app_nil_r.
  - rewrite IH, add_artist_keys.
    destruct (decide (role d ∈ dict_keys temp)) as [Hin|Hout].
    + rewrite app_nil_r. f_equal. rewrite filter_cons_False by naive_solver.
      rewrite list_filter_filter. apply list_filter_iff. intros r.
      split; [|naive_solver]. intros Hr. split; [done|]. by intros ->.
    + rewrite <- app_assoc. f_equal. simpl.
      rewrite filter_cons_True by done. f_equal.
      rewrite list_filter_filter. apply list_filter_iff. intros r.
      rewrite not_elem_of_app, list_elem_of_singleton. naive_solver.
Qed.

Lemma fold_roles_names r al : forall temp,
  dict_get r (fold_left add_artist al temp)
  = let players := map player (filter (fun d => role d = r) al) in
    match dict_get r temp with
    | Some names => Some (names ++ players)
    | None => match players with [] => None | _ => Some players end
    end.
Proof.
  induction al as [|d al IH]; intros temp; simpl.
  - destruct (dict_get r temp); by rewrite ?app_nil_r.
  - rewrite IH. unfold add_artist. destruct (decide (role d = r)) as [<-|Hne].
    + rewrite filter_cons_True by done. simpl.
      destruct (dict_get (role d) temp) eqn:Hget;
        rewrite dict_get_set_eq; by rewrite <- ?app_assoc.
    + rewrite filter_cons_False by done.
      destruct (dict_get (role d) temp);
        by rewrite dict_get_set_ne by done.
Qed.

Lemma filter_all {A} (P : A -> Prop) `{forall x, Decision (P x)} (l : list A) :
  Forall P l -> filter P l = l.
Proof.
  induction 1 as [|x l Hx _ IH]; [done|].
  by rewrite filter_cons_True, IH.
Qed.

Lemma extract_piece_artists streams piece s pieceDict s' artists :
  extract_piece streams piece s = (Ret pieceDict, s') ->
  find "p" piece = Some artists ->
  let artistList := artist_list (contents_of artists) in
  dict_get "artists" pieceDict
  = if lone_sentinel artistList || bool_decide (artistList = [])
    then None
    else Some (VList (map artist_group (fold_roles artistList))).
Proof.
  intros (work & id & h2 & _ & _ & _ & ->)%extract_piece_Ret Hp. simpl.
  rewrite Hp. unfold set_artists.
  destruct (lone_sentinel _) eqn:Hlone; simpl.
  { by apply headed_no_artists. }
  destruct (artist_list _) as [|d al] eqn:Hal; simpl.
  { by apply headed_no_artists. }
  unfold fold_roles.
  destruct (fold_left add_artist (d :: al) []) as [|kv temp] eqn:Htemp.
  - exfalso. assert (role d ∈ dict_keys (fold_left add_artist (d :: al) []))
      as Hin; [|rewrite Htemp in Hin; by apply elem_of_nil in Hin].
    rewrite fold_roles_keys. simpl. rewrite filter_cons_True by apply not_elem_of_nil.
    left.
  - simpl. apply dict_get_set_eq.
Qed.

(** C5. The artist groups of a piece are folded by role: the [artists] list,
    when the piece has one, is [temp] turned into [{role, names}] entries;
    the roles of [temp] are pairwise distinct and stand in the order in which
    they were first met; under each role stand the players of all groups
    with that role, in group order. Two groups with the same role give one
    entry whose [names] has both players. *)
Theorem artists_folded_by_role streams piece s pieceDict s' artists :
  extract_piece streams piece s = (Ret pieceDict, s') ->
  find "p" piece = Some artists ->
  let artistList := artist_list (contents_of artists) in
  let temp := fold_roles artistList in
  dict_get "artists" pieceDict
  = (if lone_sentinel artistList || bool_decide (artistList = [])
     then None
     else Some (VList (map artist_group temp)))
  /\ NoDup (dict_keys temp)
  /\ dict_keys temp = first_seen (map role artistList)
  /\ (forall r, r ∈ map role artistList ->
        dict_get r temp
        = Some (map player (filter (fun d => role d = r) artistList)))
  /\ (forall d1 d2, artistList = [d1; d2] -> role d1 = role d2 ->
        dict_get "artists" pieceDict
        = Some (VList [VDict [("role", VStr (role d1));
                              ("names", VList [VStr (player d1);
                                               VStr (player d2)])]])).
Proof.
  intros Hrun Hp artistList temp.
  assert (dict_keys temp = first_seen (map role artistList)) as Hkeys.
  { unfold temp, fold_roles. rewrite fold_roles_keys. simpl.
    apply filter_all, Forall_forall. intros r _. apply not_elem_of_nil. }
  split; [by eapply extract_piece_artists|].
  split; [rewrite Hkeys; apply first_seen_NoDup|].
  split; [done|]. split.
  - intros r Hr. unfold temp, fold_roles. rewrite fold_roles_names. simpl.
    apply list_elem_of_fmap in Hr as (d & -> & Hd).
    destruct (filter _ _) as [|d' l] eqn:Hf; [|done].
    assert (d ∈ filter (fun d0 => role d0 = role d) artistList) as Hin
      by (by apply list_elem_of_filter).
    rewrite Hf in Hin. by apply elem_of_nil in Hin.
  - intros d1 d2 Hal Hsame.
    erewrite extract_piece_artists by done. fold artistList. rewrite Hal.
    simpl. unfold fold_roles, add_artist. simpl. rewrite Hsame.
    rewrite decide_True by done. simpl. by rewrite decide_True.
Qed.

(** ** Piece headers *)

Lemma scan_headers_plain headers d :
  Forall (fun x => named "strong" x = false /\ named "br" x = false) headers ->
  scan_headers headers d = d.
Proof.
  induction 1 as [|x headers [Hs Hb] _ IH]; simpl; [done|].
  by rewrite Hs, Hb.
Qed.

Lemma named_true nm x :
  named nm x = true -> exists attrs cs, x = Elem nm attrs cs.
Proof.
  destruct x as [|nm' attrs cs]; [done|]. unfold named.
  intros ->%String.eqb_eq. eauto.
Qed.

Lemma scan_headers_break before : forall d br after,
  Forall (fun x => named "br" x = false) before ->
  named "br" br = true ->
  dict_get "description" (scan_headers (before ++ br :: after) d)
  = Some (VStr (strip (join [] (map extract_text after)))).
Proof.
  induction before as [|x before IH]; intros d br after Hbefore Hbr; simpl.
  - apply named_true in Hbr as (attrs & cs & ->). simpl.
    apply dict_get_set_eq.
  - apply Forall_cons in Hbefore as [Hx Hbefore]. rewrite Hx.
    destruct (named "strong" x); by apply IH.
Qed.

(** C6, as the code has it. The description of a piece is made of the texts
    of the header's child nodes, each with its whitespace runs collapsed and
    its ends trimmed, put together without a separator and trimmed once
    more: of all child nodes when the header has neither a [strong] nor a
    [br] child (and then no [composer] is set), of the nodes after the first
    [br] when there is one. *)
Theorem header_description streams piece s pieceDict s' h2 :
  extract_piece streams piece s = (Ret pieceDict, s') ->
  find "h2" piece = Some h2 ->
  let headers := contents_of h2 in
  (Forall (fun x => named "strong" x = false /\ named "br" x = false) headers ->
   dict_get "composer" pieceDict = None
   /\ dict_get "description" pieceDict
      = Some (VStr (strip (join [] (map extract_text headers)))))
  /\ (forall before br after,
        headers = before ++ br :: after ->
        Forall (fun x => named "br" x = false) before ->
        named "br" br = true ->
        dict_get "description" pieceDict
        = Some (VStr (strip (join [] (map extract_text after))))).
Proof.
  intros (work & id & h2' & _ & _ & Hh2 & ->)%extract_piece_Ret Hfind headers.
  rewrite Hfind in Hh2. injection Hh2 as <-. fold headers.
  assert (forall k d, k <> "artists" ->
            dict_get k (match find "p" piece with
                        | Some artists => set_artists artists d
                        | None => d
                        end) = dict_get k d) as Hart.
  { intros k d Hk. destruct (find "p" piece); [by apply set_artists_other|done]. }
  split.
  - intros Hplain. rewrite !Hart by done. unfold set_header.
    rewrite scan_headers_plain by done. simpl. done.
  - intros before br after Heq Hbefore Hbr. rewrite Hart by done.
    unfold set_header. rewrite Heq.
    unfold dict_has at 2. erewrite scan_headers_break by done.
    rewrite andb_false_r. by apply scan_headers_break.
Qed.

(** C6, as the spec states it, fails on [atypical_piece]: the header has
    neither [strong] nor [br], its text is ["Hello World"], and the
    description comes out as ["HelloWorld"]. *)
Lemma header_text_not_verbatim :
  find "h2" atypical_piece = Some atypical_h2
  /\ Forall (fun x => named "strong" x = false /\ named "br" x = false)
       (contents_of atypical_h2)
  /\ text atypical_h2 = lit "Hello World"
  /\ extract_text atypical_h2 = lit "Hello World"
  /\ (extract_piece [] atypical_piece start).1
     = Ret [("pieceId", VStr (lit "43")); ("streamUrl", VStr not_found);
            ("description", VStr (lit "HelloWorld"))]
  /\ ~ (forall pieceDict s',
          extract_piece [] atypical_piece start = (Ret pieceDict, s') ->
          dict_get "description" pieceDict = Some (VStr (text atypical_h2))).
Proof.
  split; [reflexivity|]. split; [repeat constructor|].
  split; [reflexivity|]. split; [reflexivity|]. split; [reflexivity|].
  intros Hclaim.
  specialize (Hclaim _ _ eq_refl). vm_compute in Hclaim. discriminate.
Qed.

(** ** Text *)

Lemma split_from_word w : forall cur rest,
  Forall (fun c => is_space c = false) w ->
  split_from cur (w ++ rest) = split_from (cur ++ w) rest.
Proof.
  induction w as [|c w IH]; intros cur rest Hw; simpl.
  - by rewrite app_nil_r.
  - apply Forall_cons in Hw as [-> Hw]. rewrite IH by done.
    by rewrite <- app_assoc.
Qed.

Lemma split_from_space cur rest :
  cur <> [] -> split_from cur (space :: rest) = cur :: split_from [] rest.
Proof. by destruct cur. Qed.

Lemma split_join ws : Forall word ws -> split (join [space] ws) = ws.
Proof.
  unfold split. induction 1 as [|w ws [Hne Hw] Hws IH]; [done|].
  destruct ws as [|w' ws].
  - simpl. rewrite <- (app_nil_r w) at 1. rewrite split_from_word by done.
    simpl. by destruct w.
  - change (join [space] (w :: w' :: ws))
      with (w ++ space :: join [space] (w' :: ws)).
    rewrite split_from_word by done. rewrite app_nil_l.
    rewrite split_from_space by done. by rewrite IH.
Qed.

Lemma split_from_words s : forall cur,
  Forall (fun c => is_space c = false) cur ->
  Forall word (split_from cur s).
Proof.
  induction s as [|c s IH]; intros cur Hcur; simpl.
  - destruct cur; [constructor|]. constructor; [by split|constructor].
  - destruct (is_space c) eqn:Hc.
    + destruct cur; [by apply IH|].
      constructor; [by split|]. by apply IH.
    + apply IH, Forall_app. by repeat constructor.
Qed.

Lemma split_words s : Forall word (split s).
Proof. by apply split_from_words. Qed.

Lemma extract_text_collapsed n : collapsed (extract_text n).
Proof.
  unfold collapsed, extract_text. by rewrite split_join by apply split_words.
Qed.

Lemma lstrip_suffix s : exists pre, s = pre ++ lstrip s.
Proof.
  induction s as [|c s [pre IH]]; simpl; [by exists []|].
  destruct (is_space c); [|by exists []].
  exists (c :: pre). simpl. by f_equal.
Qed.

Lemma lstrip_fixed s :
  lstrip s = s <-> match s with [] => True | c :: _ => is_space c = false end.
Proof.
  destruct s as [|c s]; simpl; [done|].
  destruct (is_space c) eqn:Hc; [|done]. split; [|done].
  intros Heq. destruct (lstrip_suffix s) as [pre Hpre].
  apply (f_equal length) in Heq. apply (f_equal length) in Hpre.
  rewrite length_app in Hpre. simpl in Heq. lia.
Qed.

Lemma lstrip_idemp s : lstrip (lstrip s) = lstrip s.
Proof.
  induction s as [|c s IH]; simpl; [done|].
  destruct (is_space c) eqn:Hc; [done|]. simpl. by rewrite Hc.
Qed.

Lemma strip_trimmed s : trimmed (strip s).
Proof.
  unfold trimmed, strip, rstrip.
  destruct (lstrip_suffix (rev (lstrip s))) as [pre Hpre].
  set (u := lstrip (rev (lstrip s))) in *.
  assert (lstrip (rev u) = rev u) as Hl.
  { apply lstrip_fixed. destruct (rev u) as [|c r] eqn:Hr; [done|].
    apply (f_equal (@rev N)) in Hpre. rewrite rev_involutive, rev_app_distr in Hpre.
    rewrite Hr in Hpre. simpl in Hpre.
    pose proof (lstrip_idemp s) as Hid. rewrite Hpre in Hid.
    by apply lstrip_fixed in Hid. }
  rewrite Hl, rev_involutive. unfold u. by rewrite lstrip_idemp.
Qed.

Lemma lstrip_subset s x : x ∈ lstrip s -> x ∈ s.
Proof.
  destruct (lstrip_suffix s) as [pre Hpre]. rewrite Hpre at 2.
  intros ?. apply elem_of_app. by right.
Qed.

Lemma elem_of_rev {A} (x : A) l : x ∈ rev l <-> x ∈ l.
Proof. rewrite !list_elem_of_In. symmetry. apply in_rev. Qed.

Lemma strip_subset s x : x ∈ strip s -> x ∈ s.
Proof.
  unfold strip, rstrip. rewrite elem_of_rev.
  intros Hx%lstrip_subset. apply lstrip_subset. by apply elem_of_rev.
Qed.

Lemma replace_char a b s :
  replace [a] [b] s = map (fun c => if (a =? c)%N then b else c) s.
Proof.
  unfold replace. induction s as [|c s IH]; simpl; [done|].
  rewrite andb_true_r. destruct (a =? c)%N; simpl; by rewrite IH.
Qed.

Lemma replace_char_gone a b s : a <> b -> a ∉ replace [a] [b] s.
Proof.
  intros Hab. rewrite replace_char. intros (c & Hc & _)%list_elem_of_fmap.
  destruct (N.eqb_spec a c); congruence.
Qed.

Lemma split_from_map (f : N -> N) s : forall cur,
  (forall c, is_space (f c) = is_space c) ->
  split_from (map f cur) (map f s) = map (map f) (split_from cur s).
Proof.
  induction s as [|c s IH]; intros cur Hf; simpl.
  - by destruct cur.
  - rewrite Hf. destruct (is_space c).
    + destruct cur; simpl; [by apply (IH [])|]. f_equal. by apply (IH []).
    + rewrite <- IH by done. by rewrite map_app.
Qed.

Lemma join_map (f : N -> N) sep ws :
  join (map f sep) (map (map f) ws) = map f (join sep ws).
Proof.
  induction ws as [|w ws IH]; [done|].
  destruct ws as [|w' ws]; [done|].
  change (join sep (w :: w' :: ws)) with (w ++ sep ++ join sep (w' :: ws)).
  rewrite !map_app, <- IH. done.
Qed.

Lemma collapsed_map (f : N -> N) s :
  (forall c, is_space (f c) = is_space c) -> f space = space ->
  collapsed s -> collapsed (map f s).
Proof.
  intros Hf Hsp Hs. unfold collapsed, split in *.
  change (split_from [] (map f s)) with (split_from (map f []) (map f s)).
  rewrite split_from_map by done.
  assert ([space] = map f [space]) as -> by (simpl; by rewrite Hsp).
  by rewrite join_map, Hs.
Qed.

Lemma unquote_space c :
  is_space (if (rsquo =? c)%N then apostrophe else c) = is_space c.
Proof. destruct (N.eqb_spec rsquo c) as [<-|]; done. Qed.

Lemma unquote_collapsed s : collapsed s -> collapsed (unquote s).
Proof.
  intros Hs. unfold unquote. rewrite replace_char.
  apply collapsed_map; [apply unquote_space|done|done].
Qed.

Lemma unquote_gone s : rsquo ∉ unquote s.
Proof. by apply replace_char_gone. Qed.

Lemma dict_get_set {V} (k k' : string) (v : V) d :
  dict_get k (dict_set k' v d)
  = if decide (k = k') then Some v else dict_get k d.
Proof.
  case_decide as Hk; [subst; apply dict_get_set_eq | by apply dict_get_set_ne].
Qed.


(** ** Concert records *)

Lemma may_set_other k key shape d d' :
  may_set key shape d d' -> k <> key -> dict_get k d' = dict_get k d.
Proof.
  intros [->|(v & _ & ->)] Hk; [done|]. by apply dict_get_set_ne.
Qed.

Lemma may_set_own key shape d d' v :
  may_set key shape d d' -> dict_get key d = None ->
  dict_get key d' = Some v -> shape v.
Proof.
  intros [->|(w & Hw & ->)] Hnone Hget; [congruence|].
  rewrite dict_get_set_eq in Hget. by injection Hget as <-.
Qed.

Lemma built_by_other k steps : forall d d',
  built_by steps d d' -> k ∉ map fst steps -> dict_get k d' = dict_get k d.
Proof.
  induction steps as [|[key shape] steps IH]; intros d d'; simpl.
  - by intros ->.
  - intros (d1 & Hstep & Hrest) [Hk Hnot]%not_elem_of_cons.
    rewrite (IH _ _ Hrest Hnot). by eapply may_set_other.
Qed.

Lemma built_by_own key shape steps : forall d d' v,
  built_by steps d d' -> NoDup (map fst steps) -> (key, shape) ∈ steps ->
  dict_get key d = None -> dict_get key d' = Some v -> shape v.
Proof.
  induction steps as [|[key' shape'] steps IH]; intros d d' v; simpl.
  - by intros _ _ ?%elem_of_nil.
  - intros (d1 & Hstep & Hrest) [Hfresh Hnd]%NoDup_cons Hin Hnone Hget.
    apply elem_of_cons in Hin as [[= <- <-]|Hin].
    + rewrite (built_by_other _ _ _ _ Hrest Hfresh) in Hget.
      by eapply may_set_own.
    + eapply (IH d1); try done.
      rewrite (may_set_other _ _ _ _ _ Hstep); [done|].
      intros ->. apply Hfresh. apply list_elem_of_fmap. by exists (key', shape).
Qed.

Lemma set_if_found_may_set key tag f shape d :
  (forall t, shape (f t)) -> may_set key shape d (set_if_found key tag f d).
Proof. intros Hf. destruct tag; simpl; [right; eauto|by left]. Qed.

Lemma set_concert_meta_Ret metaElms d s d' s' :
  set_concert_meta metaElms d s = (Ret d', s') ->
  may_set "concertMeta" collapsed_unquoted d d'.
Proof.
  unfold set_concert_meta. case_bool_decide.
  - destruct (metaElms !! 2%nat) as [[t|]|]; try done.
    intros [<- _]%ret_Ret. right. eexists. split; [by exists t|done].
  - intros [<- _]%ret_Ret. by left.
Qed.

Lemma set_conductor_Ret mainElms d s d' s' :
  set_conductor mainElms d s = (Ret d', s') -> may_set "conductor" extracted d d'.
Proof.
  unfold set_conductor. case_bool_decide.
  - destruct (mainElms !! 2%nat) as [[|nm attrs cs]|]; try done.
    intros [<- _]%ret_Ret. right. eexists. split; [by eexists|done].
  - intros [<- _]%ret_Ret. by left.
Qed.

Lemma set_main_artist_may_set mainElms d :
  may_set "mainArtist" just_trimmed d (set_main_artist mainElms d).
Proof.
  unfold set_main_artist.
  destruct (mainElms !! 0%nat) as [[t|nm attrs cs]|]; [| |by left];
    right; eexists; (split; [by eexists|done]).
Qed.

Lemma set_star_artists_may_set starArtists d :
  may_set "starArtists" extracted_list d (set_star_artists starArtists d).
Proof.
  unfold set_star_artists. destruct starArtists as [|t ts]; [by left|].
  right. eexists. split; [by exists (t :: ts)|done].
Qed.

(** A concert record is [concertId] followed by the optional fields, each
    written at most once and in the order of the source. *)
Lemma extract_metadata_built net concert_id soup s metaDict s' :
  extract_metadata net concert_id soup s = (Ret metaDict, s') ->
  built_by concert_fields [("concertId", VStr concert_id)] metaDict.
Proof.
  intros Hrun. unfold extract_metadata in Hrun. run_inv Hrun.
  apply ret_Ret in Hrun as [<- _].
  apply set_concert_meta_Ret in Hrun5. apply set_conductor_Ret in Hrun7.
  assert (dashed_trimmed (VStr a3)) as Hdate.
  { destruct a2; [|done]. apply ret_Ret in Hrun4 as [<- _]. by eexists. }
  simpl.
  eexists. split; [apply set_if_found_may_set; intros; by eexists|].
  eexists. split; [apply set_if_found_may_set; intros; by eexists|].
  eexists. split; [apply set_if_found_may_set; intros; by eexists|].
  eexists. split; [right; eauto|].
  eexists. split; [done|].
  eexists. split; [apply set_main_artist_may_set|].
  eexists. split; [done|].
  eexists. split; [apply set_star_artists_may_set|].
  eexists. split; [apply set_if_found_may_set; intros; by eexists|].
  eexists. split; [|done]. right. eexists. split; [by eexists|done].
Qed.

Lemma concert_field key shape net concert_id soup s metaDict s' v :
  extract_metadata net concert_id soup s = (Ret metaDict, s') ->
  (key, shape) ∈ concert_fields ->
  dict_get key metaDict = Some v -> shape v.
Proof.
  intros Hrun%extract_metadata_built Hin Hget.
  eapply built_by_own; try done.
  - unfold concert_fields. simpl. repeat (constructor; [set_solver|]).
    constructor.
  - unfold concert_fields in Hin.
    repeat (apply elem_of_cons in Hin as [[= -> _]|Hin]; [done|]).
    by apply elem_of_nil in Hin.
Qed.


(** ** Traces *)

Section Obeys.
Variables (P T : event -> Prop) (F : list event -> Prop).
Hypothesis F_app : forall a b, F b -> F (a ++ b).
Hypothesis P_log : forall lvl msg, P (Log lvl msg).
Hypothesis T_log : forall lvl msg, ~ T (Log lvl msg).
Hypothesis P_sleep : forall lo hi, P (Sleep lo hi).
Hypothesis T_sleep : forall lo hi, ~ T (Sleep lo hi).

Local Abbreviation obeys := (obeys P T F).

Lemma obeys_silent {A} (m : M A) :
  (forall s, trace (m s).2 = trace s) -> obeys m.
Proof.
  intros Hm s. exists []. rewrite app_nil_r. split; [done|].
  split; [constructor|]. by intros ?%Exists_nil.
Qed.

Lemma obeys_ret {A} (a : A) : obeys (ret a).
Proof. by apply obeys_silent. Qed.

Lemma obeys_sys_exit {A} c : obeys (@sys_exit A c).
Proof. by apply obeys_silent. Qed.

Lemma obeys_raise {A} e : obeys (@raise A e).
Proof. by apply obeys_silent. Qed.

Lemma obeys_or_raise {A} e (x : option A) : obeys (or_raise e x).
Proof. apply obeys_silent. by destruct x. Qed.

Lemma obeys_get_data : obeys get_data.
Proof. by apply obeys_silent. Qed.

Lemma obeys_set_data d : obeys (set_data d).
Proof. by apply obeys_silent. Qed.

Lemma obeys_emit e : P e -> ~ T e -> obeys (emit e).
Proof.
  intros HP HT s. exists [e]. split; [done|]. split; [by repeat constructor|].
  intros [?|?%Exists_nil]%Exists_cons; done.
Qed.

Lemma obeys_log lvl msg : obeys (log lvl msg).
Proof. by apply obeys_emit. Qed.

Lemma obeys_sleep lo hi : obeys (sleep lo hi).
Proof. by apply obeys_emit. Qed.

Lemma obeys_bind {A B} (m : M A) (k : A -> M B) :
  obeys m -> (forall a, obeys (k a)) -> obeys (bind m k).
Proof.
  intros Hm Hk s. destruct (Hm s) as (evs1 & Htr1 & HP1 & HT1).
  unfold bind. destruct (m s) as [[a|c|e] s1] eqn:Hms; simpl in *.
  - destruct (Hk a s1) as (evs2 & Htr2 & HP2 & HT2).
    exists (evs1 ++ evs2). rewrite Htr2, Htr1, app_assoc.
    split; [done|]. split; [by apply Forall_app|].
    intros [H1|H2]%Exists_app.
    + by destruct (HT1 H1).
    + destruct (HT2 H2). split; [done|]. by apply F_app.
  - exists evs1. split; [done|]. split; [done|].
    intros [[= ->] ?]%HT1. done.
  - exists evs1. split; [done|]. split; [done|]. by intros [? ?]%HT1.
Qed.

Lemma obeys_for_each {A} (l : list A) (body : A -> M unit) :
  (forall x, obeys (body x)) -> obeys (for_each l body).
Proof.
  intros Hbody. induction l; simpl; [apply obeys_ret|].
  apply obeys_bind; [done|]. by intros _.
Qed.

Lemma obeys_map_m {A B} (f : A -> M B) l :
  (forall x, obeys (f x)) -> obeys (map_m f l).
Proof.
  intros Hf. induction l; simpl; [apply obeys_ret|].
  apply obeys_bind; [done|]. intros y.
  apply obeys_bind; [done|]. intros ys. apply obeys_ret.
Qed.

Lemma obeys_get_or_exit {A} what req (resp : response A) :
  P (Fetch req) -> ~ T (Fetch req) -> obeys (get_or_exit what req resp).
Proof.
  intros HP HT. unfold get_or_exit.
  apply obeys_bind; [by apply obeys_emit|]. intros _.
  destruct resp;
    first [apply obeys_ret
          | apply obeys_bind; [apply obeys_log|intros; apply obeys_sys_exit]].
Qed.
End Obeys.

Create HintDb obeys discriminated.
#[local] Hint Resolve obeys_ret obeys_sys_exit obeys_raise obeys_or_raise
  obeys_get_data obeys_set_data obeys_log obeys_sleep : obeys.

(** Walk through a definition as [quiet_walk] does. *)
Ltac obeys_walk :=
  repeat first
    [ progress eauto with obeys
    | apply obeys_bind; [assumption| |intros]
    | case_match
    | case_bool_decide ].

Section ObeysScraper.
Variable net : network.
Variables concert_id_list film_id_list : list pystr.
Variables (P T : event -> Prop) (F : list event -> Prop).
Hypothesis F_app : forall a b, F b -> F (a ++ b).
Hypothesis P_log : forall lvl msg, P (Log lvl msg).
Hypothesis T_log : forall lvl msg, ~ T (Log lvl msg).
Hypothesis P_sleep : forall lo hi, P (Sleep lo hi).
Hypothesis T_sleep : forall lo hi, ~ T (Sleep lo hi).
(** Only stream lookups can be what [T] watches for. *)
Hypothesis T_other : forall r, (forall i, r <> ReqStreams i) -> ~ T (Fetch r).
Hypothesis P_seasons : P (Fetch ReqSeasons).
Hypothesis P_season : forall i, P (Fetch (ReqSeason i)).
Hypothesis P_films : P (Fetch ReqFilms).
(** Concerts and films outside the seen-sets may be fetched and
    resolved. *)
Hypothesis P_concert :
  forall i, i ∉ concert_id_list -> P (Fetch (ReqConcert i)).
Hypothesis P_film : forall i, i ∉ film_id_list -> P (Fetch (ReqFilm i)).
Hypothesis streams_concert :
  forall i, i ∉ concert_id_list -> obeys P T F (get_streams net i).
Hypothesis streams_film :
  forall i, i ∉ film_id_list -> obeys P T F (get_streams net i).

Local Abbreviation obeys := (obeys P T F).

Lemma obeys_page {A} what req (resp : response A) :
  P (Fetch req) -> (forall i, req <> ReqStreams i) ->
  obeys (get_or_exit what req resp).
Proof. intros HP Hreq. apply obeys_get_or_exit; auto. Qed.

Lemma obeys_get_seasons : obeys (get_seasons net).
Proof.
  unfold get_seasons.
  apply obeys_bind; [done|obeys_walk|intros _].
  apply obeys_bind; [done|by apply obeys_page|intros r]. obeys_walk.
Qed.

Lemma obeys_set_stream_url kind id streams d :
  obeys (set_stream_url kind id streams d).
Proof. unfold set_stream_url. obeys_walk. Qed.

Lemma obeys_extract_piece streams piece : obeys (extract_piece streams piece).
Proof.
  unfold extract_piece. pose proof obeys_set_stream_url. obeys_walk.
Qed.

Lemma obeys_set_concert_meta l d : obeys (set_concert_meta l d).
Proof. unfold set_concert_meta. obeys_walk. Qed.

Lemma obeys_set_conductor l d : obeys (set_conductor l d).
Proof. unfold set_conductor. obeys_walk. Qed.

Lemma obeys_extract_metadata concert_id soup :
  obeys (get_streams net concert_id) ->
  obeys (extract_metadata net concert_id soup).
Proof.
  intros Hstreams. unfold extract_metadata.
  pose proof obeys_set_concert_meta. pose proof obeys_set_conductor.
  repeat first
    [ progress eauto with obeys
    | apply obeys_map_m; [assumption|intros; apply obeys_extract_piece]
    | apply obeys_bind; [assumption| |intros]
    | match goal with
      | |- _ (match ?x with _ => _ end) => destruct x
      end ].
Qed.

Lemma obeys_handle_concert concert_id :
  obeys (handle_concert net concert_id_list concert_id).
Proof.
  unfold handle_concert. case_bool_decide as Hnew; [|obeys_walk].
  apply obeys_bind; [done|obeys_walk|intros _].
  apply obeys_bind; [done|apply obeys_page; auto|intros soup].
  apply obeys_bind; [done|apply obeys_extract_metadata; auto|intros d].
  obeys_walk.
Qed.

Lemma obeys_season_concerts entries :
  forall acc, obeys (season_concerts net concert_id_list entries acc).
Proof.
  induction entries as [|e entries IH]; intros acc; simpl; [obeys_walk|].
  apply obeys_bind; [done|obeys_walk|intros id].
  apply obeys_bind; [done|apply obeys_handle_concert|intros d].
  apply obeys_bind; [done|obeys_walk|intros _]. apply IH.
Qed.

Lemma obeys_handle_season s : obeys (handle_season net concert_id_list s).
Proof.
  unfold handle_season.
  apply obeys_bind; [done|obeys_walk|intros _].
  apply obeys_bind; [done|apply obeys_page; auto|intros soup].
  apply obeys_bind; [done|apply obeys_season_concerts|intros cs].
  obeys_walk.
Qed.

Lemma obeys_seasons_crawl : obeys (seasons_crawl net concert_id_list).
Proof.
  unfold seasons_crawl.
  apply obeys_bind; [done|obeys_walk|intros _].
  apply obeys_bind; [done|apply obeys_get_seasons|intros all_seasons].
  apply obeys_for_each; [done|]. intros s.
  apply obeys_bind; [done|apply obeys_handle_season|intros _]. obeys_walk.
Qed.

Lemma obeys_extract_film_data tag : obeys (extract_film_data tag).
Proof. unfold extract_film_data. obeys_walk. Qed.

Lemma obeys_get_films : obeys (get_films net).
Proof.
  unfold get_films.
  apply obeys_bind; [done|obeys_walk|intros _].
  apply obeys_bind; [done|by apply obeys_page|intros soup]. obeys_walk.
Qed.

Lemma obeys_handle_film film_dict :
  obeys (handle_film net film_id_list film_dict).
Proof.
  unfold handle_film.
  apply obeys_bind; [done|obeys_walk|intros film_id].
  case_bool_decide as Hnew; [|obeys_walk].
  apply obeys_bind; [done|obeys_walk|intros _].
  apply obeys_bind; [done|apply obeys_page; auto|intros soup].
  apply obeys_bind; [done|auto|intros streams].
  apply obeys_bind; [done|apply obeys_set_stream_url|intros d].
  obeys_walk.
Qed.

Lemma obeys_films_crawl : obeys (films_crawl net film_id_list).
Proof.
  unfold films_crawl.
  apply obeys_bind; [done|obeys_walk|intros _].
  apply obeys_bind; [done|apply obeys_get_films|intros all_films].
  apply obeys_for_each; [done|]. intros tag.
  apply obeys_bind; [done|apply obeys_extract_film_data|intros film].
  apply obeys_bind; [done|apply obeys_handle_film|intros _]. obeys_walk.
Qed.

Lemma obeys_first_urls its : forall acc, obeys (first_urls its acc).
Proof.
  induction its as [|[k v] its IH]; intros acc; simpl; [obeys_walk|].
  destruct v; [obeys_walk|apply IH].
Qed.

(** A stream lookup that [T] does not watch for. *)
Lemma obeys_get_streams content_id :
  P (Fetch (ReqStreams content_id)) -> ~ T (Fetch (ReqStreams content_id)) ->
  obeys (get_streams net content_id).
Proof.
  intros HP HT. unfold get_streams. pose proof obeys_first_urls.
  apply obeys_bind; [done|obeys_walk|intros _].
  apply obeys_bind; [done|by apply obeys_get_or_exit|intros r]. obeys_walk.
Qed.
End ObeysScraper.

(** ** What a completed crawl collected *)

Lemma get_or_exit_Ret {A} what req (resp : response A) s a s' :
  get_or_exit what req resp s = (Ret a, s') -> resp = Received a.
Proof.
  unfold get_or_exit. intros Hrun. run_inv Hrun.
  destruct resp; try (by run_inv Hrun). by apply ret_Ret in Hrun as [-> _].
Qed.

Lemma extract_metadata_id net concert_id soup s metaDict s' :
  extract_metadata net concert_id soup s = (Ret metaDict, s') ->
  dict_get "concertId" metaDict = Some (VStr concert_id).
Proof.
  intros Hbuilt%extract_metadata_built.
  rewrite (built_by_other "concertId" _ _ _ Hbuilt); [done|].
  unfold concert_fields. simpl. set_solver.
Qed.

Lemma handle_concert_Ret net cl concert_id s r s' :
  handle_concert net cl concert_id s = (Ret r, s') ->
  (concert_id ∈ cl /\ r = None)
  \/ ((concert_id ∉ cl)
      /\ exists d, r = Some d
                  /\ dict_get "concertId" d = Some (VStr concert_id)).
Proof.
  unfold handle_concert. case_bool_decide as Hnew; intros Hrun; run_inv Hrun.
  - apply ret_Ret in Hrun as [<- _]. right. split; [done|].
    eexists. split; [done|]. by eapply extract_metadata_id.
  - apply ret_Ret in Hrun as [<- _]. by left.
Qed.

Lemma omap_singleton {A B} (f : A -> option B) x y :
  f x = Some y -> omap f [x] = [y].
Proof. intros Hx. simpl. by rewrite Hx. Qed.

Lemma id_under_dict key d i :
  dict_get key d = Some (VStr i) -> id_under key (VDict d) = Some i.
Proof. unfold id_under. by intros ->. Qed.

Lemma season_concerts_Ret net cl entries : forall acc s cs s',
  season_concerts net cl entries acc s = (Ret cs, s') ->
  exists ids,
    mapM (fun concert => drop 8 <$> attr "id" concert) entries = Some ids
    /\ omap (id_under "concertId") cs
       = omap (id_under "concertId") acc ++ filter (fun i => i ∉ cl) ids.
Proof.
  induction entries as [|e entries IH]; intros acc s cs s' Hrun; simpl in Hrun.
  - apply ret_Ret in Hrun as [<- _]. exists []. by rewrite app_nil_r.
  - run_inv Hrun. apply or_raise_Ret in Hrun0 as [Hid ->].
    apply IH in Hrun as (ids & Hids & Hcs).
    exists (drop 8 a :: ids). split.
    { simpl. rewrite Hid. simpl. by rewrite Hids. }
    rewrite Hcs.
    apply handle_concert_Ret in Hrun1 as [[Hin ->]|(Hnew & d & -> & Hd)].
    + by rewrite filter_cons_False by tauto.
    + rewrite filter_cons_True by done.
      destruct d as [|kv d]; [done|].
      rewrite omap_app, <- app_assoc.
      by erewrite omap_singleton by by apply id_under_dict.
Qed.

Lemma batch_concert_ids_app a b :
  batch_concert_ids (a ++ b) = batch_concert_ids a ++ batch_concert_ids b.
Proof.
  unfold batch_concert_ids. by rewrite map_app, concat_app, omap_app.
Qed.

Lemma handle_season_Ret net cl ss s s' :
  handle_season net cl ss s = (Ret tt, s') ->
  exists ids season_dict,
    season_listing net ss = Some ids
    /\ data s' = data s ++ [season_dict]
    /\ batch_concert_ids [season_dict] = filter (fun i => i ∉ cl) ids
    /\ exists d, season_dict = VDict d
                /\ dict_get "season" d
                   = Some (VStr (replace [ndash] [hyphen] (season_label ss))).
Proof.
  unfold handle_season. intros Hrun. run_inv Hrun.
  pose proof (quiet_Ret _ _ _ _ (quiet_log _ _) Hrun0) as D0.
  pose proof (quiet_Ret _ _ _ _ (quiet_get_or_exit _ _ _) Hrun1) as D1.
  pose proof (quiet_Ret _ _ _ _ (quiet_season_concerts _ _ _ _) Hrun2) as D2.
  apply get_or_exit_Ret in Hrun1.
  apply season_concerts_Ret in Hrun2 as (ids & Hids & Hcs).
  unfold get_data in Hrun3. unfold set_data in Hrun. simplify_eq. simpl.
  eexists ids, _. split; [|split; [|split]].
  - unfold season_listing. by rewrite Hrun1.
  - by rewrite D2, D1, D0.
  - unfold batch_concert_ids. simpl. by rewrite app_nil_r.
  - by eexists.
Qed.

Lemma for_each_seasons_Ret net cl seasons : forall s s',
  for_each seasons
    (fun ss => handle_season net cl ss ;; sleep MIN_DELAY MAX_DELAY)%run s
  = (Ret tt, s') ->
  exists listings,
    Forall2 (fun ss ids => season_listing net ss = Some ids) seasons listings
    /\ batch_concert_ids (data s')
       = batch_concert_ids (data s)
         ++ filter (fun i => i ∉ cl) (concat listings).
Proof.
  induction seasons as [|ss seasons IH]; intros s s' Hrun; simpl in Hrun.
  - apply ret_Ret in Hrun as [_ ->]. exists []. split; [constructor|].
    by rewrite app_nil_r.
  - apply bind_Ret in Hrun as ([] & s1 & Hbody & Hrun).
    apply bind_Ret in Hbody as ([] & s2 & Hseason & Hsleep).
    pose proof (quiet_Ret _ _ _ _ (quiet_sleep _ _) Hsleep) as D.
    apply handle_season_Ret in Hseason as (ids & sd & Hids & Hdata & Hsd & _).
    apply IH in Hrun as (listings & Hall & Hbatch).
    exists (ids :: listings). split; [by constructor|].
    rewrite Hbatch, D, Hdata, batch_concert_ids_app, Hsd. simpl.
    by rewrite filter_app, app_assoc.
Qed.

Lemma get_seasons_Ret net s seasons s' :
  get_seasons net s = (Ret seasons, s') ->
  exists body seasons_dict,
    seasons_endpoint net = Received body
    /\ body_json body = Some seasons_dict
    /\ seasons = items seasons_dict.
Proof.
  unfold get_seasons. intros Hrun. run_inv Hrun.
  apply get_or_exit_Ret in Hrun1.
  destruct (body_json a0) as [sd|] eqn:Hjson; [|by run_inv Hrun].
  run_inv Hrun. apply ret_Ret in Hrun as [<- _]. eauto.
Qed.

(** The concerts of a completed crawl: for every season of the index, the
    concerts its listing shows that are not in the seen-set, in listing
    order, one record per listing entry. *)
Lemma seasons_crawl_Ret net cl s s' :
  seasons_crawl net cl s = (Ret tt, s') ->
  exists body seasons_dict listings,
    seasons_endpoint net = Received body
    /\ body_json body = Some seasons_dict
    /\ Forall2 (fun ss ids => season_listing net ss = Some ids)
         (items seasons_dict) listings
    /\ batch_concert_ids (data s')
       = filter (fun i => i ∉ cl) (concat listings).
Proof.
  unfold seasons_crawl. intros Hrun. run_inv Hrun.
  unfold set_data in Hrun0. simplify_eq.
  pose proof (quiet_Ret _ _ _ _ (quiet_get_seasons _) Hrun1) as D.
  apply get_seasons_Ret in Hrun1 as (body & sd & Hnet & Hjson & ->).
  apply for_each_seasons_Ret in Hrun as (listings & Hall & Hbatch).
  exists body, sd, listings. repeat (split; [done|]).
  rewrite Hbatch, D. done.
Qed.

Lemma extract_film_data_Ret tag s d s' :
  extract_film_data tag s = (Ret d, s') ->
  exists film_id,
    listed_film_id tag = Some film_id
    /\ dict_get "film_id" d = Some (VStr film_id)
    /\ data s' = data s.
Proof.
  intros Hrun.
  pose proof (quiet_Ret _ _ _ _ (quiet_extract_film_data _) Hrun) as D.
  unfold extract_film_data in Hrun. run_inv Hrun.
  apply or_raise_Ret in Hrun0 as [Hlink _].
  apply or_raise_Ret in Hrun1 as [Hhref _].
  apply or_raise_Ret in Hrun2 as [Hlast _].
  apply ret_Ret in Hrun as [<- _]. exists a1. split; [|done].
  unfold listed_film_id. rewrite Hlink. simpl. rewrite Hhref. done.
Qed.

Lemma handle_film_Ret net fl film_dict film_id s s' :
  dict_get "film_id" film_dict = Some (VStr film_id) ->
  handle_film net fl film_dict s = (Ret tt, s') ->
  (film_id ∈ fl /\ data s' = data s)
  \/ ((film_id ∉ fl)
      /\ exists film, data s' = data s ++ [VDict film]
                     /\ dict_get "film_id" film = Some (VStr film_id)).
Proof.
  intros Hid Hrun. unfold handle_film in Hrun. rewrite Hid in Hrun.
  apply bind_Ret in Hrun as (i & s0 & [<- ->]%ret_Ret & Hrun).
  case_bool_decide as Hnew.
  - right. split; [done|]. run_inv Hrun.
    pose proof (quiet_Ret _ _ _ _ (quiet_log _ _) Hrun0) as D0.
    pose proof (quiet_Ret _ _ _ _ (quiet_get_or_exit _ _ _) Hrun1) as D1.
    pose proof (quiet_Ret _ _ _ _ (quiet_get_streams _ _) Hrun2) as D2.
    pose proof (quiet_Ret _ _ _ _ (quiet_set_stream_url _ _ _ _) Hrun3) as D3.
    apply set_stream_url_Ret in Hrun3 as ->.
    unfold get_data in Hrun4. simplify_eq. unfold set_data in Hrun.
    simplify_eq. simpl. eexists. split.
    + rewrite D3, D2, D1, D0. reflexivity.
    + rewrite !set_if_found_other, set_actors_other, set_if_found_other
        by done.
      by rewrite dict_get_set_ne.
  - left. split; [done|]. by apply (quiet_Ret _ _ _ _ (quiet_log _ _) Hrun).
Qed.

Lemma for_each_films_Ret net fl entries : forall s s',
  for_each entries
    (fun tag =>
       film <- extract_film_data tag ;;
       handle_film net fl film ;;
       sleep MIN_DELAY MAX_DELAY)%run s
  = (Ret tt, s') ->
  exists ids,
    mapM listed_film_id entries = Some ids
    /\ batch_film_ids (data s')
       = batch_film_ids (data s) ++ filter (fun i => i ∉ fl) ids.
Proof.
  induction entries as [|tag entries IH]; intros s s' Hrun; simpl in Hrun.
  - apply ret_Ret in Hrun as [_ ->]. exists []. by rewrite app_nil_r.
  - apply bind_Ret in Hrun as ([] & s1 & Hbody & Hrun).
    apply bind_Ret in Hbody as (film & s2 & Hfilm & Hbody).
    apply bind_Ret in Hbody as ([] & s3 & Hhandle & Hsleep).
    pose proof (quiet_Ret _ _ _ _ (quiet_sleep _ _) Hsleep) as D.
    apply extract_film_data_Ret in Hfilm as (film_id & Hlisted & Hid & D2).
    apply IH in Hrun as (ids & Hids & Hbatch).
    exists (film_id :: ids). split.
    { simpl. rewrite Hlisted. simpl. by rewrite Hids. }
    rewrite Hbatch, D. unfold batch_film_ids.
    eapply handle_film_Ret in Hhandle as [[Hin ->]|(Hnew & f & -> & Hf)];
      [| |done].
    + rewrite filter_cons_False by tauto. by rewrite D2.
    + rewrite filter_cons_True by done. rewrite omap_app, <- app_assoc, D2.
      by erewrite omap_singleton by by apply id_under_dict.
Qed.

Lemma quiet_get_films net : quiet (get_films net).
Proof. unfold get_films. quiet_walk. Qed.

Lemma get_films_Ret net s entries s' :
  get_films net s = (Ret entries, s') ->
  exists soup,
    films_page net = Received soup
    /\ entries = select (Simple (Sel "li" (Class (lit "item")))) soup.
Proof.
  unfold get_films. intros Hrun. run_inv Hrun.
  apply get_or_exit_Ret in Hrun1. apply ret_Ret in Hrun as [<- _]. eauto.
Qed.

(** The films of a completed crawl: the films the index shows that are not
    in the seen-set, in index order, one record per index entry. *)
Lemma films_crawl_Ret net fl s s' :
  films_crawl net fl s = (Ret tt, s') ->
  exists soup ids,
    films_page net = Received soup
    /\ listed_film_ids soup = Some ids
    /\ batch_film_ids (data s') = filter (fun i => i ∉ fl) ids.
Proof.
  unfold films_crawl. intros Hrun. run_inv Hrun.
  unfold set_data in Hrun0. simplify_eq.
  pose proof (quiet_Ret _ _ _ _ (quiet_get_films _) Hrun1) as D.
  apply get_films_Ret in Hrun1 as (soup & Hnet & ->).
  apply for_each_films_Ret in Hrun as (ids & Hids & Hbatch).
  exists soup, ids. repeat (split; [done|]). by rewrite Hbatch, D.
Qed.

(** Each run is its crawl followed by the write. *)
Lemma scrape_seasons_split net cl s :
  scrape_seasons net cl s
  = bind (seasons_crawl net cl)
      (fun _ => log INFO (lit "Writing to file...") ;;
                write_output (lit "seasons") ;;
                log INFO (lit "Done"))%run s.
Proof.
  unfold scrape_seasons, seasons_crawl, bind. simpl.
  destruct (get_seasons _ _) as [[?|?|?] ?]; [|done|done].
  by destruct (for_each _ _ _) as [[?|?|?] ?].
Qed.

Lemma scrape_films_split net fl s :
  scrape_films net fl s
  = bind (films_crawl net fl)
      (fun _ => log INFO (lit "Writing to file...") ;;
                write_output (lit "films") ;;
                log INFO (lit "Done"))%run s.
Proof.
  unfold scrape_films, films_crawl, bind. simpl.
  destruct (get_films _ _) as [[?|?|?] ?]; [|done|done].
  by destruct (for_each _ _ _) as [[?|?|?] ?].
Qed.

Lemma run_completed (crawl : M unit) out_name s s1 :
  crawl s = (Ret tt, s1) ->
  bind crawl
    (fun _ => log INFO (lit "Writing to file...") ;;
              write_output out_name ;;
              log INFO (lit "Done"))%run s
  = (Ret tt,
     State (data s1)
       (trace s1 ++ [Log INFO (lit "Writing to file...");
                     Dump (out_name ++ lit ".json") (data s1);
                     Log INFO (lit "Done")])).
Proof.
  intros Hcrawl. unfold bind. rewrite Hcrawl.
  unfold log, write_output, bind, get_data, emit. simpl.
  by rewrite <- !app_assoc.
Qed.

Lemma run_aborted (crawl : M unit) (k : unit -> M unit) s :
  (forall s1, crawl s <> (Ret tt, s1)) ->
  (bind crawl k s).2 = (crawl s).2
  /\ exit_status (bind crawl k s).1 = exit_status (crawl s).1
  /\ forall c, (crawl s).1 = Exit c -> (bind crawl k s).1 = Exit c.
Proof.
  intros Hnot. unfold bind. destruct (crawl s) as [[[]|c|e] s1]; [|done|done].
  by destruct (Hnot s1).
Qed.

(** ** The skip law *)

(** C3. A concert whose identifier is in the seen-set is never asked for: a
    run over any catalog issues neither a page fetch nor a stream lookup
    for it, and the batch the run writes has no concert record with that
    identifier. *)
Theorem seen_concert_skipped net concert_id_list id s :
  id ∈ concert_id_list ->
  exists evs,
    trace (scrape_seasons net concert_id_list s).2 = trace s ++ evs
    /\ (Fetch (ReqConcert id) ∉ evs)
    /\ (Fetch (ReqStreams id) ∉ evs)
    /\ forall out_name batch,
         Dump out_name batch ∈ evs -> id ∉ batch_concert_ids batch.
Proof.
  intros Hseen. rewrite scrape_seasons_split.
  set (P := fun e => e <> Fetch (ReqConcert id) /\ e <> Fetch (ReqStreams id)
                     /\ forall out_name batch, e <> Dump out_name batch).
  assert (obeys P (fun _ => False) (fun _ => True)
            (seasons_crawl net concert_id_list)) as Hcrawl.
  { apply obeys_seasons_crawl; unfold P;
      try (intros; repeat split; done); try tauto.
    - intros i Hi. repeat split; try done. intros ?. by simplify_eq.
    - intros i Hi. apply obeys_get_streams;
        try (intros; repeat split; done); try tauto.
      repeat split; try done. intros ?. by simplify_eq. }
  destruct (Hcrawl s) as (evs & Htrace & HP & _).
  assert ((Fetch (ReqConcert id) ∉ evs) /\ (Fetch (ReqStreams id) ∉ evs)
          /\ forall out_name batch, Dump out_name batch ∉ evs)
    as (Hpage & Hstream & Hdump).
  { rewrite Forall_forall in HP. repeat split.
    - intros Hin. by apply HP in Hin as (? & ? & ?).
    - intros Hin. by apply HP in Hin as (? & ? & ?).
    - intros out_name batch Hin. apply HP in Hin as (_ & _ & Hd).
      by eapply Hd. }
  destruct (seasons_crawl net concert_id_list s) as [[[]|c|e] s1] eqn:Hrun.
  - erewrite run_completed by done. simpl in *.
    eexists. rewrite Htrace, <- app_assoc. split; [done|].
    rewrite !not_elem_of_app. repeat split; try done; try set_solver.
    intros out_name batch [Hin|Hin]%elem_of_app; [by destruct (Hdump _ _ Hin)|].
    assert (batch = data s1) as -> by set_solver.
    apply seasons_crawl_Ret in Hrun as (_ & _ & listings & _ & _ & _ & ->).
    rewrite list_elem_of_filter. tauto.
  - exists evs. unfold bind. rewrite Hrun. simpl in *.
    repeat split; try done. intros ? ? Hin. by destruct (Hdump _ _ Hin).
  - exists evs. unfold bind. rewrite Hrun. simpl in *.
    repeat split; try done. intros ? ? Hin. by destruct (Hdump _ _ Hin).
Qed.

(** ** Fail-fast stream lookups *)

Lemma mentions_mid a part b : mentions part (a ++ part ++ b).
Proof. by exists a, b. Qed.

Lemma mentions_end a part : mentions part (a ++ part).
Proof. exists a, []. by rewrite app_nil_r. Qed.

Lemma raise_for_status_error {A} (rep : reply A) :
  (400 <= status_code rep < 600)%Z ->
  exists kind, raise_for_status rep = HTTPError (http_error_msg kind rep).
Proof.
  intros Hstatus. unfold raise_for_status. case_bool_decide; [by eexists|].
  rewrite bool_decide_eq_true_2 by lia. by eexists.
Qed.

Lemma get_streams_fails net content_id :
  lookup_failure (stream_urls net content_id) ->
  exists report,
    mentions (cause_of (stream_urls net content_id)) report
    /\ forall s,
         get_streams net content_id s
         = (Exit (-1),
            State (data s)
              (trace s
               ++ [Log DEBUG (lit "Getting streams for content with ID "
                              ++ content_id ++ lit "...");
                   Fetch (ReqStreams content_id); Log ERROR report])).
Proof.
  intros Hfail.
  unfold get_streams, get_or_exit, bind, log, emit, sys_exit, or_raise, ret.
  destruct Hfail as [e| |e|rep Hstatus|b Hb|b u m Hb Hu Hm];
    [| | |destruct (raise_for_status_error rep Hstatus) as [kind ->]| |];
    cbn -[lit app]; try rewrite Hb; try rewrite Hu; try rewrite Hm;
    cbn -[lit app];
    (eexists; split; [|intros s; by rewrite <- !app_assoc]).
  - rewrite !app_assoc. apply mentions_end.
  - exists ((lit "Get streams for content with ID " ++ content_id) ++ lit " "),
      (lit "!"). by rewrite <- !app_assoc.
  - rewrite !app_assoc. apply mentions_end.
  - rewrite !app_assoc. apply mentions_end.
  - rewrite !app_assoc. apply mentions_end.
  - apply mentions_end.
Qed.

Section FailFast.
Variable net : network.
Variable content_id : pystr.
Hypothesis Hfail : lookup_failure (stream_urls net content_id).

Local Abbreviation P := not_dump.
Local Abbreviation T := (is_lookup content_id).
Local Abbreviation F := (ends_with_report net content_id).

Lemma report_app a b : F b -> F (a ++ b).
Proof.
  intros (earlier & ann & report & -> & Hann & Hrep).
  exists (a ++ earlier), ann, report. by rewrite <- app_assoc.
Qed.

Lemma obeys_failing_lookup i : obeys P T F (get_streams net i).
Proof.
  destruct (decide (i = content_id)) as [->|Hne].
  - destruct (get_streams_fails _ _ Hfail) as (report & Hrep & Hrun).
    intros s. rewrite Hrun. cbn -[lit app]. eexists. split; [done|]. split.
    + repeat constructor; done.
    + intros _. split; [done|]. eexists [], _, report.
      split; [reflexivity|]. split; [apply mentions_mid|done].
  - apply obeys_get_streams; try done; try apply report_app.
    intros [= ?]. done.
Qed.

Lemma run_fails_fast (crawl : M unit) out_name s evs :
  obeys P T F crawl ->
  let run := bind crawl
               (fun _ => log INFO (lit "Writing to file...") ;;
                         write_output out_name ;;
                         log INFO (lit "Done"))%run in
  trace (run s).2 = trace s ++ evs ->
  Fetch (ReqStreams content_id) ∈ evs ->
  (run s).1 = Exit (-1)
  /\ exit_status (run s).1 = 255%Z
  /\ (forall out_name batch, Dump out_name batch ∉ evs)
  /\ ends_with_report net content_id evs.
Proof.
  intros Hcrawl run Htrace Hin.
  destruct (Hcrawl s) as (evs1 & Htr1 & HP1 & HT1). subst run.
  destruct (crawl s) as [[[]|c|e] s1] eqn:Hrun; simpl in *.
  - exfalso. erewrite run_completed in Htrace by done. simpl in Htrace.
    rewrite Htr1, <- app_assoc in Htrace. apply app_inv_head in Htrace as <-.
    apply elem_of_app in Hin as [Hin|Hin]; [|set_solver].
    destruct HT1 as [? _]; [|done].
    apply Exists_exists. by exists (Fetch (ReqStreams content_id)).
  - unfold bind in *. rewrite Hrun in *. simpl in *.
    rewrite Htr1 in Htrace. apply app_inv_head in Htrace as <-.
    destruct HT1 as [[= ->] HF].
    { apply Exists_exists. by exists (Fetch (ReqStreams content_id)). }
    repeat split; try done.
    intros n b Hd. rewrite Forall_forall in HP1. by eapply HP1.
  - exfalso. unfold bind in *. rewrite Hrun in *. simpl in *.
    rewrite Htr1 in Htrace. apply app_inv_head in Htrace as <-.
    destruct HT1 as [? _]; [|done].
    apply Exists_exists. by exists (Fetch (ReqStreams content_id)).
Qed.
End FailFast.

(** C8, as the code has it. When the stream lookup for [content_id] fails
    in one of the ways the source handles (a transport error; a status from
    400 to 599, which is what the status check raises for; a body that is
    not JSON; an envelope with [success: false] that gives a message), a run
    that issues that lookup ends in [sys.exit(-1)], which the operating
    system sees as status 255; the last three things it did are the debug
    line naming the identifier, the request, and an error line carrying the
    cause; and it wrote no batch. *)
Theorem stream_failure_is_fatal net concert_id_list film_id_list content_id
    (run : M unit) s evs :
  lookup_failure (stream_urls net content_id) ->
  run = scrape_seasons net concert_id_list
  \/ run = scrape_films net film_id_list ->
  trace (run s).2 = trace s ++ evs ->
  Fetch (ReqStreams content_id) ∈ evs ->
  (run s).1 = Exit (-1)
  /\ exit_status (run s).1 = 255%Z
  /\ (forall out_name batch, Dump out_name batch ∉ evs)
  /\ ends_with_report net content_id evs.
Proof.
  intros Hfail [->| ->].
  - rewrite scrape_seasons_split. apply run_fails_fast; [done|].
    apply obeys_seasons_crawl; try done; try (by apply report_app);
      try (by intros; apply obeys_failing_lookup).
    intros r Hr [= ->]. by destruct (Hr content_id).
  - rewrite scrape_films_split. apply run_fails_fast; [done|].
    apply obeys_films_crawl; try done; try (by apply report_app);
      try (by intros; apply obeys_failing_lookup).
    intros r Hr [= ->]. by destruct (Hr content_id).
Qed.

(** C8, as the spec states it, fails twice on the sample provider. An
    envelope with [success: false] and no message ends the run in an
    uncaught [KeyError], before any error line is written: the request is
    the last thing the run did, and the cause is never logged. And a status that is not 2xx need not be an error status:
    under status 300 the lookup goes through, the run completes with status
    0 and writes its batch. *)
Lemma stream_failure_not_always_reported :
  (let run := scrape_seasons mute_net [] in
   (exists b u, stream_urls mute_net (lit "51") = Received b
                /\ body_json b = Some u /\ success u = false)
   /\ last (trace (run start).2) = Some (Fetch (ReqStreams (lit "51")))
   /\ (run start).1 = Uncaught KeyError
   /\ exit_status (run start).1 = 1%Z
   /\ forall report, Log ERROR report ∉ trace (run start).2)
  /\ (let run := scrape_seasons redirected_net [] in
      (exists rep, stream_urls redirected_net (lit "51") = raise_for_status rep
                   /\ ~ (200 <= status_code rep < 300)%Z)
      /\ Fetch (ReqStreams (lit "51")) ∈ trace (run start).2
      /\ (run start).1 = Ret tt
      /\ exit_status (run start).1 = 0%Z
      /\ exists batch, Dump (lit "seasons.json") batch ∈ trace (run start).2).
Proof.
  split.
  - split; [by eexists _, _|].
    split; [by vm_compute|].
    split; [by vm_compute|]. split; [by vm_compute|].
    intros report Hin. vm_compute in Hin.
    repeat (apply elem_of_cons in Hin as [Hin|Hin]; [discriminate|]).
    by apply elem_of_nil in Hin.
  - split; [exists multiple_choices; split; [done|simpl; lia]|].
    split; [apply list_elem_of_lookup_2 with 9%nat; by vm_compute|].
    split; [by vm_compute|]. split; [by vm_compute|].
    exists (data (scrape_seasons redirected_net [] start).2).
    apply list_elem_of_lookup_2 with 16%nat. by vm_compute.
Qed.


(** ** Text fields, record by record *)

Lemma sentinels_trimmed : trimmed KEINE_ROLLE /\ trimmed KEINER.
Proof. split; reflexivity. Qed.

Lemma make_dict_trimmed group :
  trimmed (role (make_dict group)) /\ trimmed (player (make_dict group)).
Proof.
  unfold make_dict.
  assert (forall acc, trimmed (role acc) -> trimmed (player acc) ->
            let r := fold_left
                       (fun ret tag =>
                          if named "strong" tag
                          then Artist (role ret) (strip (text tag))
                          else if named "em" tag
                               then Artist (strip (text tag)) (player ret)
                               else ret) group acc in
            trimmed (role r) /\ trimmed (player r)) as Hfold.
  { induction group as [|tag group IH]; intros acc Hr Hp; simpl; [done|].
    destruct (named "strong" tag); [apply IH; [done|apply strip_trimmed]|].
    destruct (named "em" tag); [apply IH; [apply strip_trimmed|done]|].
    by apply IH. }
  apply Hfold; apply sentinels_trimmed.
Qed.

Lemma dict_set_Forall {K V} `{EqDecision K} (Q : K * V -> Prop) k v
    (d : list (K * V)) :
  Forall Q d -> Q (k, v) -> Forall Q (dict_set k v d).
Proof.
  intros Hd Hkv. induction Hd as [|[k' v'] d Hx Hd IH]; simpl.
  - by repeat constructor.
  - destruct (decide (k = k')); by constructor.
Qed.

Lemma dict_get_elem_of {K V} `{EqDecision K} k v (d : list (K * V)) :
  dict_get k d = Some v -> (k, v) ∈ d.
Proof.
  induction d as [|[k' v'] d IH]; simpl; [done|].
  destruct (decide (k = k')) as [->|]; [intros [= ->]; left|].
  intros ?. right. by apply IH.
Qed.

Lemma fold_roles_trimmed artistList :
  Forall (fun d => trimmed (role d) /\ trimmed (player d)) artistList ->
  Forall (fun kv => trimmed kv.1 /\ Forall trimmed kv.2)
    (fold_roles artistList).
Proof.
  unfold fold_roles. intros Hall.
  assert (forall temp,
            Forall (fun kv : pystr * list pystr =>
                      trimmed kv.1 /\ Forall trimmed kv.2) temp ->
            Forall (fun kv => trimmed kv.1 /\ Forall trimmed kv.2)
              (fold_left add_artist artistList temp)) as Hfold.
  { induction Hall as [|d al [Hr Hp] _ IH]; intros temp Htemp; simpl; [done|].
    apply IH. unfold add_artist.
    destruct (dict_get (role d) temp) as [names|] eqn:Hget.
    - apply dict_set_Forall; [done|]. split; [done|].
      apply dict_get_elem_of in Hget. rewrite Forall_forall in Htemp.
      apply Htemp in Hget as [_ Hnames]. apply Forall_app.
      by repeat constructor.
    - apply dict_set_Forall; [done|]. by repeat constructor. }
  apply Hfold. constructor.
Qed.

Lemma leaves_strings l : concat (map leaves (map VStr l)) = l.
Proof. induction l; simpl; by f_equal. Qed.

Lemma set_artists_trimmed artists d v :
  dict_get "artists" d = None ->
  dict_get "artists" (set_artists artists d) = Some v ->
  Forall trimmed (leaves v).
Proof.
  intros Hnone. unfold set_artists.
  destruct (negb _); [|by rewrite Hnone].
  destruct (map artist_group _) as [|g gs] eqn:Hgs; [by rewrite Hnone|].
  rewrite dict_get_set_eq. intros [= <-]. rewrite <- Hgs. simpl.
  assert (Forall (fun kv => trimmed kv.1 /\ Forall trimmed kv.2)
            (fold_roles (artist_list (contents_of artists)))) as Hgood.
  { apply fold_roles_trimmed. unfold artist_list.
    apply Forall_forall. intros d' (g' & -> & _)%list_elem_of_fmap.
    apply make_dict_trimmed. }
  clear Hgs. induction Hgood as [|[r names] temp [Hr Hnames] _ IH]; simpl.
  - constructor.
  - rewrite app_nil_r, leaves_strings. constructor; [done|].
    apply Forall_app. split; done.
Qed.

Lemma scan_headers_trimmed headers : forall d,
  (forall k v, dict_get k d = Some v -> k ∈ ["composer"; "description"] ->
               Forall trimmed (leaves v)) ->
  forall k v, dict_get k (scan_headers headers d) = Some v ->
              k ∈ ["composer"; "description"] -> Forall trimmed (leaves v).
Proof.
  assert (forall (d : dict string pyval) key t,
            (forall k v, dict_get k d = Some v ->
                         k ∈ ["composer"; "description"] ->
                         Forall trimmed (leaves v)) ->
            forall k v, dict_get k (dict_set key (VStr (strip t)) d) = Some v ->
                        k ∈ ["composer"; "description"] ->
                        Forall trimmed (leaves v)) as Hset.
  { intros d key t Hd k v. rewrite dict_get_set. case_decide; [|apply Hd].
    intros [= <-] _. repeat constructor. apply strip_trimmed. }
  induction headers as [|tag rest IH]; intros d Hd; simpl; [done|].
  destruct (named "strong" tag); [by apply IH, Hset|].
  destruct (named "br" tag); [by apply Hset|by apply IH].
Qed.

(** The text fields of a piece are trimmed at both ends. *)
Lemma extract_piece_trimmed streams piece s pieceDict s' k v :
  extract_piece streams piece s = (Ret pieceDict, s') ->
  k ∈ ["composer"; "description"; "artists"] ->
  dict_get k pieceDict = Some v -> Forall trimmed (leaves v).
Proof.
  intros (work & id & h2 & _ & _ & _ & ->)%extract_piece_Ret Hk. simpl.
  set (base := [("pieceId", VStr id); ("streamUrl", _)]).
  assert (forall k v, dict_get k (set_header (contents_of h2) base) = Some v ->
            k ∈ ["composer"; "description"] -> Forall trimmed (leaves v))
    as Hheader.
  { assert (forall k v, dict_get k base = Some v ->
              k ∈ ["composer"; "description"] -> Forall trimmed (leaves v))
      as Hbase.
    { intros k0 v0 Hget Hin.
      repeat (apply elem_of_cons in Hin as [->|Hin]; [done|]).
      by apply elem_of_nil in Hin. }
    unfold set_header. intros k' v'. destruct (_ && _).
    - rewrite dict_get_set. case_decide.
      + intros [= <-] _. repeat constructor. apply strip_trimmed.
      + by apply scan_headers_trimmed.
    - by apply scan_headers_trimmed. }
  assert (dict_get "artists" (set_header (contents_of h2) base) = None)
    as Hnone by by apply headed_no_artists.
  apply elem_of_cons in Hk as [->|Hk].
  { destruct (find "p" piece); rewrite ?set_artists_other by done;
      intros ?; eapply Hheader; [done|set_solver|done|set_solver]. }
  apply elem_of_cons in Hk as [->|Hk].
  { destruct (find "p" piece); rewrite ?set_artists_other by done;
      intros ?; eapply Hheader; [done|set_solver|done|set_solver]. }
  apply elem_of_cons in Hk as [->|Hk]; [|by apply elem_of_nil in Hk].
  destruct (find "p" piece); [by apply set_artists_trimmed|by rewrite Hnone].
Qed.

Lemma set_actors_may_set actorsTag d :
  may_set "actors" trimmed_list d (set_actors actorsTag d).
Proof.
  destruct actorsTag as [|t ts]; [by left|].
  right. eexists. split; [by exists (t :: ts)|done].
Qed.

Lemma handle_film_built net fl film_id title s s' :
  film_id ∉ fl ->
  handle_film net fl [("film_id", VStr film_id); ("title", VStr title)] s
  = (Ret tt, s') ->
  exists streamUrl film,
    data s' = data s ++ [VDict film]
    /\ built_by film_fields
         [("film_id", VStr film_id); ("title", VStr title);
          ("streamUrl", streamUrl)] film.
Proof.
  intros Hnew Hrun. unfold handle_film in Hrun. simpl in Hrun.
  apply bind_Ret in Hrun as (i & s0 & [<- ->]%ret_Ret & Hrun).
  rewrite bool_decide_eq_true_2 in Hrun by done. run_inv Hrun.
  pose proof (quiet_Ret _ _ _ _ (quiet_log _ _) Hrun0) as D0.
  pose proof (quiet_Ret _ _ _ _ (quiet_get_or_exit _ _ _) Hrun1) as D1.
  pose proof (quiet_Ret _ _ _ _ (quiet_get_streams _ _) Hrun2) as D2.
  pose proof (quiet_Ret _ _ _ _ (quiet_set_stream_url _ _ _ _) Hrun3) as D3.
  apply set_stream_url_Ret in Hrun3 as ->.
  unfold get_data in Hrun4. simplify_eq. unfold set_data in Hrun.
  simplify_eq. cbn [data snd]. eexists _, _. split.
  { rewrite D3, D2, D1, D0. reflexivity. }
  cbn [built_by film_fields].
  eexists. split; [apply set_if_found_may_set; intros; by eexists|].
  eexists. split; [apply set_actors_may_set|].
  eexists. split; [apply set_if_found_may_set; intros; by eexists|].
  eexists. split; [apply set_if_found_may_set; intros; by eexists|].
  done.
Qed.



(** ** Collapsed text put together *)

Lemma collapsed_words s :
  collapsed s <-> exists ws, Forall word ws /\ s = join [space] ws.
Proof.
  split.
  - intros Hs. exists (split s). split; [apply split_words|done].
  - intros (ws & Hws & ->). unfold collapsed. by rewrite split_join.
Qed.

Lemma join_snoc_cons sep ws : forall w w' ws',
  join sep (ws ++ [w]) ++ join sep (w' :: ws')
  = join sep (ws ++ (w ++ w') :: ws').
Proof.
  induction ws as [|u ws IH]; intros w w' ws'.
  - destruct ws' as [|x ws']; [done|]. simpl. by rewrite <- !app_assoc.
  - change ((u :: ws) ++ [w]) with (u :: (ws ++ [w])).
    change ((u :: ws) ++ (w ++ w') :: ws') with (u :: (ws ++ (w ++ w') :: ws')).
    destruct (ws ++ [w]) as [|y l] eqn:Hl; [by destruct ws|].
    destruct (ws ++ (w ++ w') :: ws') as [|y' l'] eqn:Hl'; [by destruct ws|].
    change (join sep (u :: y :: l)) with (u ++ sep ++ join sep (y :: l)).
    change (join sep (u :: y' :: l')) with (u ++ sep ++ join sep (y' :: l')).
    rewrite <- Hl, <- Hl', <- IH. by rewrite <- !app_assoc.
Qed.

Lemma collapsed_app a b : collapsed a -> collapsed b -> collapsed (a ++ b).
Proof.
  rewrite !collapsed_words. intros (wa & Ha & ->) (wb & Hb & ->).
  destruct wa as [|u wa] using rev_ind; [by exists wb|].
  destruct wb as [|w' wb]; [exists (wa ++ [u]); by rewrite app_nil_r|].
  exists (wa ++ (u ++ w') :: wb). split; [|apply join_snoc_cons].
  apply Forall_app in Ha as [Hwa [[Hu1 Hu2] _]%Forall_cons].
  apply Forall_cons in Hb as [[Hw1 Hw2] Hwb].
  apply Forall_app. split; [done|]. constructor; [|done]. split.
  - by destruct u.
  - by apply Forall_app.
Qed.

Lemma collapsed_concat l : Forall collapsed l -> collapsed (join [] l).
Proof.
  induction 1 as [|p l Hp Hl IH]; [done|].
  destruct l as [|q l]; [done|].
  change (join [] (p :: q :: l)) with (p ++ join [] (q :: l)).
  by apply collapsed_app.
Qed.

Lemma words_ends ws :
  Forall word ws -> ws <> [] ->
  exists c body c', (join [space] ws = c :: body)
    /\ is_space c = false
    /\ (exists front, join [space] ws = front ++ [c']) /\ is_space c' = false.
Proof.
  intros Hws Hne. destruct ws as [|w ws]; [done|]. clear Hne.
  apply Forall_cons in Hws as [[Hw1 Hw2] Hws].
  destruct w as [|c w]; [done|]. apply Forall_cons in Hw2 as [Hc Hw2].
  assert (exists front c', join [space] ((c :: w) :: ws) = front ++ [c']
                           /\ is_space c' = false) as (front & c' & Hj & Hc').
  { clear Hw1. revert c w Hc Hw2. induction Hws as [|w' ws [Hw'1 Hw'2] _ IH]; intros c w Hc Hw2.
    - simpl. destruct w as [|x w] using rev_ind.
      + by exists [], c.
      + exists (c :: w), x. split; [done|].
        apply Forall_app in Hw2 as [_ [? _]%Forall_cons]. done.
    - destruct w' as [|c2 w']; [done|]. apply Forall_cons in Hw'2 as [Hc2 Hw'2].
      destruct (IH c2 w' Hc2 Hw'2) as (front & c' & Hj & Hc').
      exists ((c :: w) ++ [space] ++ front), c'. split; [|done].
      change (join [space] ((c :: w) :: (c2 :: w') :: ws))
        with ((c :: w) ++ [space] ++ join [space] ((c2 :: w') :: ws)).
      rewrite Hj. by rewrite <- !app_assoc. }
  destruct ws as [|w2 ws].
  - exists c, w, c'. simpl. repeat split; try done. by exists front.
  - exists c, (w ++ [space] ++ join [space] (w2 :: ws)), c'.
    repeat split; try done. by exists front.
Qed.

Lemma collapsed_trimmed s : collapsed s -> trimmed s.
Proof.
  intros (ws & Hws & ->)%collapsed_words. unfold trimmed.
  destruct ws as [|w ws]; [done|].
  destruct (words_ends (w :: ws) Hws) as (c & body & c' & Hhead & Hc & [front Hlast] & Hc');
    [done|].
  unfold strip, rstrip.
  assert (lstrip (join [space] (w :: ws)) = join [space] (w :: ws)) as ->.
  { apply lstrip_fixed. by rewrite Hhead. }
  assert (lstrip (rev (join [space] (w :: ws))) = rev (join [space] (w :: ws)))
    as ->.
  { apply lstrip_fixed. rewrite Hlast, rev_app_distr. simpl. done. }
  apply rev_involutive.
Qed.

Lemma description_collapsed l :
  let v := strip (join [] (map extract_text l)) in collapsed v /\ trimmed v.
Proof.
  assert (collapsed (join [] (map extract_text l))) as Hc.
  { apply collapsed_concat, Forall_forall. intros x (n & -> & _)%list_elem_of_fmap.
    apply extract_text_collapsed. }
  cbv zeta. pose proof (collapsed_trimmed _ Hc) as Ht. unfold trimmed in Ht.
  rewrite Ht. split; [done|]. unfold trimmed. by rewrite Ht.
Qed.

(** ** The text fields of a concert record *)

Lemma set_concert_meta_set metaElms d s d' s' :
  set_concert_meta metaElms d s = (Ret d', s') ->
  d' = d
  \/ exists a b t,
       metaElms = [a; b; Text t]
       /\ d' = dict_set "concertMeta"
                 (VStr (unquote (join [space] (split t)))) d.
Proof.
  unfold set_concert_meta. case_bool_decide as Hlen.
  - destruct metaElms as [|a [|b [|c [|x l]]]]; try done. simpl.
    destruct c as [t|]; [|done]. intros [<- _]%ret_Ret. right. by exists a, b, t.
  - intros [<- _]%ret_Ret. by left.
Qed.

(** How [__extract_metadata] puts a record together, step by step. *)
Lemma extract_metadata_Ret net concert_id soup s metaDict s' :
  extract_metadata net concert_id soup s = (Ret metaDict, s') ->
  exists concertMetaTag date rest d1 mainArtistTag d2 pieces,
    select_one (Simple (Sel "p" (Class (lit "concertMeta")))) soup
    = Some concertMetaTag
    /\ contents_of concertMetaTag = Text date :: rest
    /\ (let d0 :=
          dict_set "concertDate"
            (VStr (strip (replace [ndash] [hyphen] date)))
            (set_if_found "concertProgrammeGuide"
               (select_one (Simple (Sel "div" (Id (lit "tabs-1")))) soup)
               (fun t => VStr (strip (unquote (text t))))
               (set_if_found "concertProgramme"
                  (select_one
                     (Simple (Sel "div" (AttrIs "itemprop" (lit "description"))))
                     soup)
                  (fun t => VStr (strip (unquote (text t))))
                  (set_if_found "concertTitle"
                     (select_one
                        (Simple (Sel "h1" (AttrIs "itemprop" (lit "name"))))
                        soup)
                     (fun t => VStr (strip (unquote (text t))))
                     [("concertId", VStr concert_id)]))) in
        d1 = d0
        \/ exists a b t,
             contents_of concertMetaTag = [a; b; Text t]
             /\ d1 = dict_set "concertMeta"
                       (VStr (unquote (join [space] (split t)))) d0)
    /\ select_one (Simple (Sel "p" (Class (lit "mainArtist")))) soup
       = Some mainArtistTag
    /\ may_set "conductor" extracted
         (set_main_artist (contents_of mainArtistTag) d1) d2
    /\ metaDict
       = dict_set "pieces" (VList (map VDict pieces))
           (set_if_found "support"
              (select_one (Simple (Sel "div" (Id (lit "concert-support")))) soup)
              (fun t => VStr (strip (text t)))
              (set_star_artists
                 (select (Descendant (Sel "p" (Class (lit "starArtist")))
                            (Sel "span" (AttrIs "itemprop" (lit "name")))) soup)
                 d2)).
Proof.
  unfold extract_metadata. intros Hrun.
  apply bind_Ret in Hrun as ([] & s0 & _ & Hrun).
  apply bind_Ret in Hrun as (streams & s1 & _ & Hrun).
  apply bind_Ret in Hrun as (concertMetaTag & s2 & [Htag _]%or_raise_Ret & Hrun).
  apply bind_Ret in Hrun as (first & s3 & [Hfirst _]%or_raise_Ret & Hrun).
  apply bind_Ret in Hrun as (date & s4 & Hdate & Hrun).
  apply bind_Ret in Hrun as (d1 & s5 & Hmeta%set_concert_meta_set & Hrun).
  apply bind_Ret in Hrun as (mainArtistTag & s6 & [Hmain _]%or_raise_Ret & Hrun).
  apply bind_Ret in Hrun as (d2 & s7 & Hcond%set_conductor_Ret & Hrun).
  apply bind_Ret in Hrun as (pieces & s8 & _ & Hrun).
  apply ret_Ret in Hrun as [<- _].
  destruct first as [text0|nm attrs cs]; [|done].
  apply ret_Ret in Hdate as [<- _].
  destruct (contents_of concertMetaTag) as [|x rest] eqn:Hcontents; [done|].
  injection Hfirst as ->.
  exists concertMetaTag, text0, rest, d1, mainArtistTag, d2, pieces.
  split; [done|]. split; [done|]. split; [|done].
  cbv zeta. rewrite Hcontents. exact Hmeta.
Qed.

Lemma scan_headers_description headers : forall d v,
  dict_get "description" (scan_headers headers d) = Some v ->
  dict_get "description" d = Some v
  \/ exists l, v = VStr (strip (join [] (map extract_text l))).
Proof.
  induction headers as [|tag rest IH]; intros d v; simpl; [by left|].
  destruct (named "strong" tag).
  - intros [Hd|Hl]%IH; [|by right]. left. by rewrite dict_get_set_ne in Hd.
  - destruct (named "br" tag); [|apply IH].
    rewrite dict_get_set_eq. intros [= <-]. right. by eexists.
Qed.

Lemma extract_piece_description streams piece s pieceDict s' v :
  extract_piece streams piece s = (Ret pieceDict, s') ->
  dict_get "description" pieceDict = Some v ->
  exists l, v = VStr (strip (join [] (map extract_text l))).
Proof.
  intros (work & id & h2 & _ & _ & _ & ->)%extract_piece_Ret. simpl.
  assert (dict_get "description"
            (set_header (contents_of h2)
               (dict_set "streamUrl" (VStr (resolved id streams))
                  [("pieceId", VStr id)])) = Some v ->
          exists l, v = VStr (strip (join [] (map extract_text l)))) as Hheader.
  { unfold set_header. destruct (_ && _).
    - rewrite dict_get_set_eq. intros [= <-]. by eexists.
    - intros [Hd|Hl]%scan_headers_description; done. }
  destruct (find "p" piece); rewrite ?set_artists_other by done; exact Hheader.
Qed.

Ltac peel_record Hget Hcond :=
  rewrite dict_get_set_ne, set_if_found_other in Hget by done;
  rewrite (may_set_other _ _ _ _ _ (set_star_artists_may_set _ _)) in Hget
    by done;
  rewrite (may_set_other _ _ _ _ _ Hcond) in Hget by done;
  rewrite (may_set_other _ _ _ _ _ (set_main_artist_may_set _ _)) in Hget
    by done.

Lemma quoted_field_value net concert_id soup s metaDict s' k sel v :
  extract_metadata net concert_id soup s = (Ret metaDict, s') ->
  (k, sel) ∈ quoted_fields ->
  dict_get k metaDict = Some (VStr v) ->
  exists tag, select_one sel soup = Some tag
              /\ v = strip (map ascii_quote (text tag)).
Proof.
  intros Hrun Hk Hget.
  destruct (extract_metadata_Ret _ _ _ _ _ _ Hrun)
    as (tag & date & rest & d1 & mtag & d2 & pieces
        & Htag & Hc & Hd1 & Hmain & Hcond & ->).
  assert (forall tag0 : node,
            strip (unquote (text tag0)) = strip (map ascii_quote (text tag0)))
    as Hq by (intros; unfold unquote; by rewrite replace_char).
  unfold quoted_fields in Hk.
  repeat (apply elem_of_cons in Hk as [[= -> ->]|Hk]);
    [| | |by apply elem_of_nil in Hk];
    peel_record Hget Hcond;
    (destruct Hd1 as [->|(a & b & t & _ & ->)];
     [|rewrite dict_get_set_ne in Hget by done]);
    rewrite dict_get_set_ne in Hget by done;
    rewrite ?set_if_found_other in Hget by done;
    match type of Hget with
    | dict_get _ (set_if_found _ ?x _ _) = _ =>
        destruct x as [tag0|] eqn:Hsel; cbn [set_if_found] in Hget;
        [rewrite dict_get_set_eq in Hget; injection Hget as <-;
         exists tag0; by rewrite Hq
        |rewrite ?set_if_found_other in Hget by done; done]
    end.
Qed.

Lemma date_field_value net concert_id soup s metaDict s' v :
  extract_metadata net concert_id soup s = (Ret metaDict, s') ->
  dict_get "concertDate" metaDict = Some (VStr v) ->
  exists tag date rest,
    select_one (Simple (Sel "p" (Class (lit "concertMeta")))) soup = Some tag
    /\ contents_of tag = Text date :: rest
    /\ v = strip (map ascii_dash date).
Proof.
  intros Hrun Hget.
  destruct (extract_metadata_Ret _ _ _ _ _ _ Hrun)
    as (tag & date & rest & d1 & mtag & d2 & pieces
        & Htag & Hc & Hd1 & Hmain & Hcond & ->).
  peel_record Hget Hcond.
  destruct Hd1 as [->|(a & b & t & _ & ->)];
    [|rewrite dict_get_set_ne in Hget by done];
    rewrite dict_get_set_eq in Hget; injection Hget as <-;
    exists tag, date, rest;
    change (replace_from [ndash] [hyphen] 0 date)
      with (replace [ndash] [hyphen] date);
    by rewrite replace_char.
Qed.

Lemma meta_field_value net concert_id soup s metaDict s' v :
  extract_metadata net concert_id soup s = (Ret metaDict, s') ->
  dict_get "concertMeta" metaDict = Some (VStr v) ->
  exists tag a b t,
    select_one (Simple (Sel "p" (Class (lit "concertMeta")))) soup = Some tag
    /\ contents_of tag = [a; b; Text t]
    /\ v = map ascii_quote (join [space] (split t)).
Proof.
  intros Hrun Hget.
  destruct (extract_metadata_Ret _ _ _ _ _ _ Hrun)
    as (tag & date & rest & d1 & mtag & d2 & pieces
        & Htag & Hc & Hd1 & Hmain & Hcond & ->).
  peel_record Hget Hcond.
  destruct Hd1 as [->|(a & b & t & Habt & ->)].
  - rewrite dict_get_set_ne, !set_if_found_other in Hget by done. done.
  - rewrite dict_get_set_eq in Hget. injection Hget as <-.
    exists tag, a, b, t. unfold unquote. by rewrite replace_char.
Qed.

(** C7, as the code has it. Normalisation is per field. In a concert record
    [concertTitle], [concertProgramme] and [concertProgrammeGuide] are the
    text of their tag with every U+2019 turned into an apostrophe, trimmed;
    [concertDate] is the first text of [p.concertMeta] with every U+2013
    turned into a hyphen, trimmed; [concertMeta] is its third text with the
    whitespace collapsed and every U+2019 turned into an apostrophe;
    [mainArtist] and [support] are trimmed; [conductor] and every entry of
    [starArtists] have their whitespace collapsed; in every piece the
    description has its whitespace collapsed, and the composer and every
    role and name under [artists] are trimmed. The [season] label of a
    season record is the index label with every U+2013 turned into a
    hyphen. In a film record [title] is the index title as it stands, and
    [subtitle], [description], [credits] and every entry of [actors] are
    trimmed. *)
Theorem text_fields_normalised net :
  (forall concert_id soup s metaDict s',
      extract_metadata net concert_id soup s = (Ret metaDict, s') ->
      (forall k sel v,
          (k, sel) ∈ quoted_fields ->
          dict_get k metaDict = Some (VStr v) ->
          (exists tag, select_one sel soup = Some tag
                       /\ v = strip (map ascii_quote (text tag)))
          /\ trimmed v /\ rsquo ∉ v)
      /\ (forall v, dict_get "concertDate" metaDict = Some (VStr v) ->
            (exists tag date rest,
                select_one (Simple (Sel "p" (Class (lit "concertMeta")))) soup
                = Some tag
                /\ contents_of tag = Text date :: rest
                /\ v = strip (map ascii_dash date))
            /\ trimmed v /\ ndash ∉ v)
      /\ (forall v, dict_get "concertMeta" metaDict = Some (VStr v) ->
            (exists tag a b t,
                select_one (Simple (Sel "p" (Class (lit "concertMeta")))) soup
                = Some tag
                /\ contents_of tag = [a; b; Text t]
                /\ v = map ascii_quote (join [space] (split t)))
            /\ collapsed v /\ rsquo ∉ v)
      /\ (forall k v, k ∈ ["mainArtist"; "support"] ->
            dict_get k metaDict = Some (VStr v) -> trimmed v)
      /\ (forall v, dict_get "conductor" metaDict = Some (VStr v) ->
            collapsed v)
      /\ (forall vs v, dict_get "starArtists" metaDict = Some (VList vs) ->
            VStr v ∈ vs -> collapsed v)
      /\ (forall pieces pieceDict,
            dict_get "pieces" metaDict = Some (VList pieces) ->
            VDict pieceDict ∈ pieces ->
            (forall k v, k ∈ ["composer"; "description"; "artists"] ->
                         dict_get k pieceDict = Some v ->
                         Forall trimmed (leaves v))
            /\ (forall v, dict_get "description" pieceDict = Some v ->
                  exists text, v = VStr text /\ collapsed text)))
  /\ (forall concert_id_list ss s s',
        handle_season net concert_id_list ss s = (Ret tt, s') ->
        exists season_dict,
          data s' = data s ++ [VDict season_dict]
          /\ dict_get "season" season_dict
             = Some (VStr (map ascii_dash (season_label ss)))
          /\ ndash ∉ map ascii_dash (season_label ss))
  /\ (forall film_id_list film_id title s s',
        film_id ∉ film_id_list ->
        handle_film net film_id_list
          [("film_id", VStr film_id); ("title", VStr title)] s
        = (Ret tt, s') ->
        exists film,
          data s' = data s ++ [VDict film]
          /\ dict_get "title" film = Some (VStr title)
          /\ forall k v, k ∈ ["subtitle"; "actors"; "description"; "credits"] ->
                         dict_get k film = Some v ->
                         Forall trimmed (leaves v)).
Proof.
  split; [|split].
  - intros concert_id soup s metaDict s' Hrun.
    pose proof (fun key shape v Hin =>
                  concert_field key shape _ _ _ _ _ _ v Hrun Hin) as Hfield.
    split; [|split; [|split; [|split; [|split; [|split]]]]].
    + intros k sel v Hk Hget.
      destruct (quoted_field_value _ _ _ _ _ _ _ _ _ Hrun Hk Hget)
        as (tag & Hsel & ->).
      split; [by exists tag|]. split; [apply strip_trimmed|].
      intros Hin%strip_subset.
      apply (replace_char_gone rsquo apostrophe (text tag)); [by vm_compute|].
      by rewrite replace_char.
    + intros v Hget.
      destruct (date_field_value _ _ _ _ _ _ _ Hrun Hget)
        as (tag & date & rest & Hsel & Hc & ->).
      split; [by exists tag, date, rest|]. split; [apply strip_trimmed|].
      intros Hin%strip_subset.
      apply (replace_char_gone ndash hyphen date); [by vm_compute|].
      by rewrite replace_char.
    + intros v Hget.
      destruct (meta_field_value _ _ _ _ _ _ _ Hrun Hget)
        as (tag & a & b & t & Hsel & Hc & ->).
      split; [by exists tag, a, b, t|].
      change (map ascii_quote (join [space] (split t)))
        with (map (fun c => if (rsquo =? c)%N then apostrophe else c)
                (join [space] (split t))).
      rewrite <- replace_char. fold (unquote (join [space] (split t))).
      split; [|apply unquote_gone]. apply unquote_collapsed.
      unfold collapsed. by rewrite split_join by apply split_words.
    + intros k v Hk Hget.
      eapply (Hfield k just_trimmed) in Hget as [t [= ->]].
      * apply strip_trimmed.
      * unfold concert_fields. set_solver.
    + intros v Hget. eapply (Hfield _ extracted) in Hget as [t [= ->]].
      * apply extract_text_collapsed.
      * unfold concert_fields. set_solver.
    + intros vs v Hget Hin.
      eapply (Hfield _ extracted_list) in Hget as [ts [= ->]].
      * apply list_elem_of_fmap in Hin as (t & [= ->] & _).
        apply extract_text_collapsed.
      * unfold concert_fields. set_solver.
    + intros pieces pieceDict Hget Hin.
      unfold extract_metadata in Hrun. run_inv Hrun.
      apply ret_Ret in Hrun as [<- _].
      rewrite dict_get_set_eq in Hget. injection Hget as <-.
      apply list_elem_of_fmap in Hin as (pd & [= <-] & Hpd).
      eapply (map_m_Forall _ (fun pd =>
                 (forall k v,
                     k ∈ ["composer"; "description"; "artists"] ->
                     dict_get k pd = Some v -> Forall trimmed (leaves v))
                 /\ (forall v, dict_get "description" pd = Some v ->
                       exists text, v = VStr text /\ collapsed text)))
        in Hrun8.
      * rewrite Forall_forall in Hrun8. by eapply Hrun8.
      * intros x sx y sy _ Hx. split.
        -- intros k' v' Hk' Hv'. by eapply extract_piece_trimmed.
        -- intros v' Hv'.
           destruct (extract_piece_description _ _ _ _ _ _ Hx Hv') as [l ->].
           eexists. split; [done|]. apply description_collapsed.
  - intros cl ss s s' Hrun.
    apply handle_season_Ret in Hrun as (ids & sd & _ & Hdata & _ & d & -> & Hd).
    exists d. split; [done|]. rewrite replace_char in Hd. split; [done|].
    intros Hin.
    apply (replace_char_gone ndash hyphen (season_label ss)); [by vm_compute|].
    by rewrite replace_char.
  - intros fl film_id title s s' Hnew Hrun.
    destruct (handle_film_built _ _ _ _ _ _ Hnew Hrun)
      as (u & film & Hdata & Hbuilt).
    exists film. split; [done|]. split.
    { rewrite (built_by_other "title" _ _ _ Hbuilt); [done|].
      unfold film_fields. simpl. set_solver. }
    intros k v Hk Hget.
    assert (NoDup (map fst film_fields)) as Hnd.
    { unfold film_fields. simpl. repeat (constructor; [set_solver|]).
      constructor. }
    assert (forall shape, (k, shape) ∈ film_fields -> shape v) as Hshape.
    { intros shape Hin. eapply built_by_own; try done.
      unfold film_fields in Hin.
      repeat (apply elem_of_cons in Hin as [[= -> _]|Hin]; [done|]).
      by apply elem_of_nil in Hin. }
    repeat (apply elem_of_cons in Hk as [->|Hk]).
    + destruct (Hshape just_trimmed) as [t ->];
        [unfold film_fields; set_solver|].
      repeat constructor. apply strip_trimmed.
    + destruct (Hshape trimmed_list) as [ts ->];
        [unfold film_fields; set_solver|].
      simpl. clear. induction ts; simpl; constructor; [apply strip_trimmed|done].
    + destruct (Hshape just_trimmed) as [t ->];
        [unfold film_fields; set_solver|].
      repeat constructor. apply strip_trimmed.
    + destruct (Hshape just_trimmed) as [t ->];
        [unfold film_fields; set_solver|].
      repeat constructor. apply strip_trimmed.
    + by apply elem_of_nil in Hk.
Qed.

(** C7, as the spec states it, fails on the sample concert page: the title
    keeps its double space and its en dash. *)
Lemma title_not_normalised :
  returned (extract_metadata sample_net (lit "51") sample_concert_page start)
    ≫= dict_get "concertTitle"
  = Some (VStr (lit "Ein  deutsches " ++ [ndash] ++ lit " Requiem"))
  /\ ~ collapsed (lit "Ein  deutsches " ++ [ndash] ++ lit " Requiem")
  /\ ndash ∈ lit "Ein  deutsches " ++ [ndash] ++ lit " Requiem"
  /\ ~ tidy (lit "Ein  deutsches " ++ [ndash] ++ lit " Requiem").
Proof.
  assert (~ collapsed (lit "Ein  deutsches " ++ [ndash] ++ lit " Requiem"))
    as Hnot by (unfold collapsed; vm_compute; discriminate).
  split; [by vm_compute|]. split; [done|]. split.
  - apply (bool_decide_unpack _). by vm_compute.
  - by intros [? _].
Qed.

(** ** One record per listing entry *)

Lemma run_Ret (crawl : M unit) out_name s s' :
  bind crawl
    (fun _ => log INFO (lit "Writing to file...") ;;
              write_output out_name ;;
              log INFO (lit "Done"))%run s = (Ret tt, s') ->
  exists s1,
    crawl s = (Ret tt, s1)
    /\ data s' = data s1
    /\ Dump (out_name ++ lit ".json") (data s') ∈ trace s'.
Proof.
  intros Hrun. pose proof Hrun as Hrun'.
  apply bind_Ret in Hrun' as ([] & s1 & Hcrawl & _).
  erewrite run_completed in Hrun by done. injection Hrun as <-.
  exists s1. simpl. repeat split; try done. set_solver.
Qed.

(** C9, as the code has it. The seen-set is the only filter: the batch of a
    completed run holds one record per catalog entry whose identifier is
    not in the seen-set, in catalog order. So no identifier of the seen-set
    is in the batch, and the identifiers of the batch are pairwise distinct
    when those of the catalog are. *)
Theorem batch_follows_catalog net concert_id_list film_id_list :
  (forall s s',
      scrape_seasons net concert_id_list s = (Ret tt, s') ->
      exists body seasons_dict listings,
        seasons_endpoint net = Received body
        /\ body_json body = Some seasons_dict
        /\ Forall2 (fun ss ids => season_listing net ss = Some ids)
             (items seasons_dict) listings
        /\ Dump (lit "seasons.json") (data s') ∈ trace s'
        /\ batch_concert_ids (data s')
           = filter (fun i => i ∉ concert_id_list) (concat listings)
        /\ (forall i, i ∈ concert_id_list -> i ∉ batch_concert_ids (data s'))
        /\ (NoDup (concat listings) -> NoDup (batch_concert_ids (data s'))))
  /\ (forall s s',
      scrape_films net film_id_list s = (Ret tt, s') ->
      exists soup ids,
        films_page net = Received soup
        /\ listed_film_ids soup = Some ids
        /\ Dump (lit "films.json") (data s') ∈ trace s'
        /\ batch_film_ids (data s') = filter (fun i => i ∉ film_id_list) ids
        /\ (forall i, i ∈ film_id_list -> i ∉ batch_film_ids (data s'))
        /\ (NoDup ids -> NoDup (batch_film_ids (data s')))).
Proof.
  split; intros s s' Hrun.
  - rewrite scrape_seasons_split in Hrun.
    apply run_Ret in Hrun as (s1 & Hcrawl & Hdata & Hdump).
    apply seasons_crawl_Ret in Hcrawl
      as (body & sd & listings & Hnet & Hjson & Hall & Hbatch).
    rewrite <- Hdata in Hbatch.
    exists body, sd, listings. repeat (split; [done|]). split.
    + intros i Hi. rewrite Hbatch, list_elem_of_filter. tauto.
    + intros Hnd. rewrite Hbatch. by apply NoDup_filter.
  - rewrite scrape_films_split in Hrun.
    apply run_Ret in Hrun as (s1 & Hcrawl & Hdata & Hdump).
    apply films_crawl_Ret in Hcrawl as (soup & ids & Hnet & Hids & Hbatch).
    rewrite <- Hdata in Hbatch.
    exists soup, ids. repeat (split; [done|]). split.
    + intros i Hi. rewrite Hbatch, list_elem_of_filter. tauto.
    + intros Hnd. rewrite Hbatch. by apply NoDup_filter.
Qed.

(** C9, as the spec states it, fails on the sample provider: the film index
    lists film 7 twice, the seen-set is empty, and the batch written to
    [films.json] holds two records for film 7. *)
Lemma listed_twice_recorded_twice :
  let r := scrape_films sample_net [] start in
  r.1 = Ret tt
  /\ trace r.2 !! 18%nat = Some (Dump (lit "films.json") (data r.2))
  /\ batch_film_ids (data r.2) = [lit "7"; lit "7"]
  /\ ~ NoDup (batch_film_ids (data r.2)).
Proof.
  assert (batch_film_ids (data (scrape_films sample_net [] start).2)
          = [lit "7"; lit "7"]) as Hids by (by vm_compute).
  cbv zeta. split; [by vm_compute|]. split; [by vm_compute|]. split; [done|].
  rewrite Hids. intros Hnd. apply NoDup_cons in Hnd as [Hnot _].
  apply Hnot. left.
Qed.

(** * The theorems on the sample provider *)

Lemma get_seasons_count_mismatch_sample :
  exists msg,
    get_seasons sample_net start
    = (Ret [sample_season],
       State [] ([] ++ [Log DEBUG (lit "Getting seasons..."); Fetch ReqSeasons;
                        Log WARNING msg])).
Proof.
  apply (get_seasons_count_mismatch sample_net
           (JsonBody [] (Some (SeasonsDict 2 [sample_season])))
           (SeasonsDict 2 [sample_season]) start).
  - reflexivity.
  - reflexivity.
  - vm_compute. discriminate.
Defined.

(** The round trip of the spec: the mock envelope resolves to
    [{"42": "https://x/a"}]. *)
Lemma get_streams_mock :
  exists manifest_dict s',
    get_streams sample_net (lit "51") start = (Ret manifest_dict, s')
    /\ dict_keys manifest_dict = [lit "42"]
    /\ dict_get (lit "42") manifest_dict = Some (lit "https://x/a").
Proof.
  destruct (get_streams_first_candidate sample_net (lit "51")
              (JsonBody [] (Some mock_envelope)) mock_envelope start)
    as (manifest_dict & s' & Hrun & Hkeys & Hget).
  - reflexivity.
  - reflexivity.
  - reflexivity.
  - vm_compute. repeat constructor. apply not_elem_of_nil.
  - vm_compute. repeat constructor. discriminate.
  - exists manifest_dict, s'. split; [exact Hrun|]. split; [exact Hkeys|].
    destruct (Hget (lit "42") _ eq_refl) as (first & rest & Hv & ->).
    injection Hv as <- _. reflexivity.
Defined.

Lemma stream_url_always_present_sample :
  (exists streams s1 s2 pieces,
      get_streams sample_net (lit "51") s1 = (Ret streams, s2)
      /\ dict_get "pieces" sample_concert = Some (VList (map VDict pieces))
      /\ Forall (fun pieceDict =>
                   exists id,
                     dict_get "pieceId" pieceDict = Some (VStr id)
                     /\ dict_get "streamUrl" pieceDict
                        = Some (VStr (resolved id streams))) pieces)
  /\ (exists streams s1 s2 film,
        get_streams sample_net (lit "7") s1 = (Ret streams, s2)
        /\ data (handle_film sample_net [] sample_film start).2
           = data start ++ [VDict film]
        /\ dict_get "streamUrl" film = Some (VStr (resolved (lit "7") streams))).
Proof.
  split.
  - apply (proj1 (stream_url_always_present sample_net) (lit "51")
             sample_concert_page start sample_concert
             (extract_metadata sample_net (lit "51") sample_concert_page
                start).2).
    vm_compute. reflexivity.
  - apply (proj2 (stream_url_always_present sample_net) [] sample_film
             (lit "7") start).
    + reflexivity.
    + apply not_elem_of_nil.
    + vm_compute. reflexivity.
Defined.

Lemma seen_concert_skipped_sample :
  exists evs,
    trace (scrape_seasons sample_net [lit "51"] start).2 = trace start ++ evs
    /\ (Fetch (ReqConcert (lit "51")) ∉ evs)
    /\ (Fetch (ReqStreams (lit "51")) ∉ evs)
    /\ forall out_name batch,
         Dump out_name batch ∈ evs -> lit "51" ∉ batch_concert_ids batch.
Proof.
  apply (seen_concert_skipped sample_net [lit "51"] (lit "51") start). left.
Defined.

Lemma bare_name_no_artists_sample :
  dict_get "artists" (piece_record bare_piece) = None.
Proof.
  apply (bare_name_no_artists sample_streams bare_piece start
           (piece_record bare_piece)
           (extract_piece sample_streams bare_piece start).2
           bare_artists [Text (lit "Some Name")]).
  - vm_compute. reflexivity.
  - reflexivity.
  - vm_compute. reflexivity.
  - repeat constructor.
Defined.

Lemma artists_folded_by_role_sample :
  dict_get "artists" (piece_record typical_piece)
  = Some (VList [VDict [("role", VStr (lit "soprano"));
                        ("names", VList [VStr (lit "Anna");
                                         VStr (lit "Berta")])]]).
Proof.
  destruct (artists_folded_by_role sample_streams typical_piece start
              (piece_record typical_piece)
              (extract_piece sample_streams typical_piece start).2
              typical_artists) as (_ & _ & _ & _ & Htwo).
  - vm_compute. reflexivity.
  - reflexivity.
  - apply (Htwo (Artist (lit "soprano") (lit "Anna"))
                (Artist (lit "soprano") (lit "Berta"))).
    + vm_compute. reflexivity.
    + reflexivity.
Defined.

Lemma header_description_sample :
  dict_get "composer" (piece_record atypical_piece) = None
  /\ dict_get "description" (piece_record atypical_piece)
     = Some (VStr (strip (join [] (map extract_text (contents_of atypical_h2))))).
Proof.
  destruct (header_description sample_streams atypical_piece start
              (piece_record atypical_piece)
              (extract_piece sample_streams atypical_piece start).2
              atypical_h2) as [Hfallback _].
  - vm_compute. reflexivity.
  - reflexivity.
  - apply Hfallback. repeat constructor.
Defined.

Lemma text_fields_normalised_sample :
  (exists tag date rest,
      select_one (Simple (Sel "p" (Class (lit "concertMeta"))))
        sample_concert_page = Some tag
      /\ contents_of tag = Text date :: rest
      /\ lit "1 Feb 2020 - 20:00" = strip (map ascii_dash date))
  /\ trimmed (lit "1 Feb 2020 - 20:00") /\ ndash ∉ lit "1 Feb 2020 - 20:00".
Proof.
  destruct (proj1 (text_fields_normalised sample_net) (lit "51")
              sample_concert_page start sample_concert
              (extract_metadata sample_net (lit "51") sample_concert_page
                 start).2) as (_ & Hdate & _).
  - vm_compute. reflexivity.
  - apply Hdate. vm_compute. reflexivity.
Defined.

Lemma stream_failure_is_fatal_sample :
  let run := scrape_seasons refusing_net [] in
  (run start).1 = Exit (-1)
  /\ exit_status (run start).1 = 255%Z
  /\ (forall out_name batch, Dump out_name batch ∉ trace (run start).2)
  /\ ends_with_report refusing_net (lit "51") (trace (run start).2).
Proof.
  apply (stream_failure_is_fatal refusing_net [] [] (lit "51")
           (scrape_seasons refusing_net []) start
           (trace (scrape_seasons refusing_net [] start).2)).
  - apply (fails_refused _ (UrlsDict false (Some (lit "denied")) [])
             (lit "denied")); reflexivity.
  - left. reflexivity.
  - reflexivity.
  - apply list_elem_of_lookup_2 with 9%nat. vm_compute. reflexivity.
Defined.

Lemma batch_follows_catalog_sample :
  let s' := (scrape_films sample_net [lit "7"] start).2 in
  exists soup ids,
    films_page sample_net = Received soup
    /\ listed_film_ids soup = Some ids
    /\ Dump (lit "films.json") (data s') ∈ trace s'
    /\ batch_film_ids (data s') = filter (fun i => i ∉ [lit "7"]) ids
    /\ (forall i, i ∈ [lit "7"] -> i ∉ batch_film_ids (data s'))
    /\ (NoDup ids -> NoDup (batch_film_ids (data s'))).
Proof.
  apply (proj2 (batch_follows_catalog sample_net [] [lit "7"]) start).
  vm_compute. reflexivity.
Defined.

(** * Further properties of the scraper *)

(** ** Every failure is fatal, and nothing else is *)

Lemma ends_in_error_app a b : ends_in_error b -> ends_in_error (a ++ b).
Proof.
  intros (earlier & msg & ->). exists (a ++ earlier), msg.
  by rewrite <- app_assoc.
Qed.

Lemma fatal_fetch net r : fatal net (Fetch r) -> request_failed net r.
Proof. intros [[msg [=]]|(r' & [= <-] & Hr)]. done. Qed.

Lemma not_fatal_log net lvl msg : lvl <> ERROR -> ~ fatal net (Log lvl msg).
Proof. intros Hlvl [[msg' [= -> _]]|(r & [=] & _)]. done. Qed.

Lemma not_fatal_sleep net lo hi : ~ fatal net (Sleep lo hi).
Proof. intros [[msg [=]]|(r & [=] & _)]. Qed.

Lemma fail_fast_silent net {A} (m : M A) :
  (forall s, (m s).2 = s) -> (forall s c, (m s).1 <> Exit c) ->
  fail_fast net m.
Proof.
  intros Hstate Hexit s. exists []. rewrite Hstate, app_nil_r.
  split; [done|]. split; [constructor|]. split.
  - by intros ?%Exists_nil.
  - intros c Hc. by destruct (Hexit s c).
Qed.

Lemma fail_fast_ret net {A} (a : A) : fail_fast net (ret a).
Proof. by apply fail_fast_silent. Qed.

Lemma fail_fast_raise net {A} e : fail_fast net (@raise A e).
Proof. by apply fail_fast_silent. Qed.

Lemma fail_fast_or_raise net {A} e (x : option A) :
  fail_fast net (or_raise e x).
Proof. apply fail_fast_silent; by destruct x. Qed.

Lemma fail_fast_get_data net : fail_fast net get_data.
Proof. by apply fail_fast_silent. Qed.

Lemma fail_fast_set_data net d : fail_fast net (set_data d).
Proof.
  intros s. exists []. rewrite app_nil_r. split; [done|].
  split; [constructor|]. split; [by intros ?%Exists_nil|done].
Qed.

Lemma fail_fast_log net lvl msg : lvl <> ERROR -> fail_fast net (log lvl msg).
Proof.
  intros Hlvl s. exists [Log lvl msg]. split; [done|]. split.
  - by repeat constructor.
  - split; [|done].
    intros [?%not_fatal_log|?%Exists_nil]%Exists_cons; done.
Qed.

Lemma fail_fast_sleep net lo hi : fail_fast net (sleep lo hi).
Proof.
  intros s. exists [Sleep lo hi]. split; [done|]. split.
  - by repeat constructor.
  - split; [|done].
    intros [?%not_fatal_sleep|?%Exists_nil]%Exists_cons; done.
Qed.

Lemma dies_error {A} msg : dies (log ERROR msg ;; @sys_exit A (-1))%run.
Proof.
  intros s. exists [Log ERROR msg]. split; [done|]. split.
  - by repeat constructor.
  - split; [done|]. by exists [], msg.
Qed.

Lemma dies_fail_fast net {A} (m : M A) :
  dies m ->
  (forall s evs, trace (m s).2 = trace s ++ evs -> Exists (fatal net) evs) ->
  fail_fast net m.
Proof.
  intros Hdies Hfatal s. destruct (Hdies s) as (evs & Htr & HP & Hexit & Hend).
  exists evs. split; [done|]. split; [done|]. split; [done|].
  intros c _. by eapply Hfatal.
Qed.

Lemma fail_fast_die net {A} msg :
  fail_fast net (log ERROR msg ;; @sys_exit A (-1))%run.
Proof.
  apply dies_fail_fast; [apply dies_error|].
  intros s evs Htr. simpl in Htr. apply app_inv_head in Htr as <-.
  left. left. by exists msg.
Qed.

Lemma fail_fast_bind net {A B} (m : M A) (k : A -> M B) :
  fail_fast net m -> (forall a, fail_fast net (k a)) ->
  fail_fast net (bind m k).
Proof.
  intros Hm Hk s. destruct (Hm s) as (evs1 & Htr1 & HP1 & HT1 & HE1).
  unfold bind. destruct (m s) as [[a|c|e] s1] eqn:Hms; simpl in *.
  - destruct (Hk a s1) as (evs2 & Htr2 & HP2 & HT2 & HE2).
    exists (evs1 ++ evs2). rewrite Htr2, Htr1, app_assoc.
    split; [done|]. split; [by apply Forall_app|]. split.
    + intros [H1|H2]%Exists_app.
      * by destruct (HT1 H1).
      * destruct (HT2 H2). split; [done|]. by apply ends_in_error_app.
    + intros c Hc. apply Exists_app. right. by eapply HE2.
  - exists evs1. split; [done|]. split; [done|]. split.
    + intros [[= ->] ?]%HT1. done.
    + intros c' _. by eapply HE1.
  - exists evs1. split; [done|]. split; [done|]. split.
    + by intros [? ?]%HT1.
    + done.
Qed.

(** A fetch and what follows: when the response arrived but the request
    still counts as failed, what follows has to die. *)
Lemma fail_fast_fetch net {A B} what req (resp : response A) (k : A -> M B) :
  (forall a, resp = Received a -> request_failed net req -> dies (k a)) ->
  (forall a, resp = Received a -> fail_fast net (k a)) ->
  fail_fast net (bind (get_or_exit what req resp) k).
Proof.
  intros Hdies Hk s. unfold get_or_exit, bind, emit, log, sys_exit.
  destruct resp as [e|e| |e|a]; cbn -[lit app];
    try (eexists [Fetch req; Log ERROR _]; rewrite <- app_assoc;
         split; [done|]; split; [by repeat constructor|];
         split; [intros _; split; [done|]; by eexists [_], _|];
         intros c _; right; left; left; by eexists).
  destruct (Hk a eq_refl (State (data s) (trace s ++ [Fetch req])))
    as (evs & Htr & HP & HT & HE). simpl in Htr.
  exists (Fetch req :: evs).
  change (trace s ++ Fetch req :: evs) with (trace s ++ [Fetch req] ++ evs).
  rewrite app_assoc. split; [done|]. split; [by constructor|]. split.
  - intros [Hreq%fatal_fetch|Hevs]%Exists_cons.
    + destruct (Hdies a eq_refl Hreq (State (data s) (trace s ++ [Fetch req])))
        as (evs' & Htr' & _ & Hexit & Hend).
      rewrite Htr in Htr'. apply app_inv_head in Htr' as <-.
      split; [done|]. by apply (ends_in_error_app [_]).
    + destruct (HT Hevs). split; [done|]. by apply (ends_in_error_app [_]).
  - intros c Hc. right. by eapply HE.
Qed.

Lemma fail_fast_for_each net {A} (l : list A) (body : A -> M unit) :
  (forall x, fail_fast net (body x)) -> fail_fast net (for_each l body).
Proof.
  intros Hbody. induction l; simpl; [apply fail_fast_ret|].
  apply fail_fast_bind; [done|]. by intros _.
Qed.

Lemma fail_fast_map_m net {A B} (f : A -> M B) l :
  (forall x, fail_fast net (f x)) -> fail_fast net (map_m f l).
Proof.
  intros Hf. induction l; simpl; [apply fail_fast_ret|].
  apply fail_fast_bind; [done|]. intros y.
  apply fail_fast_bind; [done|]. intros ys. apply fail_fast_ret.
Qed.

Ltac fail_fast_walk :=
  repeat first
    [ apply fail_fast_ret
    | apply fail_fast_raise
    | apply fail_fast_or_raise
    | apply fail_fast_get_data
    | apply fail_fast_set_data
    | apply fail_fast_sleep
    | apply fail_fast_log; discriminate
    | apply fail_fast_die
    | match goal with H : _ |- _ => solve [apply H] end
    | apply fail_fast_bind; [|intros]
    | case_match
    | case_bool_decide ].

Lemma fail_fast_page net {A B} what req (resp : response A) (k : A -> M B) :
  (request_failed net req -> no_response resp) ->
  (forall a, fail_fast net (k a)) ->
  fail_fast net (bind (get_or_exit what req resp) k).
Proof.
  intros Hreq Hk. apply fail_fast_fetch; [|done].
  intros a -> Hfail. by destruct (Hreq Hfail).
Qed.

Lemma fail_fast_get_seasons net : fail_fast net (get_seasons net).
Proof.
  unfold get_seasons. apply fail_fast_bind; [fail_fast_walk|intros _].
  apply fail_fast_fetch.
  - intros b Hresp Hfail. simpl in Hfail. rewrite Hresp in Hfail.
    rewrite Hfail. apply dies_error.
  - intros b _. fail_fast_walk.
Qed.

Lemma fail_fast_first_urls net its :
  forall acc, fail_fast net (first_urls its acc).
Proof.
  induction its as [|[k v] its IH]; intros acc; simpl; [fail_fast_walk|].
  destruct v; [fail_fast_walk|apply IH].
Qed.

Lemma fail_fast_get_streams net content_id :
  fail_fast net (get_streams net content_id).
Proof.
  unfold get_streams. apply fail_fast_bind; [fail_fast_walk|intros _].
  apply fail_fast_fetch.
  - intros b Hresp Hfail. simpl in Hfail. rewrite Hresp in Hfail.
    destruct (body_json b) as [u|]; [|apply dies_error].
    destruct Hfail as [-> [m ->]]. cbn -[lit app].
    intros s. destruct (dies_error (A:=dict pystr pystr)
                          (lit "Get streams failed with message: " ++ m) s)
      as (evs & Hrun). by exists evs.
  - intros b _. pose proof (fail_fast_first_urls net). fail_fast_walk.
Qed.

Lemma fail_fast_set_stream_url net kind id streams d :
  fail_fast net (set_stream_url kind id streams d).
Proof. unfold set_stream_url. fail_fast_walk. Qed.

Lemma fail_fast_extract_piece net streams piece :
  fail_fast net (extract_piece streams piece).
Proof.
  unfold extract_piece. pose proof (fail_fast_set_stream_url net).
  fail_fast_walk.
Qed.

Lemma fail_fast_extract_metadata net concert_id soup :
  fail_fast net (extract_metadata net concert_id soup).
Proof.
  unfold extract_metadata, set_concert_meta, set_conductor.
  pose proof (fail_fast_get_streams net).
  repeat first
    [ apply fail_fast_ret
    | apply fail_fast_raise
    | apply fail_fast_or_raise
    | apply fail_fast_log; discriminate
    | match goal with H : _ |- _ => solve [apply H] end
    | apply fail_fast_map_m; intros; apply fail_fast_extract_piece
    | apply fail_fast_bind; [|intros]
    | case_bool_decide
    | match goal with
      | |- fail_fast _ (match ?x with _ => _ end) => destruct x
      end ].
Qed.

Lemma fail_fast_handle_concert net cl concert_id :
  fail_fast net (handle_concert net cl concert_id).
Proof.
  unfold handle_concert. case_bool_decide; [|fail_fast_walk].
  apply fail_fast_bind; [fail_fast_walk|intros _].
  apply fail_fast_page; [done|intros soup].
  pose proof (fail_fast_extract_metadata net). fail_fast_walk.
Qed.

Lemma fail_fast_season_concerts net cl entries :
  forall acc, fail_fast net (season_concerts net cl entries acc).
Proof.
  induction entries as [|e entries IH]; intros acc; simpl; [fail_fast_walk|].
  apply fail_fast_bind; [fail_fast_walk|intros id].
  apply fail_fast_bind; [apply fail_fast_handle_concert|intros d].
  apply fail_fast_bind; [fail_fast_walk|intros _]. apply IH.
Qed.

Lemma fail_fast_handle_season net cl ss :
  fail_fast net (handle_season net cl ss).
Proof.
  unfold handle_season. apply fail_fast_bind; [fail_fast_walk|intros _].
  apply fail_fast_page; [done|intros soup].
  apply fail_fast_bind; [apply fail_fast_season_concerts|intros cs].
  fail_fast_walk.
Qed.

Lemma fail_fast_seasons_crawl net cl : fail_fast net (seasons_crawl net cl).
Proof.
  unfold seasons_crawl. apply fail_fast_bind; [fail_fast_walk|intros _].
  apply fail_fast_bind; [apply fail_fast_get_seasons|intros all_seasons].
  apply fail_fast_for_each. intros ss.
  apply fail_fast_bind; [apply fail_fast_handle_season|intros _].
  fail_fast_walk.
Qed.

Lemma fail_fast_extract_film_data net tag :
  fail_fast net (extract_film_data tag).
Proof. unfold extract_film_data. fail_fast_walk. Qed.

Lemma fail_fast_get_films net : fail_fast net (get_films net).
Proof.
  unfold get_films. apply fail_fast_bind; [fail_fast_walk|intros _].
  apply fail_fast_page; [done|intros soup]. fail_fast_walk.
Qed.

Lemma fail_fast_handle_film net fl film_dict :
  fail_fast net (handle_film net fl film_dict).
Proof.
  unfold handle_film. apply fail_fast_bind; [fail_fast_walk|intros film_id].
  case_bool_decide; [|fail_fast_walk].
  apply fail_fast_bind; [fail_fast_walk|intros _].
  apply fail_fast_page; [done|intros soup].
  apply fail_fast_bind; [apply fail_fast_get_streams|intros streams].
  apply fail_fast_bind; [apply fail_fast_set_stream_url|intros d].
  fail_fast_walk.
Qed.

Lemma fail_fast_films_crawl net fl : fail_fast net (films_crawl net fl).
Proof.
  unfold films_crawl. apply fail_fast_bind; [fail_fast_walk|intros _].
  apply fail_fast_bind; [apply fail_fast_get_films|intros all_films].
  apply fail_fast_for_each. intros tag.
  apply fail_fast_bind; [apply fail_fast_extract_film_data|intros film].
  apply fail_fast_bind; [apply fail_fast_handle_film|intros _].
  fail_fast_walk.
Qed.

Lemma not_dump_filter evs :
  Forall not_dump evs -> filter (fun e => is_dump e = true) evs = [].
Proof.
  induction 1 as [|e evs He _ IH]; [done|].
  rewrite filter_cons_False; [done|].
  destruct e; simpl; try done. intros _. by eapply He.
Qed.

Lemma not_dump_elem evs out_name batch :
  Forall not_dump evs -> Dump out_name batch ∉ evs.
Proof.
  rewrite Forall_forall. intros Hall Hin. by eapply (Hall _ Hin).
Qed.

(** A run is its crawl and then the write: what the crawl's discipline gives
    for the run. *)
Lemma run_discipline net (crawl : M unit) out_name s evs :
  fail_fast net crawl ->
  let run := bind crawl
               (fun _ => log INFO (lit "Writing to file...") ;;
                         write_output out_name ;;
                         log INFO (lit "Done"))%run in
  trace (run s).2 = trace s ++ evs ->
  (Exists (fatal net) evs -> (run s).1 = Exit (-1) /\ ends_in_error evs)
  /\ (forall c, (run s).1 = Exit c -> Exists (fatal net) evs)
  /\ ((run s).1 = Ret tt \/ Forall not_dump evs)
  /\ ((run s).1 = Ret tt ->
      filter (fun e => is_dump e = true) evs
      = [Dump (out_name ++ lit ".json") (data (run s).2)]).
Proof.
  intros Hcrawl run Htrace. subst run.
  destruct (Hcrawl s) as (evs1 & Htr1 & HP1 & HT1 & HE1).
  destruct (crawl s) as [[[]|c|e] s1] eqn:Hrun; simpl in *.
  - erewrite run_completed in * by done. simpl in *.
    rewrite Htr1, <- app_assoc in Htrace. apply app_inv_head in Htrace as <-.
    split; [|split; [done|split; [by left|]]].
    + intros [H1|H2]%Exists_app; [by destruct (HT1 H1)|]. exfalso.
      repeat (apply Exists_cons in H2 as [H2|H2];
              [by destruct H2 as [[? [=]]|(? & [=] & _)]|]).
      by apply Exists_nil in H2.
    + intros _. rewrite filter_app, not_dump_filter by done. done.
  - unfold bind in *. rewrite Hrun in *. simpl in *.
    rewrite Htr1 in Htrace. apply app_inv_head in Htrace as <-.
    split; [|split; [|split; [by right|done]]].
    + intros [[= ->] ?]%HT1. done.
    + intros c' _. by eapply HE1.
  - unfold bind in *. rewrite Hrun in *. simpl in *.
    rewrite Htr1 in Htrace. apply app_inv_head in Htrace as <-.
    split; [|split; [done|split; [by right|done]]].
    by intros [? ?]%HT1.
Qed.

Lemma run_failed_fetch net (crawl : M unit) out_name s evs r :
  fail_fast net crawl ->
  let run := bind crawl
               (fun _ => log INFO (lit "Writing to file...") ;;
                         write_output out_name ;;
                         log INFO (lit "Done"))%run in
  trace (run s).2 = trace s ++ evs ->
  Fetch r ∈ evs ->
  request_failed net r ->
  (run s).1 = Exit (-1)
  /\ exit_status (run s).1 = 255%Z
  /\ ends_in_error evs
  /\ forall out_name batch, Dump out_name batch ∉ evs.
Proof.
  intros Hcrawl run Htrace Hin Hfail.
  destruct (run_discipline net crawl out_name s evs Hcrawl Htrace)
    as (Hfatal & _ & Hdump & _).
  destruct Hfatal as [Hexit Hend].
  { apply Exists_exists. exists (Fetch r). split; [done|]. right. eauto. }
  fold run in Hexit, Hdump. rewrite Hexit in *. repeat split; try done.
  intros n b. destruct Hdump as [?|Hnot]; [done|]. by apply not_dump_elem.
Qed.

Lemma run_exit net (crawl : M unit) out_name s evs :
  fail_fast net crawl ->
  let run := bind crawl
               (fun _ => log INFO (lit "Writing to file...") ;;
                         write_output out_name ;;
                         log INFO (lit "Done"))%run in
  trace (run s).2 = trace s ++ evs ->
  ((exists c, (run s).1 = Exit c) <-> (exists msg, Log ERROR msg ∈ evs))
  /\ forall c, (run s).1 = Exit c ->
       c = (-1)%Z /\ ends_in_error evs
       /\ forall out_name batch, Dump out_name batch ∉ evs.
Proof.
  intros Hcrawl run Htrace.
  destruct (run_discipline net crawl out_name s evs Hcrawl Htrace)
    as (Hfatal & Hexit & Hdump & _).
  fold run in Hfatal, Hexit, Hdump.
  assert (forall c, (run s).1 = Exit c ->
            c = (-1)%Z /\ ends_in_error evs
            /\ forall out_name batch, Dump out_name batch ∉ evs) as Hc.
  { intros c Hc1. destruct (Hfatal (Hexit c Hc1)) as [Heq Hend].
    rewrite Hc1 in Heq. injection Heq as ->. repeat split; try done.
    intros n b. destruct Hdump as [Hret|Hnot]; [congruence|].
    by apply not_dump_elem. }
  split; [split|done].
  - intros [c Hc1]. destruct (Hc c Hc1) as (_ & (pre & msg & ->) & _).
    exists msg. set_solver.
  - intros [msg Hin]. exists (-1)%Z. apply Hfatal.
    apply Exists_exists. exists (Log ERROR msg). split; [done|].
    left. by exists msg.
Qed.

(** Any fetch that fails ends the run: whichever of the six requests it is,
    once a run has issued a request that fails, the process has left through
    [sys.exit(-1)] (status 255), an error line is the last thing it did, and
    no batch was written. *)
Theorem failed_fetch_is_fatal net concert_id_list film_id_list (run : M unit)
    s evs r :
  run = scrape_seasons net concert_id_list
  \/ run = scrape_films net film_id_list ->
  trace (run s).2 = trace s ++ evs ->
  Fetch r ∈ evs ->
  request_failed net r ->
  (run s).1 = Exit (-1)
  /\ exit_status (run s).1 = 255%Z
  /\ ends_in_error evs
  /\ forall out_name batch, Dump out_name batch ∉ evs.
Proof.
  intros [->| ->] Htrace.
  - rewrite scrape_seasons_split in *.
    apply (run_failed_fetch net _ (lit "seasons")); [|done].
    apply fail_fast_seasons_crawl.
  - rewrite scrape_films_split in *.
    apply (run_failed_fetch net _ (lit "films")); [|done].
    apply fail_fast_films_crawl.
Qed.

(** The exit discipline: a run leaves through [sys.exit] exactly when it has
    logged an error; the code is then -1, the error line is the last thing
    the process did, and no batch was written. *)
Theorem exit_only_after_error net concert_id_list film_id_list (run : M unit)
    s evs :
  run = scrape_seasons net concert_id_list
  \/ run = scrape_films net film_id_list ->
  trace (run s).2 = trace s ++ evs ->
  ((exists c, (run s).1 = Exit c) <-> (exists msg, Log ERROR msg ∈ evs))
  /\ forall c, (run s).1 = Exit c ->
       c = (-1)%Z /\ ends_in_error evs
       /\ forall out_name batch, Dump out_name batch ∉ evs.
Proof.
  intros [->| ->] Htrace.
  - rewrite scrape_seasons_split in *.
    apply (run_exit net _ (lit "seasons")); [|done].
    apply fail_fast_seasons_crawl.
  - rewrite scrape_films_split in *.
    apply (run_exit net _ (lit "films")); [|done].
    apply fail_fast_films_crawl.
Qed.

Lemma run_written net (crawl : M unit) out_name s evs :
  fail_fast net crawl ->
  let run := bind crawl
               (fun _ => log INFO (lit "Writing to file...") ;;
                         write_output out_name ;;
                         log INFO (lit "Done"))%run in
  trace (run s).2 = trace s ++ evs ->
  ((run s).1 = Ret tt <-> exists out_name batch, Dump out_name batch ∈ evs)
  /\ ((run s).1 = Ret tt ->
      filter (fun e => is_dump e = true) evs
      = [Dump (out_name ++ lit ".json") (data (run s).2)]).
Proof.
  intros Hcrawl run Htrace.
  destruct (run_discipline net crawl out_name s evs Hcrawl Htrace)
    as (_ & _ & Hdump & Hone).
  split; [split|done].
  - intros Hret. specialize (Hone Hret).
    eexists _, _. eapply list_elem_of_filter. rewrite Hone. left.
  - intros (n & b & Hin). destruct Hdump as [?|Hnot]; [done|].
    by destruct (not_dump_elem _ n b Hnot).
Qed.

(** The write discipline: the batch is written exactly when the run
    completes, and then exactly once, under the run's file name, holding
    what the run collected. A run that exits or dies of an exception writes
    nothing. *)
Theorem batch_written_iff_completed net concert_id_list film_id_list
    (run : M unit) file s evs :
  run = scrape_seasons net concert_id_list /\ file = lit "seasons.json"
  \/ run = scrape_films net film_id_list /\ file = lit "films.json" ->
  trace (run s).2 = trace s ++ evs ->
  ((run s).1 = Ret tt <-> exists out_name batch, Dump out_name batch ∈ evs)
  /\ ((run s).1 = Ret tt ->
      filter (fun e => is_dump e = true) evs = [Dump file (data (run s).2)]).
Proof.
  intros [[-> ->]|[-> ->]] Htrace.
  - rewrite scrape_seasons_split in *.
    apply (run_written net _ (lit "seasons")); [|done].
    apply fail_fast_seasons_crawl.
  - rewrite scrape_films_split in *.
    apply (run_written net _ (lit "films")); [|done].
    apply fail_fast_films_crawl.
Qed.

(** ** The requests and pauses of a completed run *)

Lemma footprint_app a b : footprint (a ++ b) = footprint a ++ footprint b.
Proof. apply filter_app. Qed.

Lemma footprint_logs evs :
  Forall (fun e => is_log e = true) evs -> footprint evs = [].
Proof.
  induction 1 as [|e evs He _ IH]; [done|].
  unfold footprint. rewrite filter_cons_False by congruence. done.
Qed.

Lemma leaves_footprint_bind {A B} (m : M A) (k : A -> M B) fp1 fp2 fp :
  leaves_footprint m fp1 -> (forall a, leaves_footprint (k a) fp2) ->
  fp = fp1 ++ fp2 -> leaves_footprint (bind m k) fp.
Proof.
  intros Hm Hk -> s b s' Hrun. apply bind_Ret in Hrun as (a & s1 & H1 & H2).
  apply Hm in H1 as (evs1 & Htr1 & Hfp1). apply Hk in H2 as (evs2 & Htr2 & Hfp2).
  exists (evs1 ++ evs2). rewrite Htr2, Htr1, app_assoc. split; [done|].
  by rewrite footprint_app, Hfp1, Hfp2.
Qed.

Lemma only_logs_footprint {A} (m : M A) :
  only_logs m -> leaves_footprint m [].
Proof.
  intros Hm s a s' Hrun. destruct (Hm s) as (evs & Htr & HP & _).
  rewrite Hrun in Htr. exists evs. split; [done|]. by apply footprint_logs.
Qed.

Lemma leaves_footprint_emit e :
  is_log e = false -> leaves_footprint (emit e) [e].
Proof.
  intros He s a s' [= _ <-]. exists [e]. split; [done|].
  unfold footprint. by rewrite filter_cons_True.
Qed.

Lemma leaves_footprint_silent {A} (m : M A) :
  (forall s, trace (m s).2 = trace s) -> leaves_footprint m [].
Proof.
  intros Hm s a s' Hrun. exists []. specialize (Hm s). rewrite Hrun in Hm.
  by rewrite app_nil_r.
Qed.

Lemma leaves_footprint_get_or_exit {A} what req (resp : response A) :
  leaves_footprint (get_or_exit what req resp) [Fetch req].
Proof.
  unfold get_or_exit.
  eapply leaves_footprint_bind; [by apply leaves_footprint_emit| |done].
  intros _. destruct resp; try (by intros s a s' Hrun; run_inv Hrun).
  by apply leaves_footprint_silent.
Qed.

Ltac only_logs_walk :=
  unfold only_logs;
  repeat first
    [ progress eauto with obeys
    | apply obeys_extract_piece; solve [done | intros ? ? []]
    | apply obeys_set_stream_url; solve [done | intros ? ? []]
    | apply obeys_first_urls
    | apply obeys_set_concert_meta; solve [done | intros ? ? []]
    | apply obeys_set_conductor; solve [done | intros ? ? []]
    | apply obeys_map_m; [done|intros]
    | apply obeys_bind; [done| |intros]
    | case_bool_decide
    | match goal with
      | |- obeys _ _ _ (match ?x with _ => _ end) => destruct x
      end ].

Lemma leaves_footprint_get_streams net content_id :
  leaves_footprint (get_streams net content_id) [Fetch (ReqStreams content_id)].
Proof.
  unfold get_streams.
  eapply leaves_footprint_bind;
    [apply only_logs_footprint; only_logs_walk| |reflexivity].
  intros _. eapply leaves_footprint_bind;
    [apply leaves_footprint_get_or_exit| |reflexivity].
  intros r. apply only_logs_footprint. only_logs_walk.
Qed.

Lemma leaves_footprint_extract_metadata net concert_id soup :
  leaves_footprint (extract_metadata net concert_id soup)
    [Fetch (ReqStreams concert_id)].
Proof.
  unfold extract_metadata.
  eapply leaves_footprint_bind;
    [apply only_logs_footprint; only_logs_walk| |reflexivity].
  intros _. eapply leaves_footprint_bind;
    [apply leaves_footprint_get_streams| |reflexivity].
  intros streams. apply only_logs_footprint. only_logs_walk.
Qed.

Lemma leaves_footprint_handle_concert net cl concert_id :
  leaves_footprint (handle_concert net cl concert_id)
    (if bool_decide (concert_id ∉ cl)
     then [Fetch (ReqConcert concert_id); Fetch (ReqStreams concert_id)]
     else []).
Proof.
  unfold handle_concert. case_bool_decide.
  - eapply leaves_footprint_bind;
      [apply only_logs_footprint; only_logs_walk| |reflexivity].
    intros _. eapply leaves_footprint_bind;
      [apply leaves_footprint_get_or_exit| |reflexivity].
    intros soup. eapply leaves_footprint_bind;
      [apply leaves_footprint_extract_metadata| |reflexivity].
    intros d. apply only_logs_footprint. only_logs_walk.
  - apply only_logs_footprint. only_logs_walk.
Qed.

Lemma leaves_footprint_sleep lo hi : leaves_footprint (sleep lo hi) [Sleep lo hi].
Proof. by apply leaves_footprint_emit. Qed.

Lemma season_concerts_footprint net cl entries : forall acc s cs s',
  season_concerts net cl entries acc s = (Ret cs, s') ->
  exists ids evs,
    mapM (fun concert => drop 8 <$> attr "id" concert) entries = Some ids
    /\ trace s' = trace s ++ evs
    /\ footprint evs = concat (map (concert_steps cl) ids).
Proof.
  induction entries as [|e entries IH]; intros acc s cs s' Hrun; simpl in Hrun.
  - apply ret_Ret in Hrun as [_ ->]. exists [], []. by rewrite app_nil_r.
  - run_inv Hrun. apply or_raise_Ret in Hrun0 as [Hid ->].
    apply leaves_footprint_handle_concert in Hrun1 as (evs1 & Htr1 & Hfp1).
    apply leaves_footprint_sleep in Hrun2 as (evs2 & Htr2 & Hfp2).
    apply IH in Hrun as (ids & evs3 & Hids & Htr3 & Hfp3).
    exists (drop 8 a :: ids), (evs1 ++ evs2 ++ evs3). split; [|split].
    + simpl. rewrite Hid. simpl. by rewrite Hids.
    + by rewrite Htr3, Htr2, Htr1, <- !app_assoc.
    + rewrite !footprint_app, Hfp1, Hfp2, Hfp3. simpl. unfold concert_steps.
      by rewrite <- !app_assoc.
Qed.

Lemma handle_season_footprint net cl ss s s' :
  handle_season net cl ss s = (Ret tt, s') ->
  exists ids evs,
    season_listing net ss = Some ids
    /\ trace s' = trace s ++ evs
    /\ footprint evs
       = Fetch (ReqSeason (season_id ss)) :: concat (map (concert_steps cl) ids).
Proof.
  unfold handle_season. intros Hrun. run_inv Hrun.
  assert (only_logs (log DEBUG (lit "Scraping season " ++ season_label ss
                                ++ lit " with ID " ++ season_id ss
                                ++ lit "..."))) as Hlog by only_logs_walk.
  apply (only_logs_footprint _ Hlog) in Hrun0 as (evs0 & Htr0 & Hfp0).
  pose proof Hrun1 as Hresp. apply get_or_exit_Ret in Hresp.
  apply leaves_footprint_get_or_exit in Hrun1 as (evs1 & Htr1 & Hfp1).
  apply season_concerts_footprint in Hrun2 as (ids & evs2 & Hids & Htr2 & Hfp2).
  unfold get_data in Hrun3. unfold set_data in Hrun. simplify_eq. simpl.
  exists ids, (evs0 ++ evs1 ++ evs2). split; [|split].
  - unfold season_listing. by rewrite Hresp.
  - by rewrite Htr2, Htr1, Htr0, <- !app_assoc.
  - by rewrite !footprint_app, Hfp0, Hfp1, Hfp2.
Qed.

Lemma for_each_seasons_footprint net cl seasons : forall s s',
  for_each seasons
    (fun ss => handle_season net cl ss ;; sleep MIN_DELAY MAX_DELAY)%run s
  = (Ret tt, s') ->
  exists listings evs,
    Forall2 (fun ss ids => season_listing net ss = Some ids) seasons listings
    /\ trace s' = trace s ++ evs
    /\ footprint evs = concat (zip_with (season_steps cl) seasons listings).
Proof.
  induction seasons as [|ss seasons IH]; intros s s' Hrun; simpl in Hrun.
  - apply ret_Ret in Hrun as [_ ->]. exists [], []. split; [constructor|].
    by rewrite app_nil_r.
  - apply bind_Ret in Hrun as ([] & s1 & Hbody & Hrun).
    apply bind_Ret in Hbody as ([] & s2 & Hseason & Hsleep).
    apply handle_season_footprint in Hseason as (ids & evs1 & Hids & Htr1 & Hfp1).
    apply leaves_footprint_sleep in Hsleep as (evs2 & Htr2 & Hfp2).
    apply IH in Hrun as (listings & evs3 & Hall & Htr3 & Hfp3).
    exists (ids :: listings), (evs1 ++ evs2 ++ evs3). split; [|split].
    + by constructor.
    + by rewrite Htr3, Htr2, Htr1, <- !app_assoc.
    + rewrite !footprint_app, Hfp1, Hfp2, Hfp3. simpl. unfold season_steps.
      simpl. by rewrite <- !app_assoc.
Qed.

Lemma leaves_footprint_get_seasons net :
  leaves_footprint (get_seasons net) [Fetch ReqSeasons].
Proof.
  unfold get_seasons.
  eapply leaves_footprint_bind;
    [apply only_logs_footprint; only_logs_walk| |reflexivity].
  intros _. eapply leaves_footprint_bind;
    [apply leaves_footprint_get_or_exit| |reflexivity].
  intros r. apply only_logs_footprint. only_logs_walk.
Qed.

Lemma seasons_crawl_footprint net cl s s' :
  seasons_crawl net cl s = (Ret tt, s') ->
  exists body seasons_dict listings evs,
    seasons_endpoint net = Received body
    /\ body_json body = Some seasons_dict
    /\ Forall2 (fun ss ids => season_listing net ss = Some ids)
         (items seasons_dict) listings
    /\ trace s' = trace s ++ evs
    /\ footprint evs
       = Fetch ReqSeasons
         :: concat (zip_with (season_steps cl) (items seasons_dict) listings).
Proof.
  unfold seasons_crawl. intros Hrun.
  apply bind_Ret in Hrun as ([] & s0 & Hset & Hrun).
  apply bind_Ret in Hrun as (all_seasons & s1 & Hindex & Hrun).
  unfold set_data in Hset. injection Hset as <-.
  pose proof Hindex as Hfp.
  apply get_seasons_Ret in Hindex as (body & sd & Hnet & Hjson & ->).
  apply leaves_footprint_get_seasons in Hfp as (evs1 & Htr1 & Hfp1).
  apply for_each_seasons_footprint in Hrun
    as (listings & evs2 & Hall & Htr2 & Hfp2).
  simpl in Htr1. exists body, sd, listings, (evs1 ++ evs2).
  repeat (split; [done|]). split.
  - by rewrite Htr2, Htr1, <- !app_assoc.
  - by rewrite !footprint_app, Hfp1, Hfp2.
Qed.

Lemma run_footprint (crawl : M unit) out_name s s1 evs fp :
  crawl s = (Ret tt, s1) ->
  trace s1 = trace s ++ evs ->
  footprint evs = fp ->
  let run := bind crawl
    (fun _ => log INFO (lit "Writing to file...") ;;
              write_output out_name ;;
              log INFO (lit "Done"))%run in
  exists evs',
    trace (run s).2 = trace s ++ evs'
    /\ footprint evs' = fp ++ [Dump (out_name ++ lit ".json") (data (run s).2)].
Proof.
  intros Hcrawl Htr Hfp run. unfold run.
  rewrite (run_completed _ _ _ _ Hcrawl). simpl.
  eexists. split; [by rewrite Htr, <- app_assoc|].
  by rewrite footprint_app, Hfp.
Qed.

(** The requests and pauses of a completed concert run, in order: the season
    index; then for every season its listing, for every concert the listing
    shows its page and its stream lookup (neither when the concert is in the
    seen-set) and a pause, and one more pause after the season; then the one
    write. No request is issued twice for one listing entry. *)
Theorem seasons_run_footprint net concert_id_list s s' :
  scrape_seasons net concert_id_list s = (Ret tt, s') ->
  exists body seasons_dict listings evs,
    seasons_endpoint net = Received body
    /\ body_json body = Some seasons_dict
    /\ Forall2 (fun ss ids => season_listing net ss = Some ids)
         (items seasons_dict) listings
    /\ trace s' = trace s ++ evs
    /\ footprint evs
       = Fetch ReqSeasons
         :: concat (zip_with (season_steps concert_id_list)
                      (items seasons_dict) listings)
         ++ [Dump (lit "seasons.json") (data s')].
Proof.
  rewrite scrape_seasons_split. intros Hrun. pose proof Hrun as Hcrawl.
  apply bind_Ret in Hcrawl as ([] & s1 & Hcrawl & _).
  pose proof Hcrawl as Hfp.
  apply seasons_crawl_footprint in Hfp
    as (body & sd & listings & evs & Hnet & Hjson & Hall & Htr & Hfp).
  destruct (run_footprint _ (lit "seasons") _ _ _ _ Hcrawl Htr Hfp)
    as (evs' & Htr' & Hfp').
  rewrite Hrun in Htr', Hfp'. simpl in Htr', Hfp'.
  by exists body, sd, listings, evs'.
Qed.

Lemma leaves_footprint_extract_film_data tag :
  leaves_footprint (extract_film_data tag) [].
Proof.
  unfold extract_film_data. apply only_logs_footprint. only_logs_walk.
Qed.

Lemma leaves_footprint_handle_film net fl film_dict film_id :
  dict_get "film_id" film_dict = Some (VStr film_id) ->
  leaves_footprint (handle_film net fl film_dict)
    (if bool_decide (film_id ∉ fl)
     then [Fetch (ReqFilm film_id); Fetch (ReqStreams film_id)]
     else []).
Proof.
  intros Hid s u s' Hrun. unfold handle_film in Hrun. rewrite Hid in Hrun.
  apply bind_Ret in Hrun as (i & s0 & [<- ->]%ret_Ret & Hrun).
  case_bool_decide; revert s u s' Hrun;
    match goal with
    | |- forall s u s', ?m s = _ -> exists evs, _ /\ _ = ?fp =>
        change (leaves_footprint m fp)
    end.
  - eapply leaves_footprint_bind;
      [apply only_logs_footprint; only_logs_walk| |reflexivity].
    intros _. eapply leaves_footprint_bind;
      [apply leaves_footprint_get_or_exit| |reflexivity].
    intros soup. eapply leaves_footprint_bind;
      [apply leaves_footprint_get_streams| |reflexivity].
    intros streams. apply only_logs_footprint. only_logs_walk.
  - apply only_logs_footprint. only_logs_walk.
Qed.

Lemma for_each_films_footprint net fl entries : forall s s',
  for_each entries
    (fun tag =>
       film <- extract_film_data tag ;;
       handle_film net fl film ;;
       sleep MIN_DELAY MAX_DELAY)%run s
  = (Ret tt, s') ->
  exists ids evs,
    mapM listed_film_id entries = Some ids
    /\ trace s' = trace s ++ evs
    /\ footprint evs = concat (map (film_steps fl) ids).
Proof.
  induction entries as [|tag entries IH]; intros s s' Hrun; simpl in Hrun.
  - apply ret_Ret in Hrun as [_ ->]. exists [], []. by rewrite app_nil_r.
  - apply bind_Ret in Hrun as ([] & s1 & Hbody & Hrun).
    apply bind_Ret in Hbody as (film & s2 & Hfilm & Hbody).
    apply bind_Ret in Hbody as ([] & s3 & Hhandle & Hsleep).
    pose proof Hfilm as Hfp0.
    apply leaves_footprint_extract_film_data in Hfp0 as (evs0 & Htr0 & Hfp0).
    apply extract_film_data_Ret in Hfilm as (film_id & Hlisted & Hid & _).
    apply (leaves_footprint_handle_film _ _ _ _ Hid) in Hhandle
      as (evs1 & Htr1 & Hfp1).
    apply leaves_footprint_sleep in Hsleep as (evs2 & Htr2 & Hfp2).
    apply IH in Hrun as (ids & evs3 & Hids & Htr3 & Hfp3).
    exists (film_id :: ids), (evs0 ++ evs1 ++ evs2 ++ evs3). split; [|split].
    + simpl. rewrite Hlisted. simpl. by rewrite Hids.
    + by rewrite Htr3, Htr2, Htr1, Htr0, <- !app_assoc.
    + rewrite !footprint_app, Hfp0, Hfp1, Hfp2, Hfp3. simpl.
      unfold film_steps. by rewrite <- !app_assoc.
Qed.

Lemma leaves_footprint_get_films net :
  leaves_footprint (get_films net) [Fetch ReqFilms].
Proof.
  unfold get_films.
  eapply leaves_footprint_bind;
    [apply only_logs_footprint; only_logs_walk| |reflexivity].
  intros _. eapply leaves_footprint_bind;
    [apply leaves_footprint_get_or_exit| |reflexivity].
  intros r. apply only_logs_footprint. only_logs_walk.
Qed.

Lemma films_crawl_footprint net fl s s' :
  films_crawl net fl s = (Ret tt, s') ->
  exists soup ids evs,
    films_page net = Received soup
    /\ listed_film_ids soup = Some ids
    /\ trace s' = trace s ++ evs
    /\ footprint evs = Fetch ReqFilms :: concat (map (film_steps fl) ids).
Proof.
  unfold films_crawl. intros Hrun.
  apply bind_Ret in Hrun as ([] & s0 & Hset & Hrun).
  apply bind_Ret in Hrun as (all_films & s1 & Hindex & Hrun).
  unfold set_data in Hset. injection Hset as <-.
  pose proof Hindex as Hfp.
  apply get_films_Ret in Hindex as (soup & Hnet & ->).
  apply leaves_footprint_get_films in Hfp as (evs1 & Htr1 & Hfp1).
  apply for_each_films_footprint in Hrun as (ids & evs2 & Hids & Htr2 & Hfp2).
  simpl in Htr1. exists soup, ids, (evs1 ++ evs2).
  repeat (split; [done|]). split.
  - by rewrite Htr2, Htr1, <- !app_assoc.
  - by rewrite !footprint_app, Hfp1, Hfp2.
Qed.

(** The requests and pauses of a completed film run, in order: the film
    index; then for every film the index shows its page and its stream
    lookup (neither when the film is in the seen-set) and a pause; then the
    one write. The film page is requested before the stream lookup, and a
    seen film still costs a pause. *)
Theorem films_run_footprint net film_id_list s s' :
  scrape_films net film_id_list s = (Ret tt, s') ->
  exists soup ids evs,
    films_page net = Received soup
    /\ listed_film_ids soup = Some ids
    /\ trace s' = trace s ++ evs
    /\ footprint evs
       = Fetch ReqFilms
         :: concat (map (film_steps film_id_list) ids)
         ++ [Dump (lit "films.json") (data s')].
Proof.
  rewrite scrape_films_split. intros Hrun. pose proof Hrun as Hcrawl.
  apply bind_Ret in Hcrawl as ([] & s1 & Hcrawl & _).
  pose proof Hcrawl as Hfp.
  apply films_crawl_footprint in Hfp
    as (soup & ids & evs & Hnet & Hids & Htr & Hfp).
  destruct (run_footprint _ (lit "films") _ _ _ _ Hcrawl Htr Hfp)
    as (evs' & Htr' & Hfp').
  rewrite Hrun in Htr', Hfp'. simpl in Htr', Hfp'.
  by exists soup, ids, evs'.
Qed.

(** ** The skip law for films *)

(** A film whose identifier is in the seen-set is never asked for: a run
    over any film index issues neither a page fetch nor a stream lookup for
    it, whether the run completes or not, and the batch the run writes has
    no record with that identifier. *)
Theorem seen_film_skipped net film_id_list id s :
  id ∈ film_id_list ->
  exists evs,
    trace (scrape_films net film_id_list s).2 = trace s ++ evs
    /\ (Fetch (ReqFilm id) ∉ evs)
    /\ (Fetch (ReqStreams id) ∉ evs)
    /\ forall out_name batch,
         Dump out_name batch ∈ evs -> id ∉ batch_film_ids batch.
Proof.
  intros Hseen. rewrite scrape_films_split.
  set (P := fun e => e <> Fetch (ReqFilm id) /\ e <> Fetch (ReqStreams id)
                     /\ forall out_name batch, e <> Dump out_name batch).
  assert (obeys P (fun _ => False) (fun _ => True)
            (films_crawl net film_id_list)) as Hcrawl.
  { apply obeys_films_crawl; unfold P;
      try (intros; repeat split; done); try tauto.
    - intros i Hi. repeat split; try done. intros ?. by simplify_eq.
    - intros i Hi. apply obeys_get_streams;
        try (intros; repeat split; done); try tauto.
      repeat split; try done. intros ?. by simplify_eq. }
  destruct (Hcrawl s) as (evs & Htrace & HP & _).
  assert ((Fetch (ReqFilm id) ∉ evs) /\ (Fetch (ReqStreams id) ∉ evs)
          /\ forall out_name batch, Dump out_name batch ∉ evs)
    as (Hpage & Hstream & Hdump).
  { rewrite Forall_forall in HP. repeat split.
    - intros Hin. by apply HP in Hin as (? & ? & ?).
    - intros Hin. by apply HP in Hin as (? & ? & ?).
    - intros out_name batch Hin. apply HP in Hin as (_ & _ & Hd).
      by eapply Hd. }
  destruct (films_crawl net film_id_list s) as [[[]|c|e] s1] eqn:Hrun.
  - erewrite run_completed by done. simpl in *.
    eexists. rewrite Htrace, <- app_assoc. split; [done|].
    rewrite !not_elem_of_app. repeat split; try done; try set_solver.
    intros out_name batch [Hin|Hin]%elem_of_app; [by destruct (Hdump _ _ Hin)|].
    assert (batch = data s1) as -> by set_solver.
    apply films_crawl_Ret in Hrun as (_ & ids & _ & _ & ->).
    rewrite list_elem_of_filter. tauto.
  - exists evs. unfold bind. rewrite Hrun. simpl in *.
    repeat split; try done. intros ? ? Hin. by destruct (Hdump _ _ Hin).
  - exists evs. unfold bind. rewrite Hrun. simpl in *.
    repeat split; try done. intros ? ? Hin. by destruct (Hdump _ _ Hin).
Qed.

(** ** One record per season *)

Lemma season_concerts_records net cl entries : forall acc s cs s',
  season_concerts net cl entries acc s = (Ret cs, s') ->
  exists ids new,
    mapM (fun concert => drop 8 <$> attr "id" concert) entries = Some ids
    /\ cs = acc ++ new
    /\ Forall2 (fun i c => exists d, c = VDict d
                  /\ dict_get "concertId" d = Some (VStr i))
         (filter (fun i => i ∉ cl) ids) new.
Proof.
  induction entries as [|e entries IH]; intros acc s cs s' Hrun; simpl in Hrun.
  - apply ret_Ret in Hrun as [<- _]. exists [], []. by rewrite app_nil_r.
  - apply bind_Ret in Hrun as (id & s1 & [Hid ->]%or_raise_Ret & Hrun).
    apply bind_Ret in Hrun as (r & s2 & Hconcert & Hrun).
    apply bind_Ret in Hrun as ([] & s3 & _ & Hrun).
    apply IH in Hrun as (ids & new & Hids & -> & Hnew).
    exists (drop 8 id :: ids). 
    apply handle_concert_Ret in Hconcert as [[Hin ->]|(Hfresh & d & -> & Hd)].
    + exists new. split; [|split; [done|]].
      { simpl. rewrite Hid. simpl. by rewrite Hids. }
      by rewrite filter_cons_False by tauto.
    + destruct d as [|kv d]; [done|].
      exists (VDict (kv :: d) :: new). split; [|split].
      { simpl. rewrite Hid. simpl. by rewrite Hids. }
      { by rewrite <- app_assoc. }
      rewrite filter_cons_True by done. constructor; [eauto|done].
Qed.

Lemma handle_season_record net cl ss s s' :
  handle_season net cl ss s = (Ret tt, s') ->
  exists v, data s' = data s ++ [v] /\ season_record net cl ss v.
Proof.
  unfold handle_season. intros Hrun.
  apply bind_Ret in Hrun as ([] & s0 & Hlog & Hrun).
  apply bind_Ret in Hrun as (soup & s1 & Hpage & Hrun).
  apply bind_Ret in Hrun as (cs & s2 & Hconcerts & Hrun).
  apply bind_Ret in Hrun as (d & s3 & Hget & Hset).
  pose proof (quiet_Ret _ _ _ _ (quiet_log _ _) Hlog) as D0.
  pose proof (quiet_Ret _ _ _ _ (quiet_get_or_exit _ _ _) Hpage) as D1.
  pose proof (quiet_Ret _ _ _ _ (quiet_season_concerts _ _ _ _) Hconcerts) as D2.
  apply get_or_exit_Ret in Hpage.
  apply season_concerts_records in Hconcerts as (ids & new & Hids & -> & Hnew).
  unfold get_data in Hget. unfold set_data in Hset. simplify_eq. simpl.
  eexists. split; [by rewrite D2, D1, D0|].
  exists ids, new. split; [|done]. unfold season_listing. by rewrite Hpage.
Qed.

Lemma for_each_seasons_records net cl seasons : forall s s',
  for_each seasons
    (fun ss => handle_season net cl ss ;; sleep MIN_DELAY MAX_DELAY)%run s
  = (Ret tt, s') ->
  exists records,
    data s' = data s ++ records
    /\ Forall2 (season_record net cl) seasons records.
Proof.
  induction seasons as [|ss seasons IH]; intros s s' Hrun; simpl in Hrun.
  - apply ret_Ret in Hrun as [_ ->]. exists []. by rewrite app_nil_r.
  - apply bind_Ret in Hrun as ([] & s1 & Hbody & Hrun).
    apply bind_Ret in Hbody as ([] & s2 & Hseason & Hsleep).
    pose proof (quiet_Ret _ _ _ _ (quiet_sleep _ _) Hsleep) as D.
    apply handle_season_record in Hseason as (v & Hdata & Hv).
    apply IH in Hrun as (records & -> & Hall).
    exists (v :: records). split; [|by constructor].
    by rewrite D, Hdata, <- app_assoc.
Qed.

(** The batch of a completed concert run has one record for every season of
    the index, in index order, also for a season all of whose concerts were
    skipped: the season's identifier, its label with every en dash replaced
    by a hyphen, and the records of its concerts that are not in the
    seen-set, in listing order. What the run had collected before is
    dropped. *)
Theorem season_records_follow_index net concert_id_list s s' :
  scrape_seasons net concert_id_list s = (Ret tt, s') ->
  exists body seasons_dict,
    seasons_endpoint net = Received body
    /\ body_json body = Some seasons_dict
    /\ Forall2 (season_record net concert_id_list)
         (items seasons_dict) (data s').
Proof.
  rewrite scrape_seasons_split. intros Hrun. pose proof Hrun as Hcrawl.
  apply bind_Ret in Hcrawl as ([] & s1 & Hcrawl & _).
  erewrite run_completed in Hrun by done. injection Hrun as <-. simpl.
  unfold seasons_crawl in Hcrawl.
  apply bind_Ret in Hcrawl as ([] & s0 & Hset & Hcrawl).
  apply bind_Ret in Hcrawl as (all_seasons & s2 & Hindex & Hcrawl).
  unfold set_data in Hset. injection Hset as <-.
  pose proof (quiet_Ret _ _ _ _ (quiet_get_seasons _) Hindex) as D.
  apply get_seasons_Ret in Hindex as (body & sd & Hnet & Hjson & ->).
  apply for_each_seasons_records in Hcrawl as (records & Hdata & Hall).
  exists body, sd. repeat (split; [done|]). rewrite Hdata, D. done.
Qed.

(** ** Anatomy of a concert record *)

Lemma map_m_Forall2 {A B} (f : A -> M B) (R : A -> B -> Prop) l :
  (forall x s y s', f x s = (Ret y, s') -> R x y) ->
  forall s ys s', map_m f l s = (Ret ys, s') -> Forall2 R l ys.
Proof.
  intros Hf. induction l as [|x l IH]; intros s ys s' Hrun; simpl in Hrun.
  - apply ret_Ret in Hrun as [<- _]. constructor.
  - apply bind_Ret in Hrun as (y & s1 & Hy & Hrun).
    apply bind_Ret in Hrun as (ys' & s2 & Hys & Hrun).
    apply ret_Ret in Hrun as [<- _]. constructor; eauto.
Qed.

(** The [pieces] of a concert record are the entries of the page's
    [ul.list-lines], one record per [li] and in page order; each carries
    under [pieceId] the [id] of the entry's work marker. The key is written
    also when the page lists no piece. *)
Theorem pieces_follow_page net concert_id soup s metaDict s' :
  extract_metadata net concert_id soup s = (Ret metaDict, s') ->
  exists pieces,
    dict_get "pieces" metaDict = Some (VList pieces)
    /\ Forall2
         (fun li piece => exists work id pieceDict,
            select_one (Simple (Sel "div" (Class (lit "jsConcertWork")))) li
            = Some work
            /\ attr "id" work = Some id
            /\ piece = VDict pieceDict
            /\ dict_get "pieceId" pieceDict = Some (VStr id))
         (select (Child (Sel "ul" (Class (lit "list-lines")))
                        (Sel "li" Always)) soup)
         pieces.
Proof.
  unfold extract_metadata. intros Hrun.
  apply bind_Ret in Hrun as ([] & s0 & _ & Hrun).
  apply bind_Ret in Hrun as (streams & s1 & _ & Hrun).
  apply bind_Ret in Hrun as (concertMetaTag & s2 & _ & Hrun).
  apply bind_Ret in Hrun as (first & s3 & _ & Hrun).
  apply bind_Ret in Hrun as (date & s4 & _ & Hrun).
  apply bind_Ret in Hrun as (d1 & s5 & _ & Hrun).
  apply bind_Ret in Hrun as (mainArtistTag & s6 & _ & Hrun).
  apply bind_Ret in Hrun as (d2 & s7 & _ & Hrun).
  apply bind_Ret in Hrun as (pieces & s8 & Hpieces & Hrun).
  apply ret_Ret in Hrun as [<- _].
  exists (map VDict pieces). split; [by rewrite dict_get_set_eq|].
  apply Forall2_fmap_r.
  eapply map_m_Forall2; [|exact Hpieces].
  intros li s9 pieceDict s10 Hpiece.
  apply extract_piece_Ret in Hpiece as (work & id & h2 & Hwork & Hid & _ & Heq).
  exists work, id, pieceDict. repeat (split; [done|]).
  rewrite Heq. destruct (find "p" li);
    rewrite ?set_artists_other, !set_header_other by done;
    by rewrite dict_get_set_ne.
Qed.

(** A concert record exists only for a page that has a [p.concertMeta]
    opening with a text node and a [p.mainArtist]: the record's
    [concertDate] is that text, en dashes replaced by hyphens and trimmed,
    and no later field overwrites it or [concertId]. *)
Theorem concert_date_from_meta net concert_id soup s metaDict s' :
  extract_metadata net concert_id soup s = (Ret metaDict, s') ->
  exists concertMetaTag date rest,
    select_one (Simple (Sel "p" (Class (lit "concertMeta")))) soup
    = Some concertMetaTag
    /\ contents_of concertMetaTag = Text date :: rest
    /\ is_Some (select_one (Simple (Sel "p" (Class (lit "mainArtist")))) soup)
    /\ dict_get "concertDate" metaDict
       = Some (VStr (strip (replace [ndash] [hyphen] date)))
    /\ dict_get "concertId" metaDict = Some (VStr concert_id).
Proof.
  intros Hrun. pose proof (extract_metadata_id _ _ _ _ _ _ Hrun) as Hid.
  unfold extract_metadata in Hrun.
  apply bind_Ret in Hrun as ([] & s0 & _ & Hrun).
  apply bind_Ret in Hrun as (streams & s1 & _ & Hrun).
  apply bind_Ret in Hrun as (concertMetaTag & s2 & [Htag _]%or_raise_Ret & Hrun).
  apply bind_Ret in Hrun as (first & s3 & [Hfirst _]%or_raise_Ret & Hrun).
  apply bind_Ret in Hrun as (date & s4 & Hdate & Hrun).
  apply bind_Ret in Hrun as (d1 & s5 & Hmeta%set_concert_meta_Ret & Hrun).
  apply bind_Ret in Hrun as (mainArtistTag & s6 & [Hmain _]%or_raise_Ret & Hrun).
  apply bind_Ret in Hrun as (d2 & s7 & Hcond%set_conductor_Ret & Hrun).
  apply bind_Ret in Hrun as (pieces & s8 & _ & Hrun).
  apply ret_Ret in Hrun as [<- _].
  destruct first as [text0|nm attrs cs]; [|done].
  apply ret_Ret in Hdate as [<- _].
  destruct (contents_of concertMetaTag) as [|x rest] eqn:Hcontents; [done|].
  injection Hfirst as ->.
  exists concertMetaTag, text0, rest.
  split; [done|]. split; [done|]. split; [by rewrite Hmain|]. split; [|done].
  rewrite dict_get_set_ne, set_if_found_other by done.
  rewrite (may_set_other _ _ _ _ _ (set_star_artists_may_set _ _)) by done.
  rewrite (may_set_other _ _ _ _ _ Hcond) by done.
  rewrite (may_set_other _ _ _ _ _ (set_main_artist_may_set _ _)) by done.
  rewrite (may_set_other _ _ _ _ _ Hmeta) by done.
  by rewrite dict_get_set_eq.
Qed.

(** ** A stream without a candidate *)

Lemma first_urls_empty its : forall acc k s,
  (k, []) ∈ its -> first_urls its acc s = (Uncaught IndexError, s).
Proof.
  induction its as [|[k' v] its IH]; intros acc k s Hin.
  - by apply elem_of_nil in Hin.
  - simpl. destruct v as [|d v]; [done|].
    apply elem_of_cons in Hin as [[=]|Hin]. by eapply IH.
Qed.

(** When the stream endpoint answers with success and one of its streams
    has an empty candidate list, the lookup ends in an uncaught
    [IndexError]: nothing is logged after the request, no error report is
    written, and the process status is 1 rather than the 255 of the handled
    failures. *)
Theorem empty_candidates_uncaught net content_id body urls_dict k s :
  stream_urls net content_id = Received body ->
  body_json body = Some urls_dict ->
  success urls_dict = true ->
  (k, []) ∈ urls urls_dict ->
  get_streams net content_id s
  = (Uncaught IndexError,
     State (data s)
       (trace s ++ [Log DEBUG (lit "Getting streams for content with ID "
                                ++ content_id ++ lit "...");
                    Fetch (ReqStreams content_id)]))
  /\ exit_status (get_streams net content_id s).1 = 1%Z.
Proof.
  intros Hnet Hjson Hok Hin.
  assert (get_streams net content_id s
          = (Uncaught IndexError,
             State (data s)
               (trace s ++ [Log DEBUG (lit "Getting streams for content with ID "
                                        ++ content_id ++ lit "...");
                            Fetch (ReqStreams content_id)]))) as Hrun.
  { unfold get_streams, get_or_exit, log, emit, bind, ret. rewrite Hnet.
    cbn -[lit app first_urls]. rewrite Hjson, Hok. cbn -[lit app first_urls].
    rewrite (first_urls_empty _ _ _ _ Hin). by rewrite <- app_assoc. }
  by rewrite Hrun.
Qed.

(** ** Artists *)

Lemma named_strong_not_em x : named "strong" x = true -> named "em" x = false.
Proof.
  destruct x as [t|nm attrs cs]; [done|]. unfold named.
  intros <-%String.eqb_eq. done.
Qed.

(** Of the [strong] nodes of a group the last one names the player, of the
    [em] nodes the last one the role; the sentinels stay where the group has
    no such node. Earlier [strong] and [em] nodes of the group leave no
    trace. *)
Theorem make_dict_last_wins group :
  player (make_dict group)
  = match last (filter (fun x => named "strong" x = true) group) with
    | Some tag => strip (text tag)
    | None => KEINER
    end
  /\ role (make_dict group)
     = match last (filter (fun x => named "em" x = true) group) with
       | Some tag => strip (text tag)
       | None => KEINE_ROLLE
       end.
Proof.
  unfold make_dict. induction group as [|x group IH] using rev_ind; [done|].
  rewrite fold_left_app, !filter_app, !last_app. simpl.
  destruct IH as [IHp IHr].
  destruct (named "strong" x) eqn:Hstrong.
  - rewrite (filter_cons_True _ x) by done.
    rewrite (filter_cons_False (fun x => named "em" x = true) x)
      by (rewrite (named_strong_not_em _ Hstrong); done).
    simpl. split; [done|]. exact IHr.
  - rewrite (filter_cons_False (fun x => named "strong" x = true) x)
      by (rewrite Hstrong; done).
    destruct (named "em" x) eqn:Hem.
    + rewrite (filter_cons_True _ x) by done. simpl. split; [exact IHp|done].
    + rewrite (filter_cons_False _ x) by (rewrite Hem; done).
      simpl. by split.
Qed.

(** ** The composer of a piece *)

Lemma named_strong_not_br x : named "strong" x = true -> named "br" x = false.
Proof.
  destruct x as [t|nm attrs cs]; [done|]. unfold named.
  intros <-%String.eqb_eq. done.
Qed.

Lemma scan_headers_composer headers : forall d,
  dict_get "composer" (scan_headers headers d)
  = match composer_of headers with
    | Some v => Some v
    | None => dict_get "composer" d
    end.
Proof.
  unfold composer_of.
  induction headers as [|tag rest IH]; intros d; simpl; [done|].
  destruct (named "strong" tag) eqn:Hstrong.
  - rewrite (named_strong_not_br _ Hstrong), IH.
    rewrite filter_cons_True by done. rewrite dict_get_set_eq.
    destruct (filter _ (before_break rest)) as [|y l] eqn:Hf; [done|].
    change (last (tag :: y :: l)) with (last (y :: l)).
    destruct (last (y :: l)) eqn:Hl; [done|]. by apply last_None in Hl.
  - destruct (named "br" tag) eqn:Hbr.
    + simpl. by rewrite dict_get_set_ne.
    + rewrite filter_cons_False by (rewrite Hstrong; done). apply IH.
Qed.

Lemma scan_headers_no_break headers : forall d,
  Forall (fun x => named "br" x = false) headers ->
  dict_get "description" (scan_headers headers d) = dict_get "description" d.
Proof.
  induction headers as [|tag rest IH]; intros d Hall; simpl; [done|].
  apply Forall_cons in Hall as [Hbr Hall]. rewrite Hbr.
  destruct (named "strong" tag); rewrite IH by done; [|done].
  by rewrite dict_get_set_ne.
Qed.

Lemma composer_of_strong headers :
  Forall (fun x => named "br" x = false) headers ->
  Exists (fun x => named "strong" x = true) headers ->
  is_Some (composer_of headers).
Proof.
  intros Hall Hex. unfold composer_of.
  assert (before_break headers = headers) as ->.
  { clear Hex. induction Hall as [|x l Hx _ IH]; simpl; [done|].
    by rewrite Hx, IH. }
  apply Exists_exists in Hex as (x & Hin & Hx).
  assert (x ∈ filter (fun x => named "strong" x = true) headers) as Hin'
    by by apply list_elem_of_filter.
  destruct (filter _ headers) as [|y l] using rev_ind;
    [by apply elem_of_nil in Hin'|].
  rewrite last_snoc. by eexists.
Qed.

(** The composer of a piece is the last [strong] child of its header that
    comes before the header's first [br]; a [strong] after the [br] is part
    of the description. A header with a [strong] child and no [br] gives a
    piece with a composer and no description: the text beside the [strong]
    is dropped. *)
Theorem composer_is_last_strong streams piece s pieceDict s' h2 :
  extract_piece streams piece s = (Ret pieceDict, s') ->
  find "h2" piece = Some h2 ->
  let headers := contents_of h2 in
  dict_get "composer" pieceDict = composer_of headers
  /\ (Forall (fun x => named "br" x = false) headers ->
      Exists (fun x => named "strong" x = true) headers ->
      dict_get "description" pieceDict = None).
Proof.
  intros (work & id & h2' & _ & _ & Hh2 & ->)%extract_piece_Ret Hfind headers.
  rewrite Hfind in Hh2. injection Hh2 as <-. fold headers.
  set (d := dict_set "streamUrl" _ _).
  assert (dict_get "composer" (set_header headers d) = composer_of headers
          /\ (Forall (fun x => named "br" x = false) headers ->
              Exists (fun x => named "strong" x = true) headers ->
              dict_get "description" (set_header headers d) = None))
    as [Hcomposer Hdescription].
  { pose proof (scan_headers_composer headers d) as Hc.
    change (dict_get "composer" d) with (@None pyval) in Hc.
    unfold set_header, dict_has. split.
    - destruct (negb _ && negb _); [rewrite dict_get_set_ne by done|];
        rewrite Hc; by destruct (composer_of headers).
    - intros Hall Hex. destruct (composer_of_strong _ Hall Hex) as [v Hv].
      rewrite Hc, Hv. simpl. by rewrite scan_headers_no_break. }
  destruct (find "p" piece);
    rewrite ?set_artists_other by done; split; done.
Qed.

(** ** One record per film *)

Lemma extract_film_data_listed tag s d s' :
  extract_film_data tag s = (Ret d, s') ->
  exists film_id title,
    listed_film tag = Some (film_id, title)
    /\ d = [("film_id", VStr film_id); ("title", VStr title)]
    /\ data s' = data s.
Proof.
  intros Hrun.
  pose proof (quiet_Ret _ _ _ _ (quiet_extract_film_data _) Hrun) as D.
  unfold extract_film_data in Hrun.
  apply bind_Ret in Hrun as (link & s1 & [Hlink _]%or_raise_Ret & Hrun).
  apply bind_Ret in Hrun as (href & s2 & [Hhref _]%or_raise_Ret & Hrun).
  apply bind_Ret in Hrun as (film_id & s3 & [Hlast _]%or_raise_Ret & Hrun).
  apply bind_Ret in Hrun as (title & s4 & [Htitle _]%or_raise_Ret & Hrun).
  apply ret_Ret in Hrun as [<- _]. exists film_id, title. split; [|done].
  unfold listed_film. rewrite Hlink. simpl. rewrite Hhref. simpl.
  rewrite Hlast. simpl. by rewrite Htitle.
Qed.

Lemma handle_film_record net fl film_id title s s' :
  handle_film net fl [("film_id", VStr film_id); ("title", VStr title)] s
  = (Ret tt, s') ->
  (film_id ∈ fl /\ data s' = data s)
  \/ ((film_id ∉ fl)
      /\ exists v, data s' = data s ++ [v] /\ film_record (film_id, title) v).
Proof.
  intros Hrun. destruct (decide (film_id ∈ fl)) as [Hin|Hnew].
  - left. split; [done|].
    eapply handle_film_Ret in Hrun as [[_ ?]|[? _]]; done.
  - right. split; [done|].
    unfold handle_film in Hrun. simpl in Hrun.
    apply bind_Ret in Hrun as (i & s0 & [<- ->]%ret_Ret & Hrun).
    rewrite bool_decide_eq_true_2 in Hrun by done.
    apply bind_Ret in Hrun as ([] & s1 & Hlog & Hrun).
    apply bind_Ret in Hrun as (soup & s2 & Hpage & Hrun).
    apply bind_Ret in Hrun as (streams & s3 & Hstreams & Hrun).
    apply bind_Ret in Hrun as (d & s4 & Hurl & Hrun).
    apply bind_Ret in Hrun as (batch & s5 & Hget & Hset).
    pose proof (quiet_Ret _ _ _ _ (quiet_log _ _) Hlog) as D0.
    pose proof (quiet_Ret _ _ _ _ (quiet_get_or_exit _ _ _) Hpage) as D1.
    pose proof (quiet_Ret _ _ _ _ (quiet_get_streams _ _) Hstreams) as D2.
    pose proof (quiet_Ret _ _ _ _ (quiet_set_stream_url _ _ _ _) Hurl) as D3.
    apply set_stream_url_Ret in Hurl as ->.
    unfold get_data in Hget. unfold set_data in Hset. simplify_eq. simpl.
    eexists. split; [by rewrite D3, D2, D1, D0|].
    eexists _, (resolved film_id streams). split; [done|].
    rewrite !set_if_found_other, !set_actors_other, !set_if_found_other by done.
    done.
Qed.

Lemma for_each_films_records net fl entries : forall s s',
  for_each entries
    (fun tag =>
       film <- extract_film_data tag ;;
       handle_film net fl film ;;
       sleep MIN_DELAY MAX_DELAY)%run s
  = (Ret tt, s') ->
  exists films records,
    mapM listed_film entries = Some films
    /\ data s' = data s ++ records
    /\ Forall2 film_record (filter (fun f => f.1 ∉ fl) films) records.
Proof.
  induction entries as [|tag entries IH]; intros s s' Hrun; simpl in Hrun.
  - apply ret_Ret in Hrun as [_ ->]. exists [], []. by rewrite app_nil_r.
  - apply bind_Ret in Hrun as ([] & s1 & Hbody & Hrun).
    apply bind_Ret in Hbody as (film & s2 & Hfilm & Hbody).
    apply bind_Ret in Hbody as ([] & s3 & Hhandle & Hsleep).
    pose proof (quiet_Ret _ _ _ _ (quiet_sleep _ _) Hsleep) as D.
    apply extract_film_data_listed in Hfilm as (film_id & title & Hl & -> & D2).
    apply IH in Hrun as (films & records & Hfilms & -> & Hall).
    exists ((film_id, title) :: films).
    apply handle_film_record in Hhandle as [[Hin Hd]|(Hnew & v & Hd & Hv)].
    + exists records. split; [|split].
      * simpl. rewrite Hl. simpl. by rewrite Hfilms.
      * by rewrite D, Hd, D2.
      * by rewrite filter_cons_False by (simpl; tauto).
    + exists (v :: records). split; [|split].
      * simpl. rewrite Hl. simpl. by rewrite Hfilms.
      * by rewrite D, Hd, D2, <- app_assoc.
      * rewrite filter_cons_True by done. by constructor.
Qed.

(** The batch of a completed film run has one record for every entry of the
    film index that is not in the seen-set, in index order. The record
    carries the identifier cut from the entry's link, the link's title as it
    stands (neither trimmed nor collapsed), and a stream address; no later
    field overwrites them. What the run had collected before is dropped. *)
Theorem film_records_follow_index net film_id_list s s' :
  scrape_films net film_id_list s = (Ret tt, s') ->
  exists soup films,
    films_page net = Received soup
    /\ mapM listed_film (select (Simple (Sel "li" (Class (lit "item")))) soup)
       = Some films
    /\ Forall2 film_record
         (filter (fun f => f.1 ∉ film_id_list) films) (data s').
Proof.
  rewrite scrape_films_split. intros Hrun. pose proof Hrun as Hcrawl.
  apply bind_Ret in Hcrawl as ([] & s1 & Hcrawl & _).
  erewrite run_completed in Hrun by done. injection Hrun as <-. simpl.
  unfold films_crawl in Hcrawl.
  apply bind_Ret in Hcrawl as ([] & s0 & Hset & Hcrawl).
  apply bind_Ret in Hcrawl as (all_films & s2 & Hindex & Hcrawl).
  unfold set_data in Hset. injection Hset as <-.
  pose proof (quiet_Ret _ _ _ _ (quiet_get_films _) Hindex) as D.
  apply get_films_Ret in Hindex as (soup & Hnet & ->).
  apply for_each_films_records in Hcrawl as (films & records & Hl & Hd & Hall).
  exists soup, films. repeat (split; [done|]). by rewrite Hd, D.
Qed.

(** ** The identifier of a film *)



(** ** Sentinels in the output *)

Lemma fold_sentinels n : forall names,
  fold_left add_artist (replicate n (Artist KEINE_ROLLE KEINER))
    [(KEINE_ROLLE, names)]
  = [(KEINE_ROLLE, names ++ replicate n KEINER)].
Proof.
  induction n as [|n IH]; intros names; simpl; [by rewrite app_nil_r|].
  unfold add_artist at 2. cbn [dict_get role player].
  rewrite decide_True by done. cbn [dict_set].
  rewrite decide_True by done. rewrite IH. by rewrite <- app_assoc.
Qed.

(** The sentinels are kept out of the output only for a lone group. When
    the artist fragment of a piece has two or more groups and none of them
    holds a [strong] or an [em] node, the piece gets an [artists] list with
    the one role [KEINE ROLLE] and the name [KEINER] once for every
    group. *)
Theorem plain_groups_leak_sentinels streams piece s pieceDict s' artists groups :
  extract_piece streams piece s = (Ret pieceDict, s') ->
  find "p" piece = Some artists ->
  artist_groups (contents_of artists) = groups ->
  (2 <= length groups)%nat ->
  Forall (fun g => Forall (fun x => named "strong" x = false
                                    /\ named "em" x = false) g.2) groups ->
  dict_get "artists" pieceDict
  = Some (VList [VDict [("role", VStr KEINE_ROLLE);
                        ("names",
                         VList (replicate (length groups) (VStr KEINER)))]]).
Proof.
  intros Hrun Hp Hgroups Hlen Hplain.
  rewrite (extract_piece_artists _ _ _ _ _ _ Hrun Hp). cbv zeta.
  assert (artist_list (contents_of artists)
          = replicate (length groups) (Artist KEINE_ROLLE KEINER)) as ->.
  { unfold artist_list. fold (artist_groups (contents_of artists)).
    rewrite Hgroups. clear Hgroups Hlen.
    induction Hplain as [|g gs Hg _ IH]; simpl; [done|].
    by rewrite make_dict_plain, IH. }
  destruct (length groups) as [|[|n]]; [lia|lia|].
  assert (forall m, map VStr (replicate m KEINER) = replicate m (VStr KEINER))
    as Hnames by (induction m; simpl; congruence).
  set (a := Artist KEINE_ROLLE KEINER).
  change (replicate (S (S n)) a) with (a :: replicate (S n) a).
  assert (lone_sentinel (a :: replicate (S n) a) = false) as -> by done.
  rewrite bool_decide_eq_false_2 by done. cbn [orb].
  unfold fold_roles.
  change (fold_left add_artist (a :: replicate (S n) a) [])
    with (fold_left add_artist (replicate (S n) a) [(KEINE_ROLLE, [KEINER])]).
  unfold a. rewrite fold_sentinels. cbn [map artist_group fst snd].
  change ([KEINER] ++ replicate (S n) KEINER)
    with (replicate (S (S n)) KEINER).
  unfold artist_group. cbn [fst snd]. by rewrite Hnames.
Qed.

(** ** The seen-sets *)

Lemma splitlines_from_lines s : forall after_cr cur,
  one_line cur -> Forall one_line (splitlines_from after_cr cur s).
Proof.
  induction s as [|c s IH]; intros after_cr cur Hcur; simpl.
  - destruct cur; [constructor|]. constructor; [done|constructor].
  - destruct (after_cr && (c =? 10)%N); [by apply IH|].
    destruct (is_linebreak c) eqn:Hc.
    + constructor; [done|]. apply IH. constructor.
    + apply IH. apply Forall_app. split; [done|]. by repeat constructor.
Qed.

(** No identifier of a seen-set holds a line boundary, whatever the file
    holds; without a file the seen-set is empty. *)
Theorem id_list_one_line file :
  Forall one_line (id_list file) /\ id_list None = [].
Proof.
  split; [|done]. destruct file as [text|]; [|constructor].
  apply splitlines_from_lines. constructor.
Qed.

Lemma splitlines_from_line i rest : forall cur,
  one_line i ->
  splitlines_from false cur (i ++ 10%N :: rest)
  = (cur ++ i) :: splitlines_from false [] rest.
Proof.
  induction i as [|c i IH]; intros cur Hi; simpl.
  - by rewrite app_nil_r.
  - apply Forall_cons in Hi as [Hc Hi]. rewrite Hc, IH by done.
    by rewrite <- app_assoc.
Qed.

(** A file with one identifier to the line, each line closed by a line
    feed, is read back as exactly those identifiers: in file order, with
    repetitions, an empty line as the empty identifier, and with the
    whitespace of a line kept, so that a line with a blank at its end names
    another identifier than the line without it. *)
Theorem id_list_round_trip ids :
  Forall one_line ids -> id_list (Some (id_file ids)) = ids.
Proof.
  unfold id_list, splitlines, id_file.
  induction 1 as [|i ids Hi _ IH]; simpl; [done|].
  rewrite <- app_assoc. simpl. rewrite splitlines_from_line by done.
  by rewrite IH.
Qed.

(** ** A refusal without a message *)

(** When the stream endpoint answers [success: false] and gives no message,
    the lookup ends in an uncaught [KeyError] right after the request, while
    the error line is being put together: nothing more is logged, no ERROR
    report is written, and the process status is 1, not the 255 of the
    handled failures. *)
Theorem refusal_without_message_uncaught net content_id body urls_dict s :
  stream_urls net content_id = Received body ->
  body_json body = Some urls_dict ->
  success urls_dict = false ->
  message urls_dict = None ->
  get_streams net content_id s
  = (Uncaught KeyError,
     State (data s)
       (trace s ++ [Log DEBUG (lit "Getting streams for content with ID "
                                ++ content_id ++ lit "...");
                    Fetch (ReqStreams content_id)]))
  /\ exit_status (get_streams net content_id s).1 = 1%Z.
Proof.
  intros Hnet Hjson Hrefused Hmessage.
  assert (get_streams net content_id s
          = (Uncaught KeyError,
             State (data s)
               (trace s ++ [Log DEBUG (lit "Getting streams for content with ID "
                                        ++ content_id ++ lit "...");
                            Fetch (ReqStreams content_id)]))) as Hrun.
  { unfold get_streams, get_or_exit, log, emit, bind, ret. rewrite Hnet.
    cbn -[lit app]. rewrite Hjson, Hrefused, Hmessage. cbn -[lit app].
    by rewrite <- app_assoc. }
  by rewrite Hrun.
Qed.

(** * The further properties on the sample providers *)

Lemma failed_fetch_is_fatal_sample :
  let run := scrape_seasons timeout_net [] in
  (run start).1 = Exit (-1)
  /\ exit_status (run start).1 = 255%Z
  /\ ends_in_error (trace (run start).2)
  /\ forall out_name batch, Dump out_name batch ∉ trace (run start).2.
Proof.
  apply (failed_fetch_is_fatal timeout_net [] []
           (scrape_seasons timeout_net []) start
           (trace (scrape_seasons timeout_net [] start).2)
           (ReqConcert (lit "51"))).
  - left. reflexivity.
  - reflexivity.
  - apply list_elem_of_lookup_2 with 6%nat. vm_compute. reflexivity.
  - exact I.
Defined.

Lemma exit_only_after_error_sample :
  let run := scrape_films refusing_net [] in
  ((exists c, (run start).1 = Exit c)
   <-> (exists msg, Log ERROR msg ∈ trace (run start).2))
  /\ forall c, (run start).1 = Exit c ->
       c = (-1)%Z /\ ends_in_error (trace (run start).2)
       /\ forall out_name batch, Dump out_name batch ∉ trace (run start).2.
Proof.
  apply (exit_only_after_error refusing_net [] []
           (scrape_films refusing_net []) start
           (trace (scrape_films refusing_net [] start).2)).
  - right. reflexivity.
  - reflexivity.
Defined.

Lemma batch_written_iff_completed_sample :
  let run := scrape_seasons sample_net [] in
  let evs := trace (run start).2 in
  ((run start).1 = Ret tt <-> exists out_name batch, Dump out_name batch ∈ evs)
  /\ ((run start).1 = Ret tt ->
      filter (fun e => is_dump e = true) evs
      = [Dump (lit "seasons.json") (data (run start).2)]).
Proof.
  apply (batch_written_iff_completed sample_net [] []
           (scrape_seasons sample_net []) (lit "seasons.json") start
           (trace (scrape_seasons sample_net [] start).2)).
  - left. split; reflexivity.
  - reflexivity.
Defined.

Lemma seasons_run_footprint_sample :
  let s' := (scrape_seasons sample_net [] start).2 in
  exists body seasons_dict listings evs,
    seasons_endpoint sample_net = Received body
    /\ body_json body = Some seasons_dict
    /\ Forall2 (fun ss ids => season_listing sample_net ss = Some ids)
         (items seasons_dict) listings
    /\ trace s' = trace start ++ evs
    /\ footprint evs
       = Fetch ReqSeasons
         :: concat (zip_with (season_steps []) (items seasons_dict) listings)
         ++ [Dump (lit "seasons.json") (data s')].
Proof.
  apply (seasons_run_footprint sample_net [] start). vm_compute. reflexivity.
Defined.

Lemma films_run_footprint_sample :
  let s' := (scrape_films sample_net [lit "7"] start).2 in
  exists soup ids evs,
    films_page sample_net = Received soup
    /\ listed_film_ids soup = Some ids
    /\ trace s' = trace start ++ evs
    /\ footprint evs
       = Fetch ReqFilms
         :: concat (map (film_steps [lit "7"]) ids)
         ++ [Dump (lit "films.json") (data s')].
Proof.
  apply (films_run_footprint sample_net [lit "7"] start).
  vm_compute. reflexivity.
Defined.

Lemma seen_film_skipped_sample :
  exists evs,
    trace (scrape_films sample_net [lit "7"] start).2 = trace start ++ evs
    /\ (Fetch (ReqFilm (lit "7")) ∉ evs)
    /\ (Fetch (ReqStreams (lit "7")) ∉ evs)
    /\ forall out_name batch,
         Dump out_name batch ∈ evs -> lit "7" ∉ batch_film_ids batch.
Proof.
  apply (seen_film_skipped sample_net [lit "7"] (lit "7") start). constructor.
Defined.

Lemma season_records_follow_index_sample :
  exists body seasons_dict,
    seasons_endpoint sample_net = Received body
    /\ body_json body = Some seasons_dict
    /\ Forall2 (season_record sample_net [])
         (items seasons_dict) (data (scrape_seasons sample_net [] start).2).
Proof.
  apply (season_records_follow_index sample_net [] start).
  vm_compute. reflexivity.
Defined.

Lemma pieces_follow_page_sample :
  exists pieces,
    dict_get "pieces" sample_concert = Some (VList pieces)
    /\ Forall2
         (fun li piece => exists work id pieceDict,
            select_one (Simple (Sel "div" (Class (lit "jsConcertWork")))) li
            = Some work
            /\ attr "id" work = Some id
            /\ piece = VDict pieceDict
            /\ dict_get "pieceId" pieceDict = Some (VStr id))
         (select (Child (Sel "ul" (Class (lit "list-lines")))
                        (Sel "li" Always)) sample_concert_page)
         pieces.
Proof.
  apply (pieces_follow_page sample_net (lit "51") sample_concert_page start
           sample_concert
           (extract_metadata sample_net (lit "51") sample_concert_page
              start).2).
  vm_compute. reflexivity.
Defined.

Lemma concert_date_from_meta_sample :
  exists concertMetaTag date rest,
    select_one (Simple (Sel "p" (Class (lit "concertMeta")))) sample_concert_page
    = Some concertMetaTag
    /\ contents_of concertMetaTag = Text date :: rest
    /\ is_Some (select_one (Simple (Sel "p" (Class (lit "mainArtist"))))
                  sample_concert_page)
    /\ dict_get "concertDate" sample_concert
       = Some (VStr (strip (replace [ndash] [hyphen] date)))
    /\ dict_get "concertId" sample_concert = Some (VStr (lit "51")).
Proof.
  apply (concert_date_from_meta sample_net (lit "51") sample_concert_page start
           sample_concert
           (extract_metadata sample_net (lit "51") sample_concert_page
              start).2).
  vm_compute. reflexivity.
Defined.

Lemma empty_candidates_uncaught_sample :
  get_streams hollow_net (lit "51") start
  = (Uncaught IndexError,
     State (data start)
       (trace start
        ++ [Log DEBUG (lit "Getting streams for content with ID "
                       ++ lit "51" ++ lit "...");
            Fetch (ReqStreams (lit "51"))]))
  /\ exit_status (get_streams hollow_net (lit "51") start).1 = 1%Z.
Proof.
  apply (empty_candidates_uncaught hollow_net (lit "51")
           (JsonBody [] (Some hollow_envelope)) hollow_envelope (lit "42")
           start).
  - reflexivity.
  - reflexivity.
  - reflexivity.
  - constructor.
Defined.

Lemma composer_is_last_strong_sample :
  let headers :=
    [Elem "strong" [] [Text (lit "Bach")]; Text (lit " Suite")] in
  dict_get "composer" (piece_record unbroken_piece) = composer_of headers
  /\ (Forall (fun x => named "br" x = false) headers ->
      Exists (fun x => named "strong" x = true) headers ->
      dict_get "description" (piece_record unbroken_piece) = None).
Proof.
  apply (composer_is_last_strong sample_streams unbroken_piece start
           (piece_record unbroken_piece)
           (extract_piece sample_streams unbroken_piece start).2
           (Elem "h2" []
              [Elem "strong" [] [Text (lit "Bach")]; Text (lit " Suite")])).
  - vm_compute. reflexivity.
  - vm_compute. reflexivity.
Defined.

Lemma film_records_follow_index_sample :
  exists soup films,
    films_page sample_net = Received soup
    /\ mapM listed_film (select (Simple (Sel "li" (Class (lit "item")))) soup)
       = Some films
    /\ Forall2 film_record
         (filter (fun f => f.1 ∉ []) films)
         (data (scrape_films sample_net [] start).2).
Proof.
  apply (film_records_follow_index sample_net [] start).
  vm_compute. reflexivity.
Defined.

Lemma plain_groups_leak_sentinels_sample :
  dict_get "artists" (piece_record plain_pair_piece)
  = Some (VList [VDict [("role", VStr KEINE_ROLLE);
                        ("names",
                         VList (replicate
                                  (length (artist_groups
                                             (contents_of plain_pair)))
                                  (VStr KEINER)))]]).
Proof.
  apply (plain_groups_leak_sentinels sample_streams plain_pair_piece start
           (piece_record plain_pair_piece)
           (extract_piece sample_streams plain_pair_piece start).2
           plain_pair (artist_groups (contents_of plain_pair))).
  - vm_compute. reflexivity.
  - vm_compute. reflexivity.
  - reflexivity.
  - vm_compute. lia.
  - vm_compute. repeat constructor.
Defined.

Lemma id_list_round_trip_sample :
  id_list (Some (id_file sample_ids)) = sample_ids.
Proof.
  apply (id_list_round_trip sample_ids).
  unfold sample_ids, one_line. repeat constructor.
Defined.


Lemma refusal_without_message_uncaught_sample :
  get_streams mute_net (lit "51") start
  = (Uncaught KeyError,
     State (data start)
       (trace start
        ++ [Log DEBUG (lit "Getting streams for content with ID "
                       ++ lit "51" ++ lit "...");
            Fetch (ReqStreams (lit "51"))]))
  /\ exit_status (get_streams mute_net (lit "51") start).1 = 1%Z.
Proof.
  apply (refusal_without_message_uncaught mute_net (lit "51")
           (JsonBody [] (Some (UrlsDict false None [])))
           (UrlsDict false None []) start).
  - reflexivity.
  - reflexivity.
  - reflexivity.
  - reflexivity.
Defined.
